(** * Majik Bond: a shallow embedding of the valuation engine

    The development follows the TypeScript sources of the library
    (day-count calculator, coupon schedule, pricing, yield solver, accrual,
    cashflow table, tax and sale engines, and the chainable setters of the
    bond aggregate) and states the properties of its specification over
    that embedding.

    Modelling conventions.
    - A JavaScript [Date] / luxon [DateTime] is represented by its UTC
      calendar fields; its time value is recomputed by [getTime] with the
      ECMAScript day arithmetic.  Only valid instants are represented, and
      the host time zone is taken to be UTC (the library parses and prints
      ISO-8601 UTC strings throughout).
    - JavaScript numbers and decimal.js values are exact rationals ([Q]):
      IEEE-754 rounding and the 40-digit precision of decimal.js are not
      represented.  Inside the yield solver, where the source tests
      [isFinite], a non-finite decimal is [None].
    - Loops of the source that are not counted loops run on fuel; for each of
      them a lemma shows that the fuel handed over by the caller is never
      exhausted. *)

From Stdlib Require Import ZArith QArith Qround Qabs Qpower Qminmax Lia Lqa List Sorted String Bool.
Import ListNotations.

Local Open Scope Z_scope.

(* ================================================================== *)
(** * Part I.  Definitions *)
(* ================================================================== *)

(** ** Calendar arithmetic (ECMAScript 21.4.1, proleptic Gregorian, UTC) *)

Module Calendar.

Definition msPerDay : Z := 86400000.

Definition isLeapYear (y : Z) : bool :=
  ((y mod 4 =? 0) && negb (y mod 100 =? 0)) || (y mod 400 =? 0).

Definition daysInYear (y : Z) : Z := if isLeapYear y then 366 else 365.

(** [DayFromYear] of ECMAScript: day number of January 1st of year [y]. *)
Definition dayFromYear (y : Z) : Z :=
  365 * (y - 1970) + (y - 1969) / 4 - (y - 1901) / 100 + (y - 1601) / 400.

(** Months are numbered 1..12 (as luxon does; [getMonth] below is the
    0-based JavaScript view). *)
Definition daysInMonth (y m : Z) : Z :=
  match m with
  | 1 => 31 | 2 => if isLeapYear y then 29 else 28 | 3 => 31 | 4 => 30
  | 5 => 31 | 6 => 30 | 7 => 31 | 8 => 31 | 9 => 30 | 10 => 31
  | 11 => 30 | 12 => 31
  | _ => 0
  end.

Definition daysBeforeMonth (y m : Z) : Z :=
  match m with
  | 1 => 0 | 2 => 31 | 3 => 59 | 4 => 90 | 5 => 120 | 6 => 151
  | 7 => 181 | 8 => 212 | 9 => 243 | 10 => 273 | 11 => 304 | 12 => 334
  | _ => 0
  end + (if isLeapYear y && (2 <? m) then 1 else 0).

Record Date : Type := mkDate {
  year : Z;
  month : Z;      (* 1..12 *)
  day : Z;        (* 1..daysInMonth *)
  msOfDay : Z     (* 0..msPerDay-1 *)
}.

Definition validDate (d : Date) : bool :=
  (1 <=? month d) && (month d <=? 12) &&
  (1 <=? day d) && (day d <=? daysInMonth (year d) (month d)) &&
  (0 <=? msOfDay d) && (msOfDay d <? msPerDay).

Definition dayNumber (d : Date) : Z :=
  dayFromYear (year d) + daysBeforeMonth (year d) (month d) + (day d - 1).

(** [Date.prototype.getTime] / [DateTime.valueOf]: milliseconds since the epoch. *)
Definition getTime (d : Date) : Z := dayNumber d * msPerDay + msOfDay d.

Definition monthIndex (d : Date) : Z := 12 * year d + (month d - 1).

(** *** The JavaScript [Date] accessors and mutators used by the library *)

Definition getDate (d : Date) : Z := day d.
Definition getMonth (d : Date) : Z := month d - 1.

Definition nextMonth (y m : Z) : Z * Z :=
  if m =? 12 then (y + 1, 1) else (y, m + 1).

Definition prevMonth (y m : Z) : Z * Z :=
  if m =? 1 then (y - 1, 12) else (y, m - 1).

(** [d.setMonth(mi)] with a 0-based, possibly out-of-range month index:
    the year absorbs the excess months ([MakeDay]), and a day of the month
    that the target month does not have carries into the following month
    (a valid day is at most 31 and every month has at least 28 days, so a
    single carry is enough). *)
Definition setMonth (d : Date) (mi : Z) : Date :=
  let y' := year d + mi / 12 in
  let m' := mi mod 12 + 1 in
  if day d <=? daysInMonth y' m' then mkDate y' m' (day d) (msOfDay d)
  else
    let '(y2, m2) := nextMonth y' m' in
    mkDate y2 m2 (day d - daysInMonth y' m') (msOfDay d).

(** [d.setDate(0)]: the last day of the preceding month. *)
Definition setDate0 (d : Date) : Date :=
  let '(y', m') := prevMonth (year d) (month d) in
  mkDate y' m' (daysInMonth y' m') (msOfDay d).

(** luxon's [endOf("year")] and [plus({days: 1})]. *)
Definition endOfYear (d : Date) : Date :=
  mkDate (year d) 12 31 (msPerDay - 1).

Definition plusOneDay (d : Date) : Date :=
  if day d <? daysInMonth (year d) (month d)
  then mkDate (year d) (month d) (day d + 1) (msOfDay d)
  else
    let '(y', m') := nextMonth (year d) (month d) in
    mkDate y' m' 1 (msOfDay d).

(** Midnight UTC of a calendar day. *)
Definition ymd (y m d : Z) : Date := mkDate y m d 0.

End Calendar.
Export Calendar.

(** ** Enumerations (enums.ts, types.ts) *)

Inductive DayCountConvention : Type :=
| THIRTY_U_360 | THIRTY_360 | THIRTY_E_360
| ACTUAL_ACTUAL | ACTUAL_360 | ACTUAL_365.

Inductive PriceMode : Type := Clean | Dirty.

(** [CouponFrequency = 1 | 2 | 4 | 12]. *)
Inductive CouponFrequency : Type := Annual | SemiAnnual | Quarterly | Monthly.

Definition freqZ (f : CouponFrequency) : Z :=
  match f with Annual => 1 | SemiAnnual => 2 | Quarterly => 4 | Monthly => 12 end.

Definition freqQ (f : CouponFrequency) : Q := inject_Z (freqZ f).

(** ** Numbers *)

Definition Qltb (x y : Q) : bool := negb (Qle_bool y x).

(** [Math.round]: the nearest integer, ties towards +infinity. *)
Definition Math_round (x : Q) : Z := Qfloor (x + (1 # 2))%Q.

(** [Decimal.toDecimalPlaces(0, ROUND_HALF_EVEN)]. *)
Definition roundHalfEven (x : Q) : Z :=
  let f := Qfloor x in
  let r := (x - inject_Z f)%Q in
  if Qltb r (1 # 2) then f
  else if Qltb (1 # 2) r then f + 1
  else if Z.even f then f else f + 1.

(** ** DayCountCalculator (utils.ts) *)

Module DayCountCalculator.

(** [end.diff(start, "days").days] in the UTC zone. *)
Definition diffDays (e s : Date) : Q :=
  (inject_Z (getTime e - getTime s) / inject_Z msPerDay)%Q.

Definition actual (s e : Date) : Q := Qabs (diffDays e s).

Fixpoint actualActualLoop (fuel : nat) (current e : Date) (sum : Q) : Q :=
  match fuel with
  | O => sum
  | S k =>
      if getTime current <? getTime e then
        let yearEnd := endOfYear current in
        let nextBreak :=
          if getTime yearEnd <? getTime e then plusOneDay yearEnd else e in
        let diy := daysInYear (year current) in
        actualActualLoop k nextBreak e
          (sum + Qabs (diffDays nextBreak current) / inject_Z diy)%Q
      else sum
  end.

Definition actualActualFuel (s e : Date) : nat :=
  Z.to_nat (year e - year s) + 2.

Definition actualActual (s e : Date) : Q :=
  actualActualLoop (actualActualFuel s e) s e 0%Q.

(** 30/360 US (bond basis). *)
Definition thirtyUS360 (s e : Date) : Q :=
  let d1 := day s in
  let d2 := day e in
  let d1 := if d1 =? 31 then 30 else d1 in
  let d2 := if (d2 =? 31) && (30 <=? d1) then 30 else d2 in
  let days360 :=
    (year e - year s) * 360 + (month e - month s) * 30 + (d2 - d1) in
  (inject_Z days360 / 360)%Q.

(** 30E/360 (European). *)
Definition thirtyE360 (s e : Date) : Q :=
  let d1 := if day s =? 31 then 30 else day s in
  let d2 := if day e =? 31 then 30 else day e in
  let days360 :=
    (year e - year s) * 360 + (month e - month s) * 30 + (d2 - d1) in
  (inject_Z days360 / 360)%Q.

Definition yearFraction (startDate endDate : Date)
           (convention : DayCountConvention) : Q :=
  if getTime endDate <=? getTime startDate then 0%Q
  else
    match convention with
    | ACTUAL_ACTUAL => actualActual startDate endDate
    | ACTUAL_360 => (actual startDate endDate / 360)%Q
    | ACTUAL_365 => (actual startDate endDate / 365)%Q
    | THIRTY_360 | THIRTY_U_360 => thirtyUS360 startDate endDate
    | THIRTY_E_360 => thirtyE360 startDate endDate
    end.

End DayCountCalculator.

(** ** Money *)

(** Modelled from the spec: the monetary value type [MajikMoney] comes from
    an external package and is not part of the sources.  The specification
    describes it as an arbitrary-precision amount backed by minor units, with
    multiply / divide / add / subtract and explicit rounding.  It is rendered
    as an exact rational number of minor units together with its currency;
    no operation rounds on its own (the library rounds on the decimal side,
    before [fromMajor]).  A currency code is represented by its resolved
    table entry. *)
Record Currency : Type := mkCurrency {
  code : string;
  minorDigits : nat       (* decimal places of the minor unit *)
}.

Record MajikMoney : Type := mkMoney {
  minorUnits : Q;
  currency : Currency
}.

Module Money.
Local Open Scope Q_scope.

Definition scale (c : Currency) : Q := inject_Z (10 ^ Z.of_nat (minorDigits c)).

Definition fromMinor (n : Q) (c : Currency) : MajikMoney := mkMoney n c.
Definition fromMajor (x : Q) (c : Currency) : MajikMoney := mkMoney (x * scale c) c.
Definition toMinor (m : MajikMoney) : Q := minorUnits m.
Definition toMajorDecimal (m : MajikMoney) : Q := minorUnits m / scale (currency m).
Definition multiply (m : MajikMoney) (x : Q) : MajikMoney :=
  mkMoney (minorUnits m * x) (currency m).
Definition add (a b : MajikMoney) : MajikMoney :=
  mkMoney (minorUnits a + minorUnits b) (currency a).
Definition subtract (a b : MajikMoney) : MajikMoney :=
  mkMoney (minorUnits a - minorUnits b) (currency a).
Definition ratio (a b : MajikMoney) : Q := minorUnits a / minorUnits b.

(** Same currency, same amount. *)
Definition eq (a b : MajikMoney) : Prop :=
  currency a = currency b /\ minorUnits a == minorUnits b.

Definition PHP : Currency := mkCurrency "PHP"%string 2.
End Money.

(** ** The bond aggregate (types.ts, majik-bond.ts) *)

(** ISO-8601 strings are represented by the instants they denote. *)
Record BondMaturity : Type := mkMaturity {
  start : Date;
  end_ : Date;
  years : Q;
  issueDate : option Date
}.

Record PriceQuote : Type := mkPrice {
  buy : Q;
  sell : option Q
}.

Record BondTaxSettings : Type := mkTax {
  enabled : bool;
  interestFWT : Q;
  capitalGains : Q;
  estateOrDonor : Q
}.

Record CashflowSummary : Type := mkRow {
  period : Z;
  dateLabel : Date;
  interest : MajikMoney;
  principal : MajikMoney;
  total : MajikMoney;
  rowTax : MajikMoney        (* the [tax] field of a row *)
}.

Record MajikBond : Type := mkBond {
  faceValue : MajikMoney;
  couponRate : Q;
  maturity : BondMaturity;
  price : PriceQuote;
  frequency : CouponFrequency;
  marketRate : Q;
  dayCount : DayCountConvention;
  cashflowSummary : list CashflowSummary;
  tax : BondTaxSettings;
  priceMode : PriceMode
}.

(** JavaScript truthiness of a number. *)
Definition truthy (x : Q) : bool := negb (Qeq_bool x 0).

(** ** Coupon schedule ([MajikBond.generateCouponSchedule]; the same loop is
    inlined in [BondCashflow.generate]) *)

Module Schedule.

(** One pass of the loop body: [setMonth] by the period length, then the
    end-of-month adjustment. *)
Definition advance (monthsPerPeriod : Z) (current : Date) : Date :=
  let next := setMonth current (getMonth current + monthsPerPeriod) in
  if negb (getDate next =? getDate current) then setDate0 next else next.

Fixpoint scheduleLoop (fuel : nat) (monthsPerPeriod : Z)
         (current e : Date) : list Date :=
  match fuel with
  | O => []
  | S k =>
      if getTime current <? getTime e then
        let next := advance monthsPerPeriod current in
        (if getTime e <? getTime next then e else next)
          :: scheduleLoop k monthsPerPeriod next e
      else []
  end.

(** Each pass moves [current] forward by [monthsPerPeriod >= 1] calendar
    months, so one pass per month between the two dates, and one more for
    the final test, is enough. *)
Definition scheduleFuel (s e : Date) : nat :=
  Z.to_nat (monthIndex e - monthIndex s + 1) + 1.

Definition monthsPerPeriod (f : CouponFrequency) : Z := 12 / freqZ f.

Definition couponDates (s e : Date) (f : CouponFrequency) : list Date :=
  scheduleLoop (scheduleFuel s e) (monthsPerPeriod f) s e.

(** The value of [current] after [n] passes of the loop. *)
Definition currentAfter (f : CouponFrequency) (n : nat) (s : Date) : Date :=
  Nat.iter n (advance (monthsPerPeriod f)) s.

Definition before (a b : Date) : Prop := getTime a < getTime b.

End Schedule.

Definition generateCouponSchedule (b : MajikBond) : list Date :=
  Schedule.couponDates (start (maturity b)) (end_ (maturity b)) (frequency b).

(** [MajikBond.totalPeriods]. *)
Definition totalPeriods (b : MajikBond) : Z :=
  Math_round
    (DayCountCalculator.yearFraction (start (maturity b)) (end_ (maturity b))
       (dayCount b) * freqQ (frequency b))%Q.

(** ** BondAccrual (accrual.ts) *)

Module BondAccrual.
Import DayCountCalculator.
Local Open Scope Q_scope.

(** The [for ... of schedule] scan for the last coupon on or before the
    valuation date. *)
Fixpoint findLastCoupon (valuationDate : Date) (schedule : list Date)
         (lastCoupon : Date) : Date :=
  match schedule with
  | [] => lastCoupon
  | couponDate :: rest =>
      if (getTime valuationDate <? getTime couponDate)%Z then lastCoupon
      else findLastCoupon valuationDate rest couponDate
  end.

(** The unrounded accrued amount, in major units. *)
Definition accruedMajor (b : MajikBond) (fraction : Q) : Q :=
  let gross := Money.toMajorDecimal (faceValue b) * couponRate b * fraction in
  if enabled (tax b) && truthy (interestFWT (tax b))
  then gross - gross * interestFWT (tax b)
  else gross.

Definition accruedInterest (b : MajikBond) (asOfDate : Date) : MajikMoney :=
  let zero := Money.fromMinor 0 (currency (faceValue b)) in
  let schedule := generateCouponSchedule b in
  match schedule with
  | [] => zero
  | first :: _ =>
      if (getTime asOfDate <=? getTime first)%Z then zero
      else
        let lastCoupon := findLastCoupon asOfDate schedule (start (maturity b)) in
        let fraction := yearFraction lastCoupon asOfDate (dayCount b) in
        if Qle_bool fraction 0 then zero
        else
          Money.fromMajor (inject_Z (roundHalfEven (accruedMajor b fraction)))
                          (currency (faceValue b))
  end.

End BondAccrual.

(** ** BondCashflow (cashflow.ts) *)

Module BondCashflow.
Import DayCountCalculator.
Local Open Scope Q_scope.

(** Unrounded amounts of the row at index [idx]. *)
Definition prevDate (issue : Date) (schedule : list Date) (idx : nat) : Date :=
  match idx with
  | O => issue
  | S i => nth i schedule issue
  end.

Definition grossInterest (b : MajikBond) (prev couponDate : Date) : Q :=
  Money.toMajorDecimal (faceValue b) * couponRate b
  * yearFraction prev couponDate (dayCount b).

Definition taxMaj (b : MajikBond) (gross : Q) : Q :=
  if enabled (tax b) && truthy (interestFWT (tax b))
  then gross * interestFWT (tax b) else 0.

Definition interestMaj (b : MajikBond) (gross : Q) : Q :=
  if enabled (tax b) && truthy (interestFWT (tax b))
  then gross - gross * interestFWT (tax b) else gross.

Definition principalMaj (b : MajikBond) (len idx : nat) : Q :=
  if (idx =? len - 1)%nat then Money.toMajorDecimal (faceValue b) else 0.

Definition rounded (x : Q) (c : Currency) : MajikMoney :=
  Money.fromMajor (inject_Z (roundHalfEven x)) c.

Definition row (b : MajikBond) (schedule : list Date)
           (idx : nat) (couponDate : Date) : CashflowSummary :=
  let cur := currency (faceValue b) in
  let prev := prevDate (start (maturity b)) schedule idx in
  let gross := grossInterest b prev couponDate in
  let i := interestMaj b gross in
  let p := principalMaj b (List.length schedule) idx in
  mkRow (Z.of_nat idx + 1) couponDate
        (rounded i cur) (rounded p cur) (rounded (i + p) cur)
        (rounded (taxMaj b gross) cur).

Definition generate (b : MajikBond) : list CashflowSummary :=
  let schedule :=
    Schedule.couponDates (start (maturity b)) (end_ (maturity b)) (frequency b) in
  map (fun '(idx, couponDate) => row b schedule idx couponDate)
      (combine (seq 0 (List.length schedule)) schedule).

End BondCashflow.

(** ** BondPricing (pricing.ts) *)

Module BondPricing.
Import DayCountCalculator.
Local Open Scope Q_scope.

Inductive ExitReason : Type :=
| ShortCircuit      (* maturityYears <= 0 *)
| ToleranceMet      (* |next - ytm| < tolerance *)
| DerivativeFloor   (* |df| < 1e-30 *)
| NonFiniteStep     (* !next.isFinite() *)
| IterationCap.     (* i reached iterations *)

Record SolverRun : Type := mkRun {
  estimate : Q;          (* the value of ytmDec on exit *)
  steps : nat;           (* how many times ytmDec was assigned *)
  exitReason : ExitReason
}.

Definition derivativeFloor : Q := 1 # (10 ^ 30).
Definition defaultTolerance : Q := 1 # (10 ^ 12).
Definition defaultIterations : nat := 100.

Definition isInteger (x : Q) : bool := Qeq_bool x (inject_Z (Qfloor x)).

Section WithPow.

(** [Decimal.pow] of decimal.js on a finite result.  The package is not
    part of the sources; the function is a parameter, and the statements
    that need more than its existence say so ([PowLaw] below). *)
Variable pow : Q -> Q -> Q.

Definition couponMaj (b : MajikBond) : Q :=
  Money.toMajorDecimal (faceValue b) * couponRate b / freqQ (frequency b).

(** The [schedule.forEach] accumulation of [computePrice]. *)
Definition discountedCoupons (b : MajikBond) (baseRate : Q)
           (valuationDate : Date) (schedule : list Date) : Q :=
  fold_left
    (fun priceMaj couponDate =>
       let t := yearFraction valuationDate couponDate (dayCount b)
                * freqQ (frequency b) in
       if Qle_bool t 0 then priceMaj
       else priceMaj + couponMaj b / pow baseRate t)
    schedule 0.

(** [computePrice].  Divisions are those of [Q]; decimal.js yields a
    non-finite value where [Q] yields 0, which can only happen when
    [1 + rate / frequency] or the face value is zero. *)
Definition computePrice (b : MajikBond) (rate : Q) (asOfDate : Date)
           (mode : PriceMode) : Q :=
  let valuationDate := asOfDate in
  let schedule := generateCouponSchedule b in
  let faceMaj := Money.toMajorDecimal (faceValue b) in
  let baseRate := 1 + rate / freqQ (frequency b) in
  let priceMaj := discountedCoupons b baseRate valuationDate schedule in
  let totalPeriods :=
    match last (map Some schedule) None with
    | Some d => yearFraction valuationDate d (dayCount b)
    | None => 0
    end * freqQ (frequency b) in
  let priceMaj := priceMaj + faceMaj / pow baseRate totalPeriods in
  match mode with
  | Dirty =>
      let accruedMaj :=
        Money.toMajorDecimal (BondAccrual.accruedInterest b asOfDate) in
      (priceMaj + accruedMaj) / faceMaj
  | Clean => priceMaj / faceMaj
  end.

(** *** The yield solver *)

(** The inner loop [for (t = 1; t <= periods; t = t + 1)], accumulating
    [f] and [df]. *)
Fixpoint couponLoop (fuel : nat) (coupon discountBase freq periods : Q)
         (t f df : Q) : Q * Q :=
  match fuel with
  | O => (f, df)
  | S k =>
      if Qle_bool t periods then
        let discount := pow discountBase t in
        couponLoop k coupon discountBase freq periods (t + 1)
          (f + coupon / discount)
          (df - t * coupon / (discount * discountBase * freq))
      else (f, df)
  end.

Definition couponLoopFuel (periods : Q) : nat :=
  S (Z.to_nat (Qfloor periods)).

(** [f] and [df] at the estimate [ytm]; [None] when decimal.js would
    produce a non-finite value: a division by a zero discount factor
    ([discountBase = 0]) or a negative base raised to a fractional
    number of periods. *)
Definition newtonTerms (b : MajikBond) (priceRatio periods ytm : Q)
  : option (Q * Q) :=
  let freqDec := freqQ (frequency b) in
  let faceMaj := Money.toMajorDecimal (faceValue b) in
  let discountBase := 1 + ytm / freqDec in
  if Qeq_bool discountBase 0 then None
  else if Qltb discountBase 0 && negb (isInteger periods) then None
  else
    let '(f, df) :=
      couponLoop (couponLoopFuel periods) (couponMaj b) discountBase
                 freqDec periods 1 0 0 in
    let discountFinal := pow discountBase periods in
    Some (f + (faceMaj / discountFinal - faceMaj * priceRatio),
          df - periods * faceMaj / (discountFinal * discountBase * freqDec)).

(** The Newton update [ytm - f / df] (when the step is taken). *)
Definition newtonNext (b : MajikBond) (priceRatio periods ytm : Q) : Q :=
  match newtonTerms b priceRatio periods ytm with
  | Some (f, df) => ytm - f / df
  | None => ytm
  end.

Fixpoint newtonLoop (iterations : nat) (b : MajikBond)
         (priceRatio periods tolerance : Q) (ytm : Q) (done : nat)
  : SolverRun :=
  match iterations with
  | O => mkRun ytm done IterationCap
  | S i =>
      match newtonTerms b priceRatio periods ytm with
      | None => mkRun ytm done NonFiniteStep
      | Some (f, df) =>
          if Qltb (Qabs df) derivativeFloor then mkRun ytm done DerivativeFloor
          else
            let next := ytm - f / df in
            if Qltb (Qabs (next - ytm)) tolerance
            then mkRun next (S done) ToleranceMet
            else newtonLoop i b priceRatio periods tolerance next (S done)
      end
  end.

Definition initialGuess (b : MajikBond) : Q :=
  if truthy (marketRate b) then marketRate b else couponRate b.

Definition solveRun (b : MajikBond) (priceRatio maturityYears : Q)
           (iterations : nat) (tolerance : Q) : SolverRun :=
  if Qle_bool maturityYears 0 then mkRun 0 0 ShortCircuit
  else
    newtonLoop iterations b priceRatio
               (maturityYears * freqQ (frequency b)) tolerance
               (initialGuess b) 0.

Definition solveYTMFromPrice (b : MajikBond) (priceRatio maturityYears : Q)
           (iterations : nat) (tolerance : Q) : Q :=
  estimate (solveRun b priceRatio maturityYears iterations tolerance).

End WithPow.

(** What the properties below use of [Decimal.pow]: on an integral
    exponent it is the integer power. *)
Definition PowLaw (pow : Q -> Q -> Q) : Prop :=
  forall (x t : Q) (n : Z), t == inject_Z n -> pow x t == Qpower x n.

(** An instance, exact on integral exponents. *)
Definition intPow (x t : Q) : Q := Qpower x (Qfloor t).

(** Present value of [n] coupons [c] paid at the end of periods 1..n,
    discounted at [base] per period. *)
Fixpoint annuity (c base : Q) (n : nat) : Q :=
  match n with
  | O => 0
  | S k => annuity c base k + c / Qpower base (Z.of_nat (S k))
  end.

(** Every coupon of [schedule] lies a whole number of periods after the
    valuation date: the k-th one exactly k periods. *)
Definition wholePeriods (b : MajikBond) (asOfDate : Date) : Prop :=
  forall (k : nat) (d : Date),
    nth_error (generateCouponSchedule b) k = Some d ->
    yearFraction asOfDate d (dayCount b) * freqQ (frequency b)
    == inject_Z (Z.of_nat (S k)).

End BondPricing.

(** ** BondSale (sale.ts) *)

Module BondSale.
Local Open Scope Q_scope.

Record BondSaleSummary : Type := mkSale {
  asOfDate : Date;
  cleanPrice : MajikMoney;
  dirtyPrice : MajikMoney;
  accruedInterest : MajikMoney;
  capitalGainsTax : MajikMoney;
  netGain : MajikMoney;
  sellPriceUsed : Q
}.

Section WithPow.
Variable pow : Q -> Q -> Q.

Definition getSellPriceRatio (b : MajikBond) (asOfDate : Date) : Q :=
  match sell (price b) with
  | Some s => s
  | None => BondPricing.computePrice pow b (marketRate b) asOfDate Dirty
  end.

Definition computeCapitalGainsTax (b : MajikBond) (asOfDate : Date)
  : MajikMoney :=
  if negb (enabled (tax b)) || negb (truthy (capitalGains (tax b)))
  then Money.fromMinor 0 (currency (faceValue b))
  else
    let sellRatio := getSellPriceRatio b asOfDate in
    let gainRatio := sellRatio - buy (price b) in
    if Qle_bool gainRatio 0
    then Money.fromMinor 0 (currency (faceValue b))
    else Money.multiply (Money.multiply (faceValue b) gainRatio)
                        (capitalGains (tax b)).

Definition computeNetGain (b : MajikBond) (asOfDate : Date) : MajikMoney :=
  let sellRatio := getSellPriceRatio b asOfDate in
  let saleProceeds := Money.multiply (faceValue b) sellRatio in
  let accrued := BondAccrual.accruedInterest b asOfDate in
  let invested := Money.multiply (faceValue b) (buy (price b)) in
  let cgt := computeCapitalGainsTax b asOfDate in
  Money.subtract (Money.subtract (Money.add saleProceeds accrued) invested) cgt.

Definition computeTotalReturnRatio (b : MajikBond) (asOfDate : Date) : Q :=
  let invested := Money.multiply (faceValue b) (buy (price b)) in
  Money.ratio (computeNetGain b asOfDate) invested.

Definition simulate (b : MajikBond) (asOfDate : Date) : BondSaleSummary :=
  let cleanPriceRatio :=
    BondPricing.computePrice pow b (marketRate b) asOfDate Clean in
  let dirtyPriceRatio :=
    BondPricing.computePrice pow b (marketRate b) asOfDate Dirty in
  mkSale asOfDate
         (Money.multiply (faceValue b) cleanPriceRatio)
         (Money.multiply (faceValue b) dirtyPriceRatio)
         (BondAccrual.accruedInterest b asOfDate)
         (computeCapitalGainsTax b asOfDate)
         (computeNetGain b asOfDate)
         (getSellPriceRatio b asOfDate).

End WithPow.
End BondSale.

(** ** BondTax (tax.ts) *)

Module BondTax.
Local Open Scope Q_scope.

Definition computeCapitalGains (settings : BondTaxSettings)
           (sellPrice costBasis : MajikMoney) : MajikMoney :=
  if negb (enabled settings) || negb (truthy (capitalGains settings))
  then Money.fromMinor 0 (currency sellPrice)
  else
    let gain := Money.subtract sellPrice costBasis in
    if Qle_bool (Money.toMinor gain) 0
    then Money.fromMinor 0 (currency sellPrice)
    else Money.multiply gain (capitalGains settings).

End BondTax.

(** ** MajikBond: queries and chainable setters (majik-bond.ts) *)

Module MajikBondMethods.
Import DayCountCalculator.
Local Open Scope Q_scope.
Local Open Scope string_scope.


(** *** Methods that assign to [this] and may throw

    A method maps the bond it is called on to how it completed and to the
    bond as it stands afterwards: the assignments made before a [throw]
    stay.  (Every setter returns [this]; the returned reference carries no
    information here.) *)
Inductive Completion : Type :=
| Returned
| Thrown (message : string).

Definition Method : Type := MajikBond -> Completion * MajikBond.

Definition assign (f : MajikBond -> MajikBond) : Method :=
  fun b => (Returned, f b).

Definition throw (message : string) : Method :=
  fun b => (Thrown message, b).

Definition andThen (m1 m2 : Method) : Method :=
  fun b =>
    match m1 b with
    | (Returned, b') => m2 b'
    | (Thrown message, b') => (Thrown message, b')
    end.

Notation "m1 ;; m2" := (andThen m1 m2) (at level 61, right associativity).

(** Field updates. *)
Definition withFaceValue (v : MajikMoney) (b : MajikBond) : MajikBond :=
  mkBond v (couponRate b) (maturity b) (price b) (frequency b) (marketRate b)
         (dayCount b) (cashflowSummary b) (tax b) (priceMode b).
Definition withCouponRate (r : Q) (b : MajikBond) : MajikBond :=
  mkBond (faceValue b) r (maturity b) (price b) (frequency b) (marketRate b)
         (dayCount b) (cashflowSummary b) (tax b) (priceMode b).
Definition withMaturity (m : BondMaturity) (b : MajikBond) : MajikBond :=
  mkBond (faceValue b) (couponRate b) m (price b) (frequency b) (marketRate b)
         (dayCount b) (cashflowSummary b) (tax b) (priceMode b).
Definition withPrice (p : PriceQuote) (b : MajikBond) : MajikBond :=
  mkBond (faceValue b) (couponRate b) (maturity b) p (frequency b) (marketRate b)
         (dayCount b) (cashflowSummary b) (tax b) (priceMode b).
Definition withMarketRate (r : Q) (b : MajikBond) : MajikBond :=
  mkBond (faceValue b) (couponRate b) (maturity b) (price b) (frequency b) r
         (dayCount b) (cashflowSummary b) (tax b) (priceMode b).
Definition withCashflowSummary (c : list CashflowSummary) (b : MajikBond)
  : MajikBond :=
  mkBond (faceValue b) (couponRate b) (maturity b) (price b) (frequency b)
         (marketRate b) (dayCount b) c (tax b) (priceMode b).
Definition withTax (t : BondTaxSettings) (b : MajikBond) : MajikBond :=
  mkBond (faceValue b) (couponRate b) (maturity b) (price b) (frequency b)
         (marketRate b) (dayCount b) (cashflowSummary b) t (priceMode b).

(** [recomputeDerivedData] = [computeCashflowSummary]. *)
Definition recomputeDerivedData : Method :=
  assign (fun b => withCashflowSummary (BondCashflow.generate b) b).

Definition recomputeMaturityYears : Method :=
  fun b =>
    let s := start (maturity b) in
    let e := end_ (maturity b) in
    if (getTime e <=? getTime s)%Z
    then throw "Maturity date must be after issue date" b
    else
      assign (fun b =>
                withMaturity (mkMaturity s e (yearFraction s e (dayCount b))
                                         (issueDate (maturity b))) b) b.

Definition setFaceValue (value : Q) (cur : Currency) : Method :=
  if Qle_bool value 0 then throw "Face value must be positive"
  else assign (withFaceValue (Money.fromMajor value cur)) ;; recomputeDerivedData.

Definition setCouponRate (rate : Q) : Method :=
  if Qltb rate 0 then throw "Coupon rate cannot be negative"
  else assign (withCouponRate rate) ;; recomputeDerivedData.

Definition setBuyPrice (p : Q) : Method :=
  if Qle_bool p 0 then throw "Buy price must be positive"
  else assign (fun b => withPrice (mkPrice p (sell (price b))) b)
       ;; recomputeDerivedData.

Definition setSellPrice (p : Q) : Method :=
  if Qle_bool p 0 then throw "Sell price must be positive"
  else assign (fun b => withPrice (mkPrice (buy (price b)) (Some p)) b)
       ;; recomputeDerivedData.

(** [setMarketRate] and [setMaturityDate] end with a call to
    [BondPricing.computeYTMCurve(this)], which reads the bond and whose
    result is dropped. *)
Definition setMarketRate (rate : Q) : Method :=
  if Qltb rate 0 then throw "Market rate cannot be negative"
  else assign (withMarketRate rate) ;; recomputeDerivedData.

Definition outsideUnit (rate : Q) : bool := Qltb rate 0 || Qltb 1 rate.

Definition setInterestFWT (rate : Q) : Method :=
  if outsideUnit rate then throw "Interest FWT must be between 0 and 1"
  else assign (fun b => withTax (mkTax (enabled (tax b)) rate
                                    (capitalGains (tax b))
                                    (estateOrDonor (tax b))) b)
       ;; recomputeDerivedData.

Definition setCapitalGains (rate : Q) : Method :=
  if outsideUnit rate then throw "Capital gains tax must be between 0 and 1"
  else assign (fun b => withTax (mkTax (enabled (tax b)) (interestFWT (tax b))
                                    rate (estateOrDonor (tax b))) b)
       ;; recomputeDerivedData.

Definition setEstateOrDonor (rate : Q) : Method :=
  if outsideUnit rate then throw "Estate/Donor tax must be between 0 and 1"
  else assign (fun b => withTax (mkTax (enabled (tax b)) (interestFWT (tax b))
                                    (capitalGains (tax b)) rate) b)
       ;; recomputeDerivedData.

(** [setIssueDate] and [setMaturityDate] assign first and validate in
    [recomputeMaturityYears].  (Their "default if missing" branches guard
    an empty date string, which has no counterpart here.) *)
Definition setIssueDate (date : Date) : Method :=
  assign (fun b => withMaturity (mkMaturity date (end_ (maturity b))
                                            (years (maturity b)) (Some date)) b)
  ;; recomputeMaturityYears ;; recomputeDerivedData.

Definition setMaturityDate (date : Date) : Method :=
  assign (fun b => withMaturity (mkMaturity (start (maturity b)) date
                                            (years (maturity b))
                                            (issueDate (maturity b))) b)
  ;; recomputeMaturityYears ;; recomputeDerivedData.

(** The setters named by the atomicity property, with their arguments. *)
Inductive Setter : Type :=
| SetFaceValue (value : Q) (cur : Currency)
| SetCouponRate (rate : Q)
| SetBuyPrice (p : Q)
| SetSellPrice (p : Q)
| SetMarketRate (rate : Q)
| SetInterestFWT (rate : Q)
| SetCapitalGains (rate : Q)
| SetEstateOrDonor (rate : Q)
| SetIssueDate (date : Date)
| SetMaturityDate (date : Date).

Definition call (s : Setter) : Method :=
  match s with
  | SetFaceValue v c => setFaceValue v c
  | SetCouponRate r => setCouponRate r
  | SetBuyPrice p => setBuyPrice p
  | SetSellPrice p => setSellPrice p
  | SetMarketRate r => setMarketRate r
  | SetInterestFWT r => setInterestFWT r
  | SetCapitalGains r => setCapitalGains r
  | SetEstateOrDonor r => setEstateOrDonor r
  | SetIssueDate d => setIssueDate d
  | SetMaturityDate d => setMaturityDate d
  end.

(** The setters that validate their argument before assigning it. *)
Definition validatesFirst (s : Setter) : bool :=
  match s with
  | SetIssueDate _ | SetMaturityDate _ => false
  | _ => true
  end.

End MajikBondMethods.

(** ** Well-formed bonds and the bonds used as examples *)

(** The invariants of the data model: both maturity dates are calendar
    dates, the end lies strictly after the start, the face value and the buy
    price are positive, the optional sell price is positive, the rates are
    non-negative and the tax rates lie in [0, 1]. *)
Definition unitRate (x : Q) : bool := Qle_bool 0 x && Qle_bool x 1.

Definition validBond (b : MajikBond) : bool :=
  validDate (start (maturity b)) && validDate (end_ (maturity b)) &&
  (getTime (start (maturity b)) <? getTime (end_ (maturity b))) &&
  Qltb 0 (minorUnits (faceValue b)) &&
  Qle_bool 0 (couponRate b) && Qle_bool 0 (marketRate b) &&
  Qltb 0 (buy (price b)) &&
  match sell (price b) with Some s => Qltb 0 s | None => true end &&
  unitRate (interestFWT (tax b)) && unitRate (capitalGains (tax b)) &&
  unitRate (estateOrDonor (tax b)).

Module Examples.
Import DayCountCalculator.

(** The defaults of [MajikBond.initialize]: tax disabled, FWT 20%,
    capital gains 15%, no estate tax. *)
Definition defaultTax : BondTaxSettings := mkTax false (1 # 5) (15 # 100) 0.

Definition bondOf (face : Z) (rate : Q) (s e : Date) (f : CouponFrequency)
           (dc : DayCountConvention) (t : BondTaxSettings) : MajikBond :=
  mkBond (Money.fromMajor (inject_Z face) Money.PHP) rate
         (mkMaturity s e (yearFraction s e dc) None)
         (mkPrice 1 None) f rate dc [] t Clean.

(** Eight months, semi-annual coupons: one regular period and a stub. *)
Definition stubBond : MajikBond :=
  bondOf 5000 (5 # 100) (ymd 2025 1 1) (ymd 2025 9 1) SemiAnnual ACTUAL_365 defaultTax.

(** Two years, semi-annual, 30/360, coupons on the 15th. *)
Definition regularBond : MajikBond :=
  bondOf 100000 (6 # 100) (ymd 2025 1 15) (ymd 2027 1 15) SemiAnnual THIRTY_360 defaultTax.

(** Two years, semi-annual, 30/360, coupons on the 30th. *)
Definition monthEndBond : MajikBond :=
  bondOf 100000 (6 # 100) (ymd 2025 7 30) (ymd 2027 7 30) SemiAnnual THIRTY_360 defaultTax.

(** Five years, semi-annual, ACTUAL/365 (the library defaults), with and
    without withholding tax. *)
Definition defaultBond : MajikBond :=
  bondOf 5000 (5 # 100) (ymd 2025 1 1) (ymd 2030 1 1) SemiAnnual ACTUAL_365 defaultTax.

Definition taxedBond : MajikBond :=
  bondOf 5000 (5 # 100) (ymd 2025 1 1) (ymd 2030 1 1) SemiAnnual ACTUAL_365
         (mkTax true (1 # 5) (15 # 100) 0).

(** A bond as [initialize] leaves it: the cashflow table is computed. *)
Definition initialized (b : MajikBond) : MajikBond :=
  snd (MajikBondMethods.recomputeDerivedData b).

Definition liveBond : MajikBond := initialized defaultBond.

End Examples.

(** ** The claims of the specification that the code does not meet, as
    stated *)

Module AsStated.
Import DayCountCalculator.

(** Schedule: strictly increasing, ends on the maturity date, and its
    length is [round(years * frequency)]. *)
Definition scheduleClaim : Prop :=
  forall b : MajikBond,
    validBond b = true ->
    let s := generateCouponSchedule b in
    StronglySorted Schedule.before s /\
    (exists init x, s = init ++ [x] /\ getTime x = getTime (end_ (maturity b))) /\
    Z.of_nat (List.length s) = totalPeriods b.

(** Accrued interest: zero up to the first coupon and on every coupon
    date, strictly positive strictly between two consecutive coupons when
    tax is disabled and the coupon rate is positive. *)
Definition accrualClaim : Prop :=
  forall (b : MajikBond) (asOfDate : Date),
    validBond b = true -> validDate asOfDate = true ->
    let s := generateCouponSchedule b in
    let zero := Money.fromMinor 0 (currency (faceValue b)) in
    (forall first, hd_error s = Some first ->
                   getTime asOfDate <= getTime first ->
                   BondAccrual.accruedInterest b asOfDate = zero) /\
    (forall c, In c s -> getTime asOfDate = getTime c ->
               BondAccrual.accruedInterest b asOfDate = zero) /\
    (forall k c1 c2,
        nth_error s k = Some c1 -> nth_error s (S k) = Some c2 ->
        getTime c1 < getTime asOfDate < getTime c2 ->
        enabled (tax b) = false -> (0 < couponRate b)%Q ->
        (0 < minorUnits (BondAccrual.accruedInterest b asOfDate))%Q).

(** Cashflow rows: every monetary field is the round-half-to-even
    rounding of its amount to the currency's minor unit, and the stored
    net interest plus the stored tax is the gross interest exactly. *)
Definition cashflowClaim : Prop :=
  forall (b : MajikBond) (idx : nat) (r : CashflowSummary),
    validBond b = true ->
    nth_error (BondCashflow.generate b) idx = Some r ->
    let schedule := generateCouponSchedule b in
    let cur := currency (faceValue b) in
    exists couponDate,
      nth_error schedule idx = Some couponDate /\
      let gross :=
        BondCashflow.grossInterest b
          (BondCashflow.prevDate (start (maturity b)) schedule idx) couponDate in
      let net := BondCashflow.interestMaj b gross in
      let withheld := BondCashflow.taxMaj b gross in
      (minorUnits (interest r)
       == inject_Z (roundHalfEven (net * Money.scale cur)))%Q /\
      (minorUnits (rowTax r)
       == inject_Z (roundHalfEven (withheld * Money.scale cur)))%Q /\
      (Money.toMajorDecimal (interest r) + Money.toMajorDecimal (rowTax r)
       == gross)%Q.

(** Setters: a call that throws leaves every field of the bond as it
    was. *)
Definition atomicityClaim : Prop :=
  forall (s : MajikBondMethods.Setter) (b b' : MajikBond) (message : string),
    MajikBondMethods.call s b = (MajikBondMethods.Thrown message, b') -> b' = b.


End AsStated.

(** ** Further parts of the library *)

(** *** MajikBond: derived amounts (majik-bond.ts) *)

Module MajikBondQueries.
Local Open Scope Q_scope.


Definition DEFAULT_ZERO (b : MajikBond) : MajikMoney :=
  Money.fromMinor 0 (currency (faceValue b)).

(** [getTotalCashReceived] and [getTotalInterestEarned] reduce over the
    cached table, without recomputing it. *)
Definition getTotalCashReceived (b : MajikBond) : MajikMoney :=
  fold_left (fun sum cf => Money.add sum (total cf)) (cashflowSummary b)
            (DEFAULT_ZERO b).

Definition getTotalInterestEarned (b : MajikBond) : MajikMoney :=
  fold_left (fun sum cf => Money.add sum (interest cf)) (cashflowSummary b)
            (DEFAULT_ZERO b).

(** [get netGain] and [get totalReturn]. *)
Definition netGain (b : MajikBond) : MajikMoney :=
  let invested := Money.multiply (faceValue b) (buy (price b)) in
  Money.subtract (getTotalCashReceived b) invested.

Definition totalReturn (b : MajikBond) : Q :=
  let invested := Money.multiply (faceValue b) (buy (price b)) in
  Money.ratio (netGain b) invested.

End MajikBondQueries.

(** *** BondPricing: market rate, duration, planning, yield curve
    (pricing.ts) *)

Module BondAnalytics.
Import BondPricing.
Local Open Scope Q_scope.

(** The two data arrays of the Plotly trace returned by [computeYTMCurve],
    with the two options that reach it; the remaining fields of the trace
    are literals. *)
Record YTMCurvePlot : Type := mkCurve {
  curveX : list Q;          (* maturities in years *)
  curveY : list Q;          (* YTM values *)
  curveSmoothing : Q;
  curveName : string
}.

Section WithPow.
Variable pow : Q -> Q -> Q.


(** The loop [for (t = 1; t <= bond.totalPeriods; t++)] of [getDuration],
    over the [n] values of [t] still to come. *)
Fixpoint durationLoop (n : nat) (coupon baseRate : Q) (t : Z)
         (weightedSum pvTotal : Q) : Q * Q :=
  match n with
  | O => (weightedSum, pvTotal)
  | S k =>
      let discount := pow baseRate (inject_Z t) in
      let pv := coupon / discount in
      durationLoop k coupon baseRate (t + 1)
                   (weightedSum + pv * inject_Z t) (pvTotal + pv)
  end.

(** [getDuration]: Macaulay duration on the clean-price basis.  As in
    [computePrice], the divisions are those of [Q]. *)
Definition getDuration (b : MajikBond) : Q :=
  let faceMaj := Money.toMajorDecimal (faceValue b) in
  let coupon := faceMaj * couponRate b / freqQ (frequency b) in
  let baseRate := 1 + marketRate b / freqQ (frequency b) in
  let n := totalPeriods b in
  let '(weightedSum, pvTotal) :=
    durationLoop (Z.to_nat n) coupon baseRate 1 0 0 in
  let pvFace := faceMaj / pow baseRate (inject_Z n) in
  let weightedSum := weightedSum + pvFace * inject_Z n in
  let pvTotal := pvTotal + pvFace in
  if Qeq_bool pvTotal 0 then 0
  else weightedSum / pvTotal / freqQ (frequency b).

Definition getModifiedDuration (b : MajikBond) : Q :=
  getDuration b / (1 + marketRate b / freqQ (frequency b)).

(** [computeYTMCurve]; [points] and [smoothing] default to 10 and 0.8, the
    name to "YTM Curve". *)
Definition curveMaturity (b : MajikBond) (points : nat) (i : nat) : Q :=
  let minYears := 1 / freqQ (frequency b) in
  Qmax minYears
       (years (maturity b) / inject_Z (Z.of_nat points) * inject_Z (Z.of_nat i)).

Definition computeYTMCurve (b : MajikBond) (points : option nat)
           (smoothing : option Q) (name : option string) : YTMCurvePlot :=
  let points := match points with Some p => p | None => 10%nat end in
  let smoothing := match smoothing with Some s => s | None => 8 # 10 end in
  let maturities := map (curveMaturity b points) (seq 1 points) in
  let ytms :=
    map (fun maturityYears =>
           solveYTMFromPrice pow b (buy (price b)) maturityYears
                             defaultIterations defaultTolerance)
        maturities in
  mkCurve maturities ytms smoothing
          (match name with Some n => n | None => "YTM Curve"%string end).

End WithPow.

(** [getRequiredInvestmentForMonthlyIncome]. *)
Definition getRequiredInvestmentForMonthlyIncome (b : MajikBond)
           (targetMonthly : Q) : Q :=
  let faceMaj := Money.toMajorDecimal (faceValue b) in
  let annualIncomePerBondMaj := faceMaj * couponRate b in
  let monthlyIncomePerBondMaj := annualIncomePerBondMaj / 12 in
  if Qeq_bool monthlyIncomePerBondMaj 0 then 0
  else
    let bondsNeeded := targetMonthly / monthlyIncomePerBondMaj in
    faceMaj * buy (price b) * bondsNeeded.

End BondAnalytics.

(** *** BondTax: the remaining computations (tax.ts)

    The engine is constructed as [new BondTax(this, this.tax)]: its
    [settings] are the bond's own tax object, which the setters update in
    place, so they are read from the bond here. *)

Module BondTaxEngine.
Local Open Scope Q_scope.

Definition computeInterestFWT (settings : BondTaxSettings)
           (interestAmount : MajikMoney) : MajikMoney :=
  if negb (enabled settings) || negb (truthy (interestFWT settings))
  then Money.fromMinor 0 (currency interestAmount)
  else Money.multiply interestAmount (interestFWT settings).

Definition computeEstateOrDonor (b : MajikBond) : MajikMoney :=
  if negb (enabled (tax b)) || negb (truthy (estateOrDonor (tax b)))
  then Money.fromMinor 0 (currency (faceValue b))
  else Money.multiply (faceValue b) (estateOrDonor (tax b)).

(** [totalInterestTax]: [getCashflowSummary()] recomputes the table first. *)
Definition totalInterestTax (b : MajikBond) : MajikMoney :=
  fold_left
    (fun sum cf => Money.add sum (computeInterestFWT (tax b) (interest cf)))
    (BondCashflow.generate b)
    (Money.fromMinor 0 (currency (faceValue b))).

Definition totalTax (b : MajikBond) (includeEstate : bool) : MajikMoney :=
  let zero := Money.fromMinor 0 (currency (faceValue b)) in
  let interestTax := totalInterestTax b in
  let capitalGainsTax :=
    match sell (price b) with
    | Some s =>
        if truthy (capitalGains (tax b)) && truthy s
        then BondTax.computeCapitalGains (tax b)
               (Money.multiply (faceValue b) s)
               (Money.multiply (faceValue b) (buy (price b)))
        else zero
    | None => zero
    end in
  let estateTax :=
    if includeEstate && truthy (estateOrDonor (tax b))
    then computeEstateOrDonor b else zero in
  Money.add (Money.add interestTax capitalGainsTax) estateTax.

Definition netGainAfterTax (b : MajikBond) (sellPrice : MajikMoney) : MajikMoney :=
  let invested := Money.multiply (faceValue b) (buy (price b)) in
  let gain := Money.subtract sellPrice invested in
  let capitalGainsTax := BondTax.computeCapitalGains (tax b) sellPrice invested in
  let interestTax := totalInterestTax b in
  Money.subtract (Money.subtract gain capitalGainsTax) interestTax.

End BondTaxEngine.

(** *** MajikBond: the remaining setters (majik-bond.ts) *)

Module MajikBondMutators.
Import MajikBondMethods.
Local Open Scope Q_scope.

Definition withDayCount (c : DayCountConvention) (b : MajikBond) : MajikBond :=
  mkBond (faceValue b) (couponRate b) (maturity b) (price b) (frequency b)
         (marketRate b) c (cashflowSummary b) (tax b) (priceMode b).
Definition withFrequency (f : CouponFrequency) (b : MajikBond) : MajikBond :=
  mkBond (faceValue b) (couponRate b) (maturity b) (price b) f
         (marketRate b) (dayCount b) (cashflowSummary b) (tax b) (priceMode b).
Definition withPriceMode (m : PriceMode) (b : MajikBond) : MajikBond :=
  mkBond (faceValue b) (couponRate b) (maturity b) (price b) (frequency b)
         (marketRate b) (dayCount b) (cashflowSummary b) (tax b) m.

Definition setDayCount (convention : DayCountConvention) : Method :=
  assign (withDayCount convention) ;; recomputeDerivedData.

Definition setFrequency (freq : CouponFrequency) : Method :=
  assign (withFrequency freq) ;; recomputeDerivedData.

Definition setPriceMode (mode : PriceMode) : Method :=
  assign (withPriceMode mode) ;; recomputeDerivedData.

(** [toggleTax(bool?)]: [this.tax.enabled = bool ?? !this.tax.enabled]. *)
Definition toggleTax (flag : option bool) : Method :=
  assign (fun b =>
            withTax (mkTax (match flag with
                            | Some v => v
                            | None => negb (enabled (tax b))
                            end)
                           (interestFWT (tax b)) (capitalGains (tax b))
                           (estateOrDonor (tax b))) b)
  ;; recomputeDerivedData.

(** [ToIntegerOrInfinity] on a finite number: truncation towards zero. *)
Definition toInteger (x : Q) : Z := Z.quot (Qnum x) (Z.pos (Qden x)).

(** [d.setFullYear(y)]: [MakeDay] with the month and day of [d]; 29 February
    carries into 1 March when [y] is not a leap year. *)
Definition setFullYear (d : Date) (y : Z) : Date :=
  if day d <=? daysInMonth y (month d) then mkDate y (month d) (day d) (msOfDay d)
  else
    let '(y2, m2) := nextMonth y (month d) in
    mkDate y2 m2 (day d - daysInMonth y (month d)) (msOfDay d).

(** The argument of [setMaturity]: [number | DateRange]. *)
Inductive MaturityArg : Type :=
| YearsFromNow (n : Q)
| Range (s e : Date).

Definition msPerYear : Q := 1000 * 60 * 60 * 24 * (36525 # 100).

(** [setMaturity]; [now] is [new Date()].  No validation takes place.  (The
    closing [computeYTMCurve(this)] reads the bond and its result is
    dropped.) *)
Definition setMaturity (now : Date) (arg : MaturityArg) : Method :=
  assign (fun b =>
            match arg with
            | YearsFromNow n =>
                let endDate := setFullYear now (toInteger (inject_Z (year now) + n)) in
                withMaturity (mkMaturity now endDate n None) b
            | Range s e =>
                let years := inject_Z (getTime e - getTime s) / msPerYear in
                withMaturity (mkMaturity s e years None) b
            end)
  ;; recomputeDerivedData.

(** All chainable setters of the class but [setCurrencyCode] (whose currency
    table is not part of the sources). *)
Inductive AnySetter : Type :=
| Validated (s : Setter)
| SetDayCount (convention : DayCountConvention)
| SetFrequency (freq : CouponFrequency)
| SetPriceMode (mode : PriceMode)
| ToggleTax (flag : option bool)
| SetMaturity (now : Date) (arg : MaturityArg).

Definition callAny (s : AnySetter) : Method :=
  match s with
  | Validated s => call s
  | SetDayCount c => setDayCount c
  | SetFrequency f => setFrequency f
  | SetPriceMode m => setPriceMode m
  | ToggleTax flag => toggleTax flag
  | SetMaturity now arg => setMaturity now arg
  end.

(** The cached table is the one [BondCashflow.generate] gives for the bond
    as it stands. *)
Definition cacheFresh (b : MajikBond) : Prop :=
  cashflowSummary b = BondCashflow.generate b.

End MajikBondMutators.

(** *** Auxiliary notions used in the statements of Part III *)

(** Elapsed days from [s] to [e] (fractional, signed). *)
Definition elapsedDays (s e : Date) : Q :=
  (inject_Z (getTime e - getTime s) / inject_Z msPerDay)%Q.

(** 1 January 23:59:59.999 of the year after [d]'s: where [actualActual]
    cuts the interval ([endOf("year")] plus one day). *)
Definition yearBreak (d : Date) : Date := mkDate (year d + 1) 1 1 (msPerDay - 1).

(** A setter call whose date argument, if it has one, is a date of the
    calendar. *)
Definition validArgument (s : MajikBondMethods.Setter) : bool :=
  match s with
  | MajikBondMethods.SetIssueDate d | MajikBondMethods.SetMaturityDate d =>
      validDate d
  | _ => true
  end.

(* ================================================================== *)
(** * Part II.  Properties *)
(* ================================================================== *)

(** ** Calendar facts *)

Section CalendarFacts.

Lemma dayFromYear_succ (y : Z) :
  dayFromYear (y + 1) = dayFromYear y + daysInYear y.
Proof.
  unfold dayFromYear, daysInYear, isLeapYear.
  destruct (y mod 4 =? 0) eqn:E4; destruct (y mod 100 =? 0) eqn:E100;
    destruct (y mod 400 =? 0) eqn:E400; cbn [andb orb negb];
    rewrite ?Z.eqb_eq, ?Z.eqb_neq in *;
    Z.to_euclidean_division_equations; lia.
Qed.

Lemma daysInYear_bounds (y : Z) : 365 <= daysInYear y <= 366.
Proof. unfold daysInYear; destruct (isLeapYear y); lia. Qed.

Lemma dayFromYear_mono (y1 y2 : Z) :
  y1 <= y2 -> dayFromYear y1 <= dayFromYear y2.
Proof.
  intros H. replace y2 with (y1 + (y2 - y1)) by lia.
  assert (Hn : 0 <= y2 - y1) by lia. revert Hn.
  generalize (y2 - y1) as n. intros n Hn.
  pattern n. apply natlike_ind; [ | | exact Hn].
  - rewrite Z.add_0_r. lia.
  - intros x Hx IH. replace (y1 + Z.succ x) with ((y1 + x) + 1) by lia.
    rewrite dayFromYear_succ. pose proof (daysInYear_bounds (y1 + x)). lia.
Qed.

Lemma validDate_spec (d : Date) :
  validDate d = true <->
  1 <= month d <= 12 /\ 1 <= day d <= daysInMonth (year d) (month d) /\
  0 <= msOfDay d < msPerDay.
Proof.
  unfold validDate. rewrite !andb_true_iff, !Z.leb_le, Z.ltb_lt. lia.
Qed.

Lemma month_cases (m : Z) :
  1 <= m <= 12 ->
  m = 1 \/ m = 2 \/ m = 3 \/ m = 4 \/ m = 5 \/ m = 6 \/
  m = 7 \/ m = 8 \/ m = 9 \/ m = 10 \/ m = 11 \/ m = 12.
Proof. lia. Qed.

Lemma daysInMonth_bounds (y m : Z) :
  1 <= m <= 12 -> 28 <= daysInMonth y m <= 31.
Proof.
  intros H. destruct (month_cases m H) as [->|[->|[->|[->|[->|[->|[->|[->|[->|[->|[->| ->]]]]]]]]]]];
    unfold daysInMonth; try lia; destruct (isLeapYear y); lia.
Qed.

Lemma dayOfYear_bounds (y m d : Z) :
  1 <= m <= 12 -> 1 <= d <= daysInMonth y m ->
  0 <= daysBeforeMonth y m + (d - 1) < daysInYear y.
Proof.
  intros Hm. unfold daysBeforeMonth, daysInYear, daysInMonth.
  destruct (month_cases m Hm) as [->|[->|[->|[->|[->|[->|[->|[->|[->|[->|[->| ->]]]]]]]]]]];
    destruct (isLeapYear y); cbn -[Z.add Z.sub]; lia.
Qed.

Lemma daysBeforeMonth_step (y m m' : Z) :
  1 <= m <= 12 -> 1 <= m' <= 12 -> m < m' ->
  daysBeforeMonth y m + daysInMonth y m <= daysBeforeMonth y m'.
Proof.
  intros Hm Hm'. unfold daysBeforeMonth, daysInMonth.
  destruct (month_cases m Hm) as [->|[->|[->|[->|[->|[->|[->|[->|[->|[->|[->| ->]]]]]]]]]]];
    destruct (month_cases m' Hm') as [->|[->|[->|[->|[->|[->|[->|[->|[->|[->|[->| ->]]]]]]]]]]];
    intros Hlt; try lia; destruct (isLeapYear y); cbn -[Z.add Z.sub]; lia.
Qed.

(** The day number is strictly monotone in the (year, month) pair ... *)
Lemma dayNumber_month_lt (a b : Date) :
  validDate a = true -> validDate b = true ->
  monthIndex a < monthIndex b -> dayNumber a < dayNumber b.
Proof.
  rewrite !validDate_spec. unfold monthIndex, dayNumber.
  intros (Hma & Hda & _) (Hmb & Hdb & _) Hlt.
  pose proof (dayOfYear_bounds _ _ _ Hma Hda) as Ba.
  pose proof (dayOfYear_bounds _ _ _ Hmb Hdb) as Bb.
  destruct (Z.lt_trichotomy (year a) (year b)) as [Hy | [Hy | Hy]]; [ | | lia].
  - pose proof (dayFromYear_mono (year a + 1) (year b) ltac:(lia)) as Hmono.
    rewrite dayFromYear_succ in Hmono. lia.
  - rewrite Hy in *.
    pose proof (daysBeforeMonth_step (year b) (month a) (month b) Hma Hmb ltac:(lia)).
    lia.
Qed.

(** ... and, within a month, in the day. *)
Lemma dayNumber_same_month (a b : Date) :
  year a = year b -> month a = month b ->
  dayNumber a - dayNumber b = day a - day b.
Proof. unfold dayNumber. intros -> ->. lia. Qed.

Lemma getTime_dayNumber_lt (a b : Date) :
  validDate a = true -> validDate b = true ->
  dayNumber a < dayNumber b -> getTime a < getTime b.
Proof.
  rewrite !validDate_spec. unfold getTime, msPerDay. lia.
Qed.

Lemma getTime_month_lt (a b : Date) :
  validDate a = true -> validDate b = true ->
  monthIndex a < monthIndex b -> getTime a < getTime b.
Proof.
  intros Ha Hb H. apply getTime_dayNumber_lt; auto using dayNumber_month_lt.
Qed.

(** Read backwards: an earlier instant never lies in a later month. *)
Lemma getTime_lt_monthIndex (a b : Date) :
  validDate a = true -> validDate b = true ->
  getTime a < getTime b -> monthIndex a <= monthIndex b.
Proof.
  intros Ha Hb H.
  destruct (Z_le_gt_dec (monthIndex a) (monthIndex b)) as [|Hgt]; [assumption|].
  pose proof (getTime_month_lt b a Hb Ha ltac:(lia)). lia.
Qed.

Lemma getTime_lt_same_month (a b : Date) :
  validDate a = true -> validDate b = true ->
  year a = year b -> month a = month b ->
  getTime a < getTime b -> day a <= day b.
Proof.
  intros Ha Hb Hy Hm H.
  destruct (Z_le_gt_dec (day a) (day b)) as [|Hgt]; [assumption|].
  pose proof (dayNumber_same_month b a (eq_sym Hy) (eq_sym Hm)).
  pose proof (getTime_dayNumber_lt b a Hb Ha ltac:(lia)). lia.
Qed.

End CalendarFacts.

(** ** Day-count fractions *)

Section DayCountFacts.
Import DayCountCalculator.

Local Open Scope Q_scope.

Lemma Qdiv_nonneg (a b : Q) : 0 <= a -> 0 < b -> 0 <= a / b.
Proof.
  intros Ha Hb. apply Qle_shift_div_l; [assumption|]. now rewrite Qmult_0_l.
Qed.

Lemma inject_Z_nonneg (z : Z) : (0 <= z)%Z -> 0 <= inject_Z z.
Proof. intros H. change 0 with (inject_Z 0). now rewrite <- Zle_Qle. Qed.

Lemma inject_Z_pos (z : Z) : (0 < z)%Z -> 0 < inject_Z z.
Proof. intros H. change 0 with (inject_Z 0). now rewrite <- Zlt_Qlt. Qed.

Lemma actual_nonneg (s e : Date) : 0 <= actual s e.
Proof. apply Qabs_nonneg. Qed.

Lemma actualActualLoop_nonneg (fuel : nat) :
  forall current e sum, 0 <= sum -> 0 <= actualActualLoop fuel current e sum.
Proof.
  induction fuel as [|k IH]; intros current e sum Hsum; cbn [actualActualLoop];
    [assumption|].
  destruct (getTime current <? getTime e)%Z; [|assumption].
  apply IH.
  rewrite <- (Qplus_0_r 0). apply Qplus_le_compat; [assumption|].
  apply Qdiv_nonneg; [apply Qabs_nonneg|].
  apply inject_Z_pos. pose proof (daysInYear_bounds (year current)). lia.
Qed.

Lemma thirtyUS360_nonneg (s e : Date) :
  validDate s = true -> validDate e = true ->
  (getTime s < getTime e)%Z -> 0 <= thirtyUS360 s e.
Proof.
  intros Hs He Hlt. unfold thirtyUS360.
  apply Qdiv_nonneg; [|reflexivity]. apply inject_Z_nonneg.
  pose proof (getTime_lt_monthIndex s e Hs He Hlt) as Hidx.
  pose proof (getTime_lt_same_month s e Hs He) as Hday.
  apply validDate_spec in Hs, He.
  pose proof (daysInMonth_bounds (year s) (month s) ltac:(lia)).
  pose proof (daysInMonth_bounds (year e) (month e) ltac:(lia)).
  unfold monthIndex in Hidx.
  destruct (day s =? 31)%Z eqn:E1; destruct (day e =? 31)%Z eqn:E2;
    cbn [andb]; try destruct (30 <=? day s)%Z eqn:E3;
    rewrite ?Z.eqb_eq, ?Z.eqb_neq, ?Z.leb_le, ?Z.leb_gt in *;
    cbn [Z.leb Z.compare Pos.compare Pos.compare_cont];
    try lia.
Qed.

Lemma thirtyE360_nonneg (s e : Date) :
  validDate s = true -> validDate e = true ->
  (getTime s < getTime e)%Z -> 0 <= thirtyE360 s e.
Proof.
  intros Hs He Hlt. unfold thirtyE360.
  apply Qdiv_nonneg; [|reflexivity]. apply inject_Z_nonneg.
  pose proof (getTime_lt_monthIndex s e Hs He Hlt) as Hidx.
  pose proof (getTime_lt_same_month s e Hs He) as Hday.
  apply validDate_spec in Hs, He.
  pose proof (daysInMonth_bounds (year s) (month s) ltac:(lia)).
  pose proof (daysInMonth_bounds (year e) (month e) ltac:(lia)).
  unfold monthIndex in Hidx.
  destruct (day s =? 31)%Z eqn:E1; destruct (day e =? 31)%Z eqn:E2;
    rewrite ?Z.eqb_eq, ?Z.eqb_neq in *; lia.
Qed.

(** The [while (current < end)] loop of [actualActual] leaves through its
    own test: any fuel above [actualActualFuel] yields the same sum. *)
Lemma validDate_endOfYear (d : Date) : validDate (endOfYear d) = true.
Proof. reflexivity. Qed.

Lemma endOfYear_lt_year (c e : Date) :
  validDate e = true ->
  (getTime (endOfYear c) < getTime e)%Z -> (year c < year e)%Z.
Proof.
  intros He Hlt.
  pose proof (getTime_lt_monthIndex _ _ (validDate_endOfYear c) He Hlt) as Hidx.
  pose proof (getTime_lt_same_month _ _ (validDate_endOfYear c) He) as Hday.
  apply validDate_spec in He. unfold monthIndex in Hidx.
  cbn [endOfYear year month day] in Hidx, Hday.
  destruct (Z_lt_ge_dec (year c) (year e)) as [|Hge]; [assumption|exfalso].
  assert (Hy : year c = year e) by lia.
  assert (Hm : month e = 12%Z) by lia.
  specialize (Hday Hy (eq_sym Hm) Hlt).
  assert (Hd : day e = 31%Z).
  { destruct He as (_ & Hd & _). rewrite Hm in Hd. unfold daysInMonth in Hd. lia. }
  unfold getTime, dayNumber, endOfYear in Hlt.
  cbn [year month day msOfDay] in Hlt.
  rewrite Hy, Hm, Hd in Hlt. unfold msPerDay in *. lia.
Qed.

Lemma actualActualLoop_done (fuel : nat) (e : Date) (sum : Q) :
  actualActualLoop fuel e e sum = sum.
Proof.
  destruct fuel; cbn [actualActualLoop]; [reflexivity|].
  now rewrite Z.ltb_irrefl.
Qed.

Lemma actualActualLoop_fuel (e : Date) (He : validDate e = true) :
  forall fuel1 fuel2 current sum,
    (actualActualFuel current e <= fuel1)%nat ->
    (actualActualFuel current e <= fuel2)%nat ->
    actualActualLoop fuel1 current e sum = actualActualLoop fuel2 current e sum.
Proof.
  unfold actualActualFuel.
  induction fuel1 as [|k1 IH]; intros fuel2 current sum H1 H2; [lia|].
  destruct fuel2 as [|k2]; [lia|]. cbn [actualActualLoop].
  destruct (getTime current <? getTime e)%Z; [|reflexivity].
  destruct (getTime (endOfYear current) <? getTime e)%Z eqn:Ey.
  - apply Z.ltb_lt in Ey. pose proof (endOfYear_lt_year current e He Ey).
    apply IH; cbn; lia.
  - now rewrite !actualActualLoop_done.
Qed.

Corollary actualActual_fuel_irrelevant (s e : Date) (extra : nat) :
  validDate e = true ->
  actualActualLoop (actualActualFuel s e + extra) s e 0 = actualActual s e.
Proof. intros He. apply actualActualLoop_fuel; [assumption| lia | lia]. Qed.

(** C7.  For every pair of (valid) dates and every day-count convention the
    year fraction is non-negative, and it is exactly zero whenever the end
    date is not after the start date. *)
Theorem yearFraction_nonneg_zero (s e : Date) (c : DayCountConvention) :
  validDate s = true -> validDate e = true ->
  0 <= yearFraction s e c /\
  ((getTime e <= getTime s)%Z -> yearFraction s e c = 0).
Proof.
  intros Hs He. unfold yearFraction.
  destruct (getTime e <=? getTime s)%Z eqn:Hle.
  - split; [apply Qle_refl | reflexivity].
  - apply Z.leb_gt in Hle. split; [|lia].
    destruct c.
    + now apply thirtyUS360_nonneg.
    + now apply thirtyUS360_nonneg.
    + now apply thirtyE360_nonneg.
    + apply actualActualLoop_nonneg, Qle_refl.
    + apply Qdiv_nonneg; [apply actual_nonneg | reflexivity].
    + apply Qdiv_nonneg; [apply actual_nonneg | reflexivity].
Qed.

Lemma yearFraction_nonneg_zero_witness :
  (0 <= yearFraction (ymd 2025 1 31) (ymd 2025 7 31) THIRTY_360 /\
   ((getTime (ymd 2025 7 31) <= getTime (ymd 2025 1 31))%Z ->
    yearFraction (ymd 2025 1 31) (ymd 2025 7 31) THIRTY_360 = 0)) /\
  yearFraction (ymd 2025 7 31) (ymd 2025 1 31) ACTUAL_ACTUAL = 0.
Proof.
  split.
  - apply (yearFraction_nonneg_zero (ymd 2025 1 31) (ymd 2025 7 31) THIRTY_360);
      reflexivity.
  - apply (yearFraction_nonneg_zero (ymd 2025 7 31) (ymd 2025 1 31) ACTUAL_ACTUAL);
      [reflexivity | reflexivity | vm_compute; discriminate].
Defined.

End DayCountFacts.

(** ** The coupon schedule *)

Section ScheduleFacts.
Import Schedule.

Lemma prevMonth_nextMonth (y m : Z) :
  1 <= m <= 12 -> (let '(y2, m2) := nextMonth y m in prevMonth y2 m2) = (y, m).
Proof.
  intros Hm. unfold nextMonth, prevMonth.
  destruct (m =? 12) eqn:E; [apply Z.eqb_eq in E; subst; cbn; f_equal; lia|].
  apply Z.eqb_neq in E.
  destruct (m + 1 =? 1) eqn:E'; [apply Z.eqb_eq in E'; lia|].
  f_equal; lia.
Qed.

(** What [advance] produces: the target month, with the day clamped to the
    length of that month. *)
Lemma advance_spec (mpp : Z) (c : Date) :
  validDate c = true ->
  let mi := getMonth c + mpp in
  let y' := year c + mi / 12 in
  let m' := mi mod 12 + 1 in
  advance mpp c = mkDate y' m' (Z.min (day c) (daysInMonth y' m')) (msOfDay c).
Proof.
  intros Hc mi y' m'. apply validDate_spec in Hc.
  assert (Hm' : 1 <= m' <= 12).
  { subst m'. pose proof (Z.mod_pos_bound mi 12 ltac:(lia)). lia. }
  pose proof (daysInMonth_bounds y' m' Hm') as Hdim.
  unfold advance, setMonth. fold mi. fold y'. fold m'.
  destruct (day c <=? daysInMonth y' m') eqn:E.
  - apply Z.leb_le in E. unfold getDate. cbn [day].
    rewrite Z.eqb_refl. cbn [negb]. f_equal. lia.
  - apply Z.leb_gt in E.
    pose proof (prevMonth_nextMonth y' m' Hm') as Hpn.
    destruct (nextMonth y' m') as [y2 m2]. unfold getDate. cbn [day].
    destruct (day c - daysInMonth y' m' =? day c) eqn:E2;
      [apply Z.eqb_eq in E2; lia|].
    cbn [negb]. unfold setDate0. cbn [year month msOfDay].
    rewrite Hpn. f_equal. lia.
Qed.

Lemma validDate_advance (mpp : Z) (c : Date) :
  validDate c = true -> validDate (advance mpp c) = true.
Proof.
  intros Hc. rewrite (advance_spec mpp c Hc).
  apply validDate_spec in Hc. apply validDate_spec. cbn [year month day msOfDay].
  set (mi := getMonth c + mpp).
  pose proof (Z.mod_pos_bound mi 12 ltac:(lia)).
  pose proof (daysInMonth_bounds (year c + mi / 12) (mi mod 12 + 1) ltac:(lia)).
  lia.
Qed.

Lemma monthIndex_advance (mpp : Z) (c : Date) :
  validDate c = true -> monthIndex (advance mpp c) = monthIndex c + mpp.
Proof.
  intros Hc. rewrite (advance_spec mpp c Hc). unfold monthIndex, getMonth.
  cbn [year month].
  pose proof (Z.div_mod (month c - 1 + mpp) 12 ltac:(lia)). lia.
Qed.

Lemma advance_later (mpp : Z) (c : Date) :
  validDate c = true -> 1 <= mpp -> getTime c < getTime (advance mpp c).
Proof.
  intros Hc Hmpp. apply getTime_month_lt; auto using validDate_advance.
  rewrite monthIndex_advance by assumption. lia.
Qed.

Lemma monthsPerPeriod_pos (f : CouponFrequency) : 1 <= monthsPerPeriod f.
Proof. destruct f; vm_compute; discriminate. Qed.

Lemma scheduleLoop_exit (fuel : nat) (mpp : Z) (current e : Date) :
  getTime e <= getTime current -> scheduleLoop fuel mpp current e = [].
Proof.
  intros H. destruct fuel; cbn [scheduleLoop]; [reflexivity|].
  destruct (getTime current <? getTime e) eqn:E; [apply Z.ltb_lt in E; lia|].
  reflexivity.
Qed.

(** The loop invariant, by induction on the fuel. *)
Lemma scheduleLoop_props (mpp : Z) (e : Date) :
  1 <= mpp -> validDate e = true ->
  forall fuel current,
    validDate current = true ->
    (Z.to_nat (monthIndex e - monthIndex current + 1) + 1 <= fuel)%nat ->
    let l := scheduleLoop fuel mpp current e in
    Forall (fun d => getTime current < getTime d <= getTime e) l /\
    StronglySorted before l /\
    (getTime current < getTime e ->
     exists init x, l = init ++ [x] /\ getTime x = getTime e) /\
    (forall k, (k < List.length l)%nat ->
               getTime (Nat.iter k (advance mpp) current) < getTime e) /\
    getTime e <= getTime (Nat.iter (List.length l) (advance mpp) current) /\
    (forall k, (S k < List.length l)%nat ->
               nth_error l k = Some (Nat.iter (S k) (advance mpp) current)).
Proof.
  intros Hmpp He. induction fuel as [|k IH]; intros current Hc Hfuel; [lia|].
  cbn [scheduleLoop]. destruct (getTime current <? getTime e) eqn:E.
  - apply Z.ltb_lt in E.
    set (next := advance mpp current).
    assert (Hn : validDate next = true) by now apply validDate_advance.
    assert (Hlater : getTime current < getTime next) by now apply advance_later.
    assert (Hidx : monthIndex next = monthIndex current + mpp)
      by now apply monthIndex_advance.
    pose proof (getTime_lt_monthIndex _ _ Hc He E) as Hce.
    specialize (IH next Hn ltac:(lia)).
    destruct IH as (Hall & Hsorted & Hlast & Hbefore & Hreach & Hnth).
    set (tail := scheduleLoop k mpp next e) in *.
    set (h := if getTime e <? getTime next then e else next).
    assert (Hh : getTime current < getTime h <= getTime next /\ getTime h <= getTime e).
    { subst h. destruct (getTime e <? getTime next) eqn:E2;
        [apply Z.ltb_lt in E2 | apply Z.ltb_ge in E2]; lia. }
    assert (Htail : getTime e <= getTime next -> tail = [])
      by (intros; now apply scheduleLoop_exit).
    cbv zeta. repeat split.
    + constructor; [lia|]. eapply Forall_impl; [|exact Hall].
      cbv beta. intros d Hd. lia.
    + constructor; [assumption|]. eapply Forall_impl; [|exact Hall].
      unfold before. cbv beta. intros d Hd. lia.
    + intros _. destruct (Z_lt_ge_dec (getTime next) (getTime e)) as [Hlt|Hge].
      * destruct (Hlast Hlt) as (init & x & Heq & Hx).
        exists (h :: init), x. rewrite Heq. split; [reflexivity|assumption].
      * exists [], h. rewrite (Htail ltac:(lia)). split; [reflexivity|].
        subst h. destruct (getTime e <? getTime next) eqn:E2;
          [reflexivity | apply Z.ltb_ge in E2; lia].
    + intros [|j] Hj; [exact E|]. cbn [List.length] in Hj.
      rewrite Nat.iter_succ_r. apply Hbefore. lia.
    + cbn [List.length]. rewrite Nat.iter_succ_r. exact Hreach.
    + intros [|j] Hj; cbn [List.length] in Hj; cbn [nth_error].
      * destruct (Z_lt_ge_dec (getTime next) (getTime e)) as [Hlt|Hge].
        -- subst h. destruct (getTime e <? getTime next) eqn:E2;
             [apply Z.ltb_lt in E2; lia | reflexivity].
        -- rewrite (Htail ltac:(lia)) in Hj. cbn in Hj. lia.
      * rewrite Nat.iter_succ_r. apply Hnth. lia.
  - apply Z.ltb_ge in E. cbv zeta. repeat split.
    + constructor.
    + constructor.
    + intros; lia.
    + intros k0 Hk0. cbn in Hk0. lia.
    + cbn. lia.
    + intros k0 Hk0. cbn in Hk0. lia.
Qed.

(** More fuel changes nothing: the loop stops on its own test. *)
Lemma scheduleLoop_fuel (mpp : Z) (e : Date) :
  1 <= mpp -> validDate e = true ->
  forall fuel1 fuel2 current,
    validDate current = true ->
    (Z.to_nat (monthIndex e - monthIndex current + 1) + 1 <= fuel1)%nat ->
    (Z.to_nat (monthIndex e - monthIndex current + 1) + 1 <= fuel2)%nat ->
    scheduleLoop fuel1 mpp current e = scheduleLoop fuel2 mpp current e.
Proof.
  intros Hmpp He. induction fuel1 as [|k1 IH]; intros fuel2 current Hc H1 H2; [lia|].
  destruct fuel2 as [|k2]; [lia|]. cbn [scheduleLoop].
  destruct (getTime current <? getTime e) eqn:E; [|reflexivity].
  apply Z.ltb_lt in E. f_equal.
  pose proof (getTime_lt_monthIndex _ _ Hc He E).
  pose proof (monthIndex_advance mpp current Hc).
  apply IH; [now apply validDate_advance | lia | lia].
Qed.

Corollary couponDates_fuel_irrelevant (s e : Date) (f : CouponFrequency) (extra : nat) :
  validDate s = true -> validDate e = true ->
  scheduleLoop (scheduleFuel s e + extra) (monthsPerPeriod f) s e = couponDates s e f.
Proof.
  intros Hs He. unfold couponDates.
  apply scheduleLoop_fuel; auto using monthsPerPeriod_pos; unfold scheduleFuel; lia.
Qed.

(** C2 (as amended).  For a bond whose maturity end lies strictly after
    its start, the coupon schedule is a finite list of dates, strictly
    increasing, all after the start and none after the end; its last
    element is the maturity end; every earlier element is the date
    reached from the start by that many passes of the month-advance; and
    its length is the number of passes needed to reach or overshoot the
    end (the least [n] with [end <= currentAfter n]): a final stub period
    counts as one coupon, whatever [round(years * frequency)] says. *)
Theorem generateCouponSchedule_shape (b : MajikBond) :
  validDate (start (maturity b)) = true ->
  validDate (end_ (maturity b)) = true ->
  getTime (start (maturity b)) < getTime (end_ (maturity b)) ->
  let s := generateCouponSchedule b in
  let f := frequency b in
  let n := List.length s in
  StronglySorted before s /\
  Forall (fun d => getTime (start (maturity b)) < getTime d
                   <= getTime (end_ (maturity b))) s /\
  (exists init x, s = init ++ [x] /\ getTime x = getTime (end_ (maturity b))) /\
  (forall k, (S k < n)%nat ->
             nth_error s k = Some (currentAfter f (S k) (start (maturity b)))) /\
  (forall k, (k < n)%nat ->
             getTime (currentAfter f k (start (maturity b)))
             < getTime (end_ (maturity b))) /\
  getTime (end_ (maturity b)) <= getTime (currentAfter f n (start (maturity b))).
Proof.
  intros Hs He Hlt.
  pose proof (scheduleLoop_props (monthsPerPeriod (frequency b)) (end_ (maturity b))
                (monthsPerPeriod_pos _) He
                (scheduleFuel (start (maturity b)) (end_ (maturity b)))
                (start (maturity b)) Hs (Nat.le_refl _)) as H.
  cbv zeta in H. destruct H as (Hall & Hsorted & Hlast & Hbefore & Hreach & Hnth).
  cbv zeta. unfold generateCouponSchedule, couponDates, currentAfter.
  repeat split; auto.
Qed.

Lemma generateCouponSchedule_shape_witness :
  let b := Examples.stubBond in
  let s := generateCouponSchedule b in
  StronglySorted before s /\
  Forall (fun d => getTime (start (maturity b)) < getTime d
                   <= getTime (end_ (maturity b))) s /\
  (exists init x, s = init ++ [x] /\ getTime x = getTime (end_ (maturity b))) /\
  (forall k, (S k < List.length s)%nat ->
             nth_error s k = Some (currentAfter (frequency b) (S k) (start (maturity b)))) /\
  (forall k, (k < List.length s)%nat ->
             getTime (currentAfter (frequency b) k (start (maturity b)))
             < getTime (end_ (maturity b))) /\
  getTime (end_ (maturity b))
  <= getTime (currentAfter (frequency b) (List.length s) (start (maturity b))).
Proof.
  apply (generateCouponSchedule_shape Examples.stubBond);
    [reflexivity | reflexivity | reflexivity].
Defined.

(** The stub bond has two coupon dates, but [totalPeriods] rounds
    [243/365 * 2] down to one. *)
Example stubBond_schedule :
  generateCouponSchedule Examples.stubBond = [ymd 2025 7 1; ymd 2025 9 1]
  /\ totalPeriods Examples.stubBond = 1.
Proof. split; reflexivity. Qed.

(** C2 (as stated) fails: the length of the schedule is not
    [round(years * frequency)] for a bond with a stub period. *)
Lemma scheduleClaim_fails : ~ AsStated.scheduleClaim.
Proof.
  intros H. specialize (H Examples.stubBond eq_refl).
  cbv zeta in H. destruct H as (_ & _ & Hlen).
  vm_compute in Hlen. discriminate Hlen.
Qed.

End ScheduleFacts.

(** ** Accrued interest *)

Section AccrualFacts.
Import DayCountCalculator BondAccrual.

Lemma findLastCoupon_all_later (v : Date) (l : list Date) (init : Date) :
  Forall (fun d => getTime v < getTime d) l -> findLastCoupon v l init = init.
Proof.
  destruct l as [|a l]; intros H; cbn [findLastCoupon]; [reflexivity|].
  inversion H as [|? ? Ha _]; subst.
  apply Z.ltb_lt in Ha. now rewrite Ha.
Qed.

(** On a coupon date the scan stops at that very date. *)
Lemma findLastCoupon_on_coupon (v : Date) (l : list Date) :
  StronglySorted Schedule.before l ->
  forall init c, In c l -> getTime v = getTime c ->
                 getTime (findLastCoupon v l init) = getTime v.
Proof.
  induction 1 as [|a l Hsorted IH Hall]; intros init c Hin Hv; [destruct Hin|].
  cbn [findLastCoupon].
  assert (Hac : getTime a <= getTime c).
  { destruct Hin as [->|Hin]; [lia|].
    rewrite Forall_forall in Hall. specialize (Hall c Hin).
    unfold Schedule.before in Hall. lia. }
  destruct (getTime v <? getTime a) eqn:E; [apply Z.ltb_lt in E; lia|].
  destruct Hin as [->|Hin].
  - rewrite findLastCoupon_all_later; [lia|].
    eapply Forall_impl; [|exact Hall]. unfold Schedule.before. cbv beta.
    intros d Hd. lia.
  - now apply (IH a c).
Qed.

(** Strictly between two consecutive coupons the scan returns the earlier
    one. *)
Lemma findLastCoupon_between (v : Date) (l : list Date) :
  StronglySorted Schedule.before l ->
  forall init k c1 c2,
    nth_error l k = Some c1 -> nth_error l (S k) = Some c2 ->
    getTime c1 < getTime v < getTime c2 ->
    findLastCoupon v l init = c1.
Proof.
  induction 1 as [|a l Hsorted IH Hall]; intros init k c1 c2 H1 H2 Hv;
    [destruct k; discriminate|].
  cbn [findLastCoupon]. destruct k as [|k].
  - cbn in H1, H2. injection H1 as ->.
    destruct (getTime v <? getTime c1) eqn:E; [apply Z.ltb_lt in E; lia|].
    destruct l as [|a' l']; [discriminate|]. cbn in H2. injection H2 as ->.
    cbn [findLastCoupon].
    destruct (getTime v <? getTime c2) eqn:E2; [reflexivity|].
    apply Z.ltb_ge in E2. lia.
  - cbn [nth_error] in H1, H2.
    assert (Ha : getTime a < getTime c1).
    { rewrite Forall_forall in Hall. apply (Hall c1).
      eapply nth_error_In; eassumption. }
    destruct (getTime v <? getTime a) eqn:E; [apply Z.ltb_lt in E; lia|].
    exact (IH a k c1 c2 H1 H2 Hv).
Qed.

Lemma roundHalfEven_floor (x : Q) :
  (Qfloor x <= roundHalfEven x <= Qfloor x + 1)%Z.
Proof.
  unfold roundHalfEven.
  destruct (Qltb _ _); [lia|]. destruct (Qltb _ _); [lia|].
  destruct (Z.even _); lia.
Qed.

Lemma roundHalfEven_ge_1 (x : Q) : (1 <= x)%Q -> (1 <= roundHalfEven x)%Z.
Proof.
  intros Hx. pose proof (roundHalfEven_floor x) as [H _].
  assert (1 <= Qfloor x)%Z; [|lia].
  change 1%Z with (Qfloor 1). now apply Qfloor_resp_le.
Qed.

Lemma scale_pos (c : Currency) : (0 < Money.scale c)%Q.
Proof.
  unfold Money.scale. apply inject_Z_pos. apply Z.pow_pos_nonneg; lia.
Qed.

Lemma toMajorDecimal_pos (m : MajikMoney) :
  (0 < minorUnits m)%Q -> (0 < Money.toMajorDecimal m)%Q.
Proof.
  intros H. unfold Money.toMajorDecimal.
  apply Qlt_shift_div_l; [apply scale_pos|]. now rewrite Qmult_0_l.
Qed.

Lemma fromMajor_Z_sign (z : Z) (c : Currency) :
  ((0 <= z)%Z -> (0 <= minorUnits (Money.fromMajor (inject_Z z) c))%Q) /\
  ((1 <= z)%Z -> (0 < minorUnits (Money.fromMajor (inject_Z z) c))%Q).
Proof.
  unfold Money.fromMajor. cbn [minorUnits]. pose proof (scale_pos c) as Hs.
  split; intros Hz.
  - apply Qmult_le_0_compat; [now apply inject_Z_nonneg | now apply Qlt_le_weak].
  - apply Qmult_lt_0_compat; [apply inject_Z_pos; lia | assumption].
Qed.

Lemma schedule_sorted (b : MajikBond) :
  validDate (start (maturity b)) = true ->
  validDate (end_ (maturity b)) = true ->
  StronglySorted Schedule.before (generateCouponSchedule b).
Proof.
  intros Hs He.
  pose proof (scheduleLoop_props (Schedule.monthsPerPeriod (frequency b))
                (end_ (maturity b)) (monthsPerPeriod_pos _) He
                (Schedule.scheduleFuel (start (maturity b)) (end_ (maturity b)))
                (start (maturity b)) Hs (Nat.le_refl _)) as H.
  cbv zeta in H. tauto.
Qed.

Lemma sorted_head_le (l : list Date) (first : Date) (k : nat) (c : Date) :
  StronglySorted Schedule.before (first :: l) ->
  nth_error (first :: l) k = Some c -> getTime first <= getTime c.
Proof.
  intros Hs Hk. destruct k as [|k]; cbn in Hk; [injection Hk as ->; lia|].
  inversion Hs as [|? ? _ Hall]; subst. rewrite Forall_forall in Hall.
  specialize (Hall c (nth_error_In _ _ Hk)). unfold Schedule.before in Hall. lia.
Qed.

(** C3 (as amended).  The accrued interest is zero when there is no
    coupon, when the valuation date is at or before the first coupon date,
    and on every coupon date.  Strictly between two consecutive coupon
    dates, with tax disabled and a positive face value and coupon rate, it
    is never negative, and it is strictly positive as soon as the unrounded
    amount [faceValue * couponRate * yearFraction(lastCoupon, asOfDate)]
    reaches one major unit; below that the rounding, or a day-count
    fraction of zero, can leave it at zero. *)
Theorem accruedInterest_zero_or_positive (b : MajikBond) (asOfDate : Date) :
  validDate (start (maturity b)) = true ->
  validDate (end_ (maturity b)) = true ->
  let s := generateCouponSchedule b in
  let zero := Money.fromMinor 0 (currency (faceValue b)) in
  (s = [] -> accruedInterest b asOfDate = zero) /\
  (forall first, hd_error s = Some first ->
                 getTime asOfDate <= getTime first ->
                 accruedInterest b asOfDate = zero) /\
  (forall c, In c s -> getTime asOfDate = getTime c ->
             accruedInterest b asOfDate = zero) /\
  (forall k c1 c2,
      nth_error s k = Some c1 -> nth_error s (S k) = Some c2 ->
      getTime c1 < getTime asOfDate < getTime c2 ->
      enabled (tax b) = false ->
      (0 < couponRate b)%Q -> (0 < minorUnits (faceValue b))%Q ->
      (0 <= minorUnits (accruedInterest b asOfDate))%Q /\
      ((1 <= Money.toMajorDecimal (faceValue b) * couponRate b
             * yearFraction c1 asOfDate (dayCount b))%Q ->
       (0 < minorUnits (accruedInterest b asOfDate))%Q)).
Proof.
  intros Hs He s zero.
  pose proof (schedule_sorted b Hs He) as Hsorted. fold s in Hsorted.
  unfold accruedInterest. fold s. fold zero.
  repeat apply conj.
  - intros ->. reflexivity.
  - intros first Hhd Hle. destruct s as [|a l]; [reflexivity|].
    cbn in Hhd. injection Hhd as ->.
    apply Z.leb_le in Hle. now rewrite Hle.
  - intros c Hin Hv. destruct s as [|a l] eqn:Es; [reflexivity|].
    destruct (getTime asOfDate <=? getTime a); [reflexivity|].
    pose proof (findLastCoupon_on_coupon asOfDate (a :: l) Hsorted
                  (start (maturity b)) c Hin Hv) as Hlast.
    unfold yearFraction.
    replace (getTime asOfDate <=? getTime (findLastCoupon asOfDate (a :: l) (start (maturity b))))
      with true by (symmetry; apply Z.leb_le; lia).
    reflexivity.
  - intros k c1 c2 H1 H2 Hv Htax Hrate Hface.
    destruct s as [|a l] eqn:Es; [destruct k; discriminate|].
    pose proof (sorted_head_le l a k c1 Hsorted H1) as Hfirst.
    destruct (getTime asOfDate <=? getTime a) eqn:E; [apply Z.leb_le in E; lia|].
    rewrite (findLastCoupon_between asOfDate (a :: l) Hsorted
               (start (maturity b)) k c1 c2 H1 H2 Hv).
    set (fraction := yearFraction c1 asOfDate (dayCount b)).
    pose proof (toMajorDecimal_pos _ Hface) as HF.
    assert (HFr : (0 < Money.toMajorDecimal (faceValue b) * couponRate b)%Q)
      by now apply Qmult_lt_0_compat.
    unfold accruedMajor. rewrite Htax. cbn [andb].
    set (gross := (Money.toMajorDecimal (faceValue b) * couponRate b * fraction)%Q).
    destruct (Qle_bool fraction 0) eqn:Ef.
    + apply Qle_bool_iff in Ef. split; [apply Qle_refl|]. intros Hge. exfalso.
      assert (gross <= 0)%Q.
      { subst gross. rewrite <- (Qmult_0_r (Money.toMajorDecimal (faceValue b) * couponRate b)).
        apply Qmult_le_l; assumption. }
      apply (Qlt_irrefl 0). apply Qlt_le_trans with (y := 1%Q); [reflexivity|].
      now apply Qle_trans with (y := gross).
    + assert (Hpos : (0 < fraction)%Q).
      { apply Qnot_le_lt. intros Hc. apply Qle_bool_iff in Hc. congruence. }
      assert (Hg : (0 < gross)%Q) by now apply Qmult_lt_0_compat.
      pose proof (roundHalfEven_floor gross) as [Hfl _].
      assert (0 <= Qfloor gross)%Z.
      { change 0%Z with (Qfloor 0). apply Qfloor_resp_le. now apply Qlt_le_weak. }
      split.
      * apply fromMajor_Z_sign. lia.
      * intros Hge. apply fromMajor_Z_sign. now apply roundHalfEven_ge_1.
Qed.

Lemma accruedInterest_zero_or_positive_witness :
  let b := Examples.regularBond in
  let asOfDate := ymd 2025 10 15 in
  (0 <= minorUnits (accruedInterest b asOfDate))%Q /\
  ((1 <= Money.toMajorDecimal (faceValue b) * couponRate b
         * yearFraction (ymd 2025 7 15) asOfDate (dayCount b))%Q ->
   (0 < minorUnits (accruedInterest b asOfDate))%Q).
Proof.
  refine (proj2 (proj2 (proj2
    (accruedInterest_zero_or_positive Examples.regularBond (ymd 2025 10 15)
       eq_refl eq_refl))) 0%nat (ymd 2025 7 15) (ymd 2026 1 15) eq_refl eq_refl _ eq_refl _ _);
    vm_compute; intuition congruence.
Defined.

(** On the 31st, the day after a coupon paid on the 30th, the 30/360
    fraction is zero and nothing has accrued. *)
Example monthEndBond_accrual :
  generateCouponSchedule Examples.monthEndBond
  = [ymd 2026 1 30; ymd 2026 7 30; ymd 2027 1 30; ymd 2027 7 30] /\
  accruedInterest Examples.monthEndBond (ymd 2026 1 31)
  = Money.fromMinor 0 Money.PHP.
Proof. split; reflexivity. Qed.

(** Under ACTUAL/365 half a day after a coupon, 250 * 0.5 / 365 rounds to
    zero. *)
Example defaultBond_accrual :
  accruedInterest Examples.defaultBond (mkDate 2025 7 1 43200000)
  = Money.fromMajor 0 Money.PHP.
Proof. reflexivity. Qed.

(** C3 (as stated) fails: strictly between two coupons the accrued
    interest can be zero. *)
Lemma accrualClaim_fails : ~ AsStated.accrualClaim.
Proof.
  intros H.
  destruct (H Examples.monthEndBond (ymd 2026 1 31) eq_refl eq_refl) as (_ & _ & Hpos).
  specialize (Hpos 0%nat (ymd 2026 1 30) (ymd 2026 7 30) eq_refl eq_refl).
  assert (Hlt : (0 < minorUnits (accruedInterest Examples.monthEndBond (ymd 2026 1 31)))%Q).
  { apply Hpos; vm_compute; intuition congruence. }
  vm_compute in Hlt. discriminate Hlt.
Qed.

End AccrualFacts.

(** ** Current yield *)

Section YieldFacts.
Import MajikBondMethods.
Local Open Scope Q_scope.



End YieldFacts.

(** ** Sale and capital-gains tax *)

Section SaleFacts.
Import BondSale.
Local Open Scope Q_scope.

Variable pow : Q -> Q -> Q.

Lemma Qle_bool_false (x y : Q) : Qle_bool x y = false <-> y < x.
Proof.
  split; intros H.
  - apply Qnot_le_lt. intros Hle. apply Qle_bool_iff in Hle. congruence.
  - destruct (Qle_bool x y) eqn:E; [|reflexivity].
    apply Qle_bool_iff in E. exfalso. apply (Qlt_irrefl y).
    now apply Qlt_le_trans with (y := x).
Qed.

Lemma truthy_false (x : Q) : truthy x = false -> x == 0.
Proof.
  unfold truthy. intros H. apply negb_false_iff in H. now apply Qeq_bool_iff.
Qed.

(** No gain, no tax: the gain is clamped before the rate is applied. *)
Lemma computeCapitalGainsTax_clamp (b : MajikBond) (asOf : Date) :
  getSellPriceRatio pow b asOf <= buy (price b) ->
  computeCapitalGainsTax pow b asOf = Money.fromMinor 0 (currency (faceValue b)).
Proof.
  intros Hle. unfold computeCapitalGainsTax.
  destruct (negb (enabled (tax b)) || negb (truthy (capitalGains (tax b))));
    [reflexivity|].
  replace (Qle_bool (getSellPriceRatio pow b asOf - buy (price b)) 0) with true;
    [reflexivity|].
  symmetry. apply Qle_bool_iff. lra.
Qed.

(** C6.  The capital-gains tax is zero money whenever the effective sell
    ratio does not exceed the buy ratio (and whenever tax is disabled);
    with tax enabled and a gain it is
    [faceValue * (sellRatio - buyRatio) * capitalGainsRate]. *)
Theorem computeCapitalGainsTax_spec (b : MajikBond) (asOf : Date) :
  let sellRatio := getSellPriceRatio pow b asOf in
  let zero := Money.fromMinor 0 (currency (faceValue b)) in
  (sellRatio <= buy (price b) -> computeCapitalGainsTax pow b asOf = zero) /\
  (enabled (tax b) = false -> computeCapitalGainsTax pow b asOf = zero) /\
  (enabled (tax b) = true -> buy (price b) < sellRatio ->
   Money.eq (computeCapitalGainsTax pow b asOf)
            (Money.multiply
               (Money.multiply (faceValue b) (sellRatio - buy (price b)))
               (capitalGains (tax b)))).
Proof.
  cbv zeta. split; [apply computeCapitalGainsTax_clamp|].
  unfold computeCapitalGainsTax. split.
  - intros ->. reflexivity.
  - intros -> Hlt. cbn [negb orb].
    destruct (truthy (capitalGains (tax b))) eqn:Et; cbn [negb].
    + replace (Qle_bool (getSellPriceRatio pow b asOf - buy (price b)) 0) with false.
      * split; reflexivity.
      * symmetry. apply Qle_bool_false. lra.
    + apply truthy_false in Et. split; [reflexivity|].
      cbn [Money.fromMinor Money.multiply minorUnits]. rewrite Et. ring.
Qed.

(** The same clamp in the tax engine: a loss is never taxed. *)
Lemma computeCapitalGains_spec (t : BondTaxSettings) (sellPrice costBasis : MajikMoney) :
  (minorUnits sellPrice <= minorUnits costBasis ->
   BondTax.computeCapitalGains t sellPrice costBasis
   = Money.fromMinor 0 (currency sellPrice)) /\
  (enabled t = true -> minorUnits costBasis < minorUnits sellPrice ->
   Money.eq (BondTax.computeCapitalGains t sellPrice costBasis)
            (Money.multiply (Money.subtract sellPrice costBasis) (capitalGains t))).
Proof.
  unfold BondTax.computeCapitalGains, Money.toMinor, Money.subtract.
  cbn [minorUnits currency]. split.
  - intros Hle. destruct (negb (enabled t) || negb (truthy (capitalGains t)));
      [reflexivity|].
    replace (Qle_bool (minorUnits sellPrice - minorUnits costBasis) 0) with true;
      [reflexivity|].
    symmetry. apply Qle_bool_iff. lra.
  - intros -> Hlt. cbn [negb orb].
    destruct (truthy (capitalGains t)) eqn:Et; cbn [negb].
    + replace (Qle_bool (minorUnits sellPrice - minorUnits costBasis) 0) with false.
      * split; reflexivity.
      * symmetry. apply Qle_bool_false. lra.
    + apply truthy_false in Et. split; [reflexivity|].
      cbn [Money.fromMinor Money.multiply minorUnits]. rewrite Et. ring.
Qed.

(** C9.  The effective sell ratio is the manual sell price when one is
    set, and otherwise the dirty price at the bond's market rate on the
    sale date; with no sell price set, the sale summary, the net gain and
    the capital-gains tax are all computed (they are total functions) from
    that dirty price. *)
Theorem getSellPriceRatio_spec (b : MajikBond) (asOf : Date) :
  let dirty := BondPricing.computePrice pow b (marketRate b) asOf Dirty in
  (forall s, sell (price b) = Some s -> getSellPriceRatio pow b asOf = s) /\
  (sell (price b) = None ->
   getSellPriceRatio pow b asOf = dirty /\
   sellPriceUsed (simulate pow b asOf) = dirty /\
   dirtyPrice (simulate pow b asOf) = Money.multiply (faceValue b) dirty /\
   computeNetGain pow b asOf
   = Money.subtract
       (Money.subtract
          (Money.add (Money.multiply (faceValue b) dirty)
                     (BondAccrual.accruedInterest b asOf))
          (Money.multiply (faceValue b) (buy (price b))))
       (computeCapitalGainsTax pow b asOf) /\
   netGain (simulate pow b asOf) = computeNetGain pow b asOf /\
   (dirty <= buy (price b) ->
    computeCapitalGainsTax pow b asOf
    = Money.fromMinor 0 (currency (faceValue b)))).
Proof.
  cbv zeta. split.
  - intros s Hs. unfold getSellPriceRatio. now rewrite Hs.
  - intros Hnone.
    assert (Hr : getSellPriceRatio pow b asOf
                 = BondPricing.computePrice pow b (marketRate b) asOf Dirty)
      by (unfold getSellPriceRatio; now rewrite Hnone).
    repeat apply conj.
    + exact Hr.
    + unfold simulate. cbn [sellPriceUsed]. exact Hr.
    + reflexivity.
    + unfold computeNetGain. now rewrite Hr.
    + reflexivity.
    + intros Hle. apply computeCapitalGainsTax_clamp. now rewrite Hr.
Qed.

End SaleFacts.

Lemma computeCapitalGainsTax_spec_witness :
  let b := MajikBondMethods.withPrice (mkPrice 1 (Some (11 # 10))) Examples.taxedBond in
  let asOf := ymd 2026 3 1 in
  Money.eq (BondSale.computeCapitalGainsTax BondPricing.intPow b asOf)
           (Money.multiply (Money.multiply (faceValue b) ((11 # 10) - 1)%Q)
                           (15 # 100)%Q)
  /\ BondSale.computeCapitalGainsTax BondPricing.intPow
       (MajikBondMethods.withPrice (mkPrice 1 (Some (9 # 10))) Examples.taxedBond) asOf
     = Money.fromMinor 0 Money.PHP
  /\ BondSale.computeCapitalGainsTax BondPricing.intPow
       (MajikBondMethods.withPrice (mkPrice 1 (Some (11 # 10))) Examples.defaultBond) asOf
     = Money.fromMinor 0 Money.PHP.
Proof.
  split; [|split].
  - refine (proj2 (proj2 (computeCapitalGainsTax_spec BondPricing.intPow
             (MajikBondMethods.withPrice (mkPrice 1 (Some (11 # 10))) Examples.taxedBond)
             (ymd 2026 3 1))) eq_refl _). reflexivity.
  - refine (proj1 (computeCapitalGainsTax_spec BondPricing.intPow
             (MajikBondMethods.withPrice (mkPrice 1 (Some (9 # 10))) Examples.taxedBond)
             (ymd 2026 3 1)) _). vm_compute. discriminate.
  - refine (proj1 (proj2 (computeCapitalGainsTax_spec BondPricing.intPow
             (MajikBondMethods.withPrice (mkPrice 1 (Some (11 # 10))) Examples.defaultBond)
             (ymd 2026 3 1))) eq_refl).
Defined.

Lemma getSellPriceRatio_spec_witness :
  BondSale.getSellPriceRatio BondPricing.intPow Examples.defaultBond (ymd 2026 3 1)
  = BondPricing.computePrice BondPricing.intPow Examples.defaultBond
      (marketRate Examples.defaultBond) (ymd 2026 3 1) Dirty
  /\ BondSale.getSellPriceRatio BondPricing.intPow
       (MajikBondMethods.withPrice (mkPrice 1 (Some (11 # 10))) Examples.defaultBond)
       (ymd 2026 3 1)
     = (11 # 10)%Q.
Proof.
  split.
  - refine (proj1 (proj2 (getSellPriceRatio_spec BondPricing.intPow
                            Examples.defaultBond (ymd 2026 3 1)) eq_refl)).
  - refine (proj1 (getSellPriceRatio_spec BondPricing.intPow
                     (MajikBondMethods.withPrice (mkPrice 1 (Some (11 # 10)))
                                                 Examples.defaultBond)
                     (ymd 2026 3 1)) (11 # 10)%Q eq_refl).
Defined.

(** ** The cashflow table *)

Section CashflowFacts.
Import BondCashflow.
Local Open Scope Q_scope.

Lemma nth_error_combine_seq {A : Type} (l : list A) :
  forall (a i : nat),
    nth_error (combine (seq a (List.length l)) l) i
    = option_map (fun d => ((a + i)%nat, d)) (nth_error l i).
Proof.
  induction l as [|x l IH]; intros a i; cbn [List.length seq combine].
  - destruct i; reflexivity.
  - destruct i as [|i]; cbn [nth_error option_map].
    + now rewrite Nat.add_0_r.
    + rewrite IH. destruct (nth_error l i); cbn [option_map]; [|reflexivity].
      do 2 f_equal. lia.
Qed.

Lemma generate_nth (b : MajikBond) (idx : nat) :
  nth_error (generate b) idx
  = option_map (row b (generateCouponSchedule b) idx)
               (nth_error (generateCouponSchedule b) idx).
Proof.
  unfold generate, generateCouponSchedule.
  set (schedule := Schedule.couponDates _ _ _).
  rewrite nth_error_map, nth_error_combine_seq.
  destruct (nth_error schedule idx); reflexivity.
Qed.

Lemma toMajor_fromMajor (x : Q) (c : Currency) :
  Money.toMajorDecimal (Money.fromMajor x c) == x.
Proof.
  unfold Money.toMajorDecimal, Money.fromMajor. cbn [minorUnits currency].
  pose proof (scale_pos c) as Hs. field.
  intros E. rewrite E in Hs. now apply (Qlt_irrefl 0).
Qed.

Lemma Qltb_true (x y : Q) : Qltb x y = true <-> x < y.
Proof.
  unfold Qltb. rewrite negb_true_iff. apply Qle_bool_false.
Qed.

Lemma Qltb_false (x y : Q) : Qltb x y = false <-> y <= x.
Proof.
  unfold Qltb. rewrite negb_false_iff. apply Qle_bool_iff.
Qed.

(** Round-half-to-even stays within half a unit of its argument, and on
    a tie it lands on the even neighbour. *)
Lemma roundHalfEven_error (x : Q) :
  - (1 # 2) <= inject_Z (roundHalfEven x) - x <= 1 # 2.
Proof.
  pose proof (Qfloor_le x) as Hlo. pose proof (Qlt_floor x) as Hhi.
  rewrite inject_Z_plus in Hhi. change (inject_Z 1) with 1 in Hhi.
  unfold roundHalfEven.
  destruct (Qltb (x - inject_Z (Qfloor x)) (1 # 2)) eqn:E1.
  - apply Qltb_true in E1. lra.
  - apply Qltb_false in E1.
    destruct (Qltb (1 # 2) (x - inject_Z (Qfloor x))) eqn:E2.
    + rewrite inject_Z_plus. change (inject_Z 1) with 1. lra.
    + apply Qltb_false in E2.
      destruct (Z.even (Qfloor x)); [lra|].
      rewrite inject_Z_plus. change (inject_Z 1) with 1. lra.
Qed.

Lemma roundHalfEven_tie (x : Q) :
  x - inject_Z (Qfloor x) == 1 # 2 -> Z.even (roundHalfEven x) = true.
Proof.
  intros Htie. unfold roundHalfEven.
  replace (Qltb (x - inject_Z (Qfloor x)) (1 # 2)) with false
    by (symmetry; apply Qltb_false; lra).
  replace (Qltb (1 # 2) (x - inject_Z (Qfloor x))) with false
    by (symmetry; apply Qltb_false; lra).
  destruct (Z.even (Qfloor x)) eqn:E; [assumption|].
  rewrite Z.even_add, E. reflexivity.
Qed.

Lemma net_plus_tax (b : MajikBond) (gross : Q) :
  interestMaj b gross + taxMaj b gross == gross.
Proof.
  unfold interestMaj, taxMaj.
  destruct (enabled (tax b) && truthy (interestFWT (tax b))); ring.
Qed.

(** C5 (as amended).  Row [idx] of the cashflow table belongs to the
    coupon date at index [idx] of the schedule.  Its gross interest is
    [faceValue * couponRate * yearFraction(previousDate, thisDate)]; before
    rounding, net interest plus withheld tax is the gross interest exactly.
    Each stored field (interest, principal, total, tax) is the
    round-half-to-even rounding of its amount and so lies within half a
    major unit of it; hence stored net interest plus stored tax lies within
    one major unit of the gross interest, without being equal to it in
    general. *)
Theorem generate_row_spec (b : MajikBond) (idx : nat) (r : CashflowSummary) :
  nth_error (generate b) idx = Some r ->
  let schedule := generateCouponSchedule b in
  exists couponDate,
    nth_error schedule idx = Some couponDate /\
    let gross :=
      grossInterest b (prevDate (start (maturity b)) schedule idx) couponDate in
    let net := interestMaj b gross in
    let withheld := taxMaj b gross in
    let princ := principalMaj b (List.length schedule) idx in
    net + withheld == gross /\
    Money.toMajorDecimal (interest r) == inject_Z (roundHalfEven net) /\
    Money.toMajorDecimal (rowTax r) == inject_Z (roundHalfEven withheld) /\
    Money.toMajorDecimal (principal r) == inject_Z (roundHalfEven princ) /\
    Money.toMajorDecimal (total r) == inject_Z (roundHalfEven (net + princ)) /\
    Qabs (Money.toMajorDecimal (interest r) - net) <= 1 # 2 /\
    Qabs (Money.toMajorDecimal (rowTax r) - withheld) <= 1 # 2 /\
    Qabs (Money.toMajorDecimal (interest r) + Money.toMajorDecimal (rowTax r)
          - gross) <= 1.
Proof.
  intros Hnth. cbv zeta. rewrite generate_nth in Hnth.
  destruct (nth_error (generateCouponSchedule b) idx) as [couponDate|] eqn:Ed;
    [|discriminate].
  cbn [option_map] in Hnth. injection Hnth as <-.
  exists couponDate. split; [reflexivity|].
  unfold row. cbn [interest rowTax principal total]. unfold rounded.
  rewrite !toMajor_fromMajor.
  set (gross := grossInterest b _ couponDate).
  pose proof (net_plus_tax b gross) as Hsum.
  pose proof (roundHalfEven_error (interestMaj b gross)) as Hn.
  pose proof (roundHalfEven_error (taxMaj b gross)) as Ht.
  repeat apply conj; try reflexivity; try assumption.
  - apply Qabs_Qle_condition. lra.
  - apply Qabs_Qle_condition. lra.
  - apply Qabs_Qle_condition. lra.
Qed.

Lemma generate_row_spec_witness :
  exists r couponDate,
    nth_error (generate Examples.taxedBond) 0 = Some r /\
    nth_error (generateCouponSchedule Examples.taxedBond) 0 = Some couponDate /\
    Qabs (Money.toMajorDecimal (interest r) + Money.toMajorDecimal (rowTax r)
          - grossInterest Examples.taxedBond (ymd 2025 1 1) couponDate) <= 1.
Proof.
  destruct (nth_error (generate Examples.taxedBond) 0) as [r|] eqn:Er;
    [|vm_compute in Er; discriminate Er].
  destruct (generate_row_spec Examples.taxedBond 0 r Er) as (d & Hd & H).
  exists r, d. split; [reflexivity|]. split; [exact Hd|]. apply H.
Defined.

(** First row of the taxed default bond: gross 5000 * 0.05 * 181/365 =
    123.97..; stored net interest 99, stored tax 25. *)
Example taxedBond_first_row :
  option_map (fun r => (minorUnits (interest r), minorUnits (rowTax r)))
             (nth_error (generate Examples.taxedBond) 0)
  = Some (inject_Z 99 * Money.scale Money.PHP, inject_Z 25 * Money.scale Money.PHP)
  /\ Qred (grossInterest Examples.taxedBond (ymd 2025 1 1) (ymd 2025 7 1))
     = 9050 # 73.
Proof. split; reflexivity. Qed.

(** C5 (as stated) fails: the stored amounts are whole major units, and
    net plus tax does not give back the gross interest. *)
Lemma cashflowClaim_fails : ~ AsStated.cashflowClaim.
Proof.
  intros H.
  destruct (nth_error (generate Examples.taxedBond) 0) as [r|] eqn:Er;
    [|vm_compute in Er; discriminate Er].
  destruct (H Examples.taxedBond 0%nat r eq_refl Er) as (d & Hd & _ & _ & Hsum).
  vm_compute in Hd. injection Hd as <-.
  vm_compute in Er. injection Er as <-.
  vm_compute in Hsum. discriminate Hsum.
Qed.

End CashflowFacts.

(** ** Setters *)

Section SetterFacts.
Import MajikBondMethods.

Lemma assign_then_recompute (f : MajikBond -> MajikBond) (b b' : MajikBond)
      (message : string) :
  (assign f ;; recomputeDerivedData) b <> (Thrown message, b').
Proof. unfold andThen, assign, recomputeDerivedData. discriminate. Qed.

(** The eight setters that check their argument first are atomic: when
    they throw, nothing has been assigned. *)
Lemma validating_setters_atomic (s : Setter) (b b' : MajikBond) (message : string) :
  validatesFirst s = true ->
  call s b = (Thrown message, b') -> b' = b.
Proof.
  destruct s; cbn [validatesFirst call]; intros Hv Hcall; try discriminate Hv;
    unfold setFaceValue, setCouponRate, setBuyPrice, setSellPrice,
      setMarketRate, setInterestFWT, setCapitalGains, setEstateOrDonor in Hcall;
    match type of Hcall with
    | (if ?c then _ else _) b = _ => destruct c
    end;
    try (now apply assign_then_recompute in Hcall);
    unfold throw in Hcall; now injection Hcall.
Qed.

(** [setMaturityDate] and [setIssueDate] assign before
    [recomputeMaturityYears] validates: a rejected date stays in the bond. *)
Lemma setMaturityDate_rejected (date : Date) (b : MajikBond) :
  getTime date <= getTime (start (maturity b)) ->
  setMaturityDate date b
  = (Thrown "Maturity date must be after issue date",
     withMaturity (mkMaturity (start (maturity b)) date (years (maturity b))
                              (issueDate (maturity b))) b).
Proof.
  intros H. unfold setMaturityDate, andThen, assign, recomputeMaturityYears.
  cbn [withMaturity maturity start end_]. apply Z.leb_le in H. now rewrite H.
Qed.

Lemma setIssueDate_rejected (date : Date) (b : MajikBond) :
  getTime (end_ (maturity b)) <= getTime date ->
  setIssueDate date b
  = (Thrown "Maturity date must be after issue date",
     withMaturity (mkMaturity date (end_ (maturity b)) (years (maturity b))
                              (Some date)) b).
Proof.
  intros H. unfold setIssueDate, andThen, assign, recomputeMaturityYears.
  cbn [withMaturity maturity start end_]. apply Z.leb_le in H. now rewrite H.
Qed.

(** C4, at the failing input.  A bond running from 2025-01-01 to
    2030-01-01 is asked to mature on 2024-01-01: the call throws, yet the
    bond now ends on 2024-01-01, while its cached cashflow table is still
    the one of the old maturity. *)
Theorem setMaturityDate_not_atomic :
  let b := Examples.liveBond in
  let '(completion, b') := setMaturityDate (ymd 2024 1 1) b in
  validBond b = true /\
  completion = Thrown "Maturity date must be after issue date" /\
  end_ (maturity b) = ymd 2030 1 1 /\
  end_ (maturity b') = ymd 2024 1 1 /\
  cashflowSummary b' = cashflowSummary b /\
  List.length (cashflowSummary b') = 10%nat /\
  b' <> b.
Proof.
  cbv zeta. rewrite setMaturityDate_rejected by (vm_compute; discriminate).
  repeat apply conj; try reflexivity.
  intros E. apply (f_equal (fun x => end_ (maturity x))) in E.
  vm_compute in E. discriminate E.
Qed.

(** Hence the atomicity property, taken over all ten setters, does not
    hold of the code. *)
Lemma atomicityClaim_fails : ~ AsStated.atomicityClaim.
Proof.
  intros H.
  pose proof (setMaturityDate_rejected (ymd 2024 1 1) Examples.liveBond
                ltac:(vm_compute; discriminate)) as Hcall.
  apply (H (SetMaturityDate (ymd 2024 1 1))) in Hcall.
  apply (f_equal (fun x => end_ (maturity x))) in Hcall.
  vm_compute in Hcall. discriminate Hcall.
Qed.

End SetterFacts.

(** ** The yield solver *)

Section SolverFacts.
Import BondPricing.
Local Open Scope Q_scope.

Variable pow : Q -> Q -> Q.

(** The inner [for] loop leaves through its own test [t <= periods]:
    beyond [couponLoopFuel] the fuel does not matter. *)
Lemma couponLoop_fuel (coupon base freq periods : Q) :
  forall (fuel1 fuel2 : nat) (t f df : Q) (m : nat),
    periods < t + inject_Z (Z.of_nat m) ->
    (m < fuel1)%nat -> (m < fuel2)%nat ->
    couponLoop pow fuel1 coupon base freq periods t f df
    = couponLoop pow fuel2 coupon base freq periods t f df.
Proof.
  induction fuel1 as [|k1 IH]; intros fuel2 t f df m Hm H1 H2; [lia|].
  destruct fuel2 as [|k2]; [lia|]. cbn [couponLoop].
  destruct (Qle_bool t periods) eqn:E; [|reflexivity].
  apply Qle_bool_iff in E.
  destruct m as [|m].
  - exfalso. change (inject_Z (Z.of_nat 0)) with 0 in Hm.
    apply (Qlt_irrefl periods). lra.
  - apply (IH k2 _ _ _ m); [|lia|lia].
    rewrite Nat2Z.inj_succ in Hm. unfold Z.succ in Hm.
    rewrite inject_Z_plus in Hm. change (inject_Z 1) with 1 in Hm. lra.
Qed.

Lemma couponLoopFuel_enough (periods : Q) :
  periods < 1 + inject_Z (Z.of_nat (Z.to_nat (Qfloor periods))).
Proof.
  pose proof (Qlt_floor periods) as H.
  rewrite inject_Z_plus in H. change (inject_Z 1) with 1 in H.
  assert (Hle : inject_Z (Qfloor periods)
                <= inject_Z (Z.of_nat (Z.to_nat (Qfloor periods)))).
  { rewrite <- Zle_Qle. lia. }
  lra.
Qed.

Corollary couponLoop_fuel_irrelevant (coupon base freq periods : Q) (extra : nat) :
  couponLoop pow (couponLoopFuel periods + extra) coupon base freq periods 1 0 0
  = couponLoop pow (couponLoopFuel periods) coupon base freq periods 1 0 0.
Proof.
  apply (couponLoop_fuel _ _ _ _ _ _ _ _ _ (Z.to_nat (Qfloor periods)));
    [apply couponLoopFuel_enough | unfold couponLoopFuel; lia
     | unfold couponLoopFuel; lia].
Qed.

(** The outer loop: what a run records. *)
Lemma newtonLoop_run (b : MajikBond) (priceRatio periods tolerance : Q) :
  forall (iterations : nat) (ytm : Q) (done : nat),
    let next := newtonNext pow b priceRatio periods in
    let r := newtonLoop pow iterations b priceRatio periods tolerance ytm done in
    (done <= steps r <= done + iterations)%nat /\
    estimate r = Nat.iter (steps r - done) next ytm /\
    match exitReason r with
    | ShortCircuit => False
    | IterationCap => steps r = (done + iterations)%nat
    | NonFiniteStep =>
        newtonTerms pow b priceRatio periods (estimate r) = None
    | DerivativeFloor =>
        exists f df,
          newtonTerms pow b priceRatio periods (estimate r) = Some (f, df) /\
          Qabs df < derivativeFloor
    | ToleranceMet =>
        (done < steps r)%nat /\
        Qabs (estimate r - Nat.iter (steps r - done - 1) next ytm) < tolerance
    end.
Proof.
  cbv zeta. induction iterations as [|i IH]; intros ytm done; cbn [newtonLoop].
  - cbn [steps estimate exitReason]. rewrite Nat.sub_diag. cbn. repeat split; lia.
  - destruct (newtonTerms pow b priceRatio periods ytm) as [[f df]|] eqn:Et.
    + destruct (Qltb (Qabs df) derivativeFloor) eqn:Ed.
      * cbn [steps estimate exitReason]. rewrite Nat.sub_diag. cbn [Nat.iter nat_rect].
        repeat split; try lia. exists f, df. split; [assumption|].
        now apply Qltb_true.
      * assert (Hnext : newtonNext pow b priceRatio periods ytm = ytm - f / df)
          by (unfold newtonNext; now rewrite Et).
        destruct (Qltb (Qabs (ytm - f / df - ytm)) tolerance) eqn:Etol.
        -- cbn [steps estimate exitReason].
           replace (S done - done)%nat with 1%nat by lia.
           replace (S done - done - 1)%nat with 0%nat by lia.
           cbn [Nat.iter nat_rect]. rewrite Hnext.
           repeat split; try lia. now apply Qltb_true.
        -- specialize (IH (ytm - f / df) (S done)).
           destruct IH as ((Hlo & Hhi) & Hest & Hexit).
           set (r := newtonLoop pow i b priceRatio periods tolerance
                                (ytm - f / df) (S done)) in *.
           split; [lia|]. split.
           ++ rewrite Hest.
              replace (steps r - done)%nat with (S (steps r - S done)) by lia.
              rewrite Nat.iter_succ_r, Hnext. reflexivity.
           ++ destruct (exitReason r); try assumption.
              ** destruct Hexit as (Hlt & Habs). split; [lia|].
                 replace (steps r - done - 1)%nat
                   with (S (steps r - S done - 1)) by lia.
                 rewrite Nat.iter_succ_r, Hnext. exact Habs.
              ** lia.
    + cbn [steps estimate exitReason]. rewrite Nat.sub_diag. cbn [Nat.iter nat_rect].
      repeat split; try lia. assumption.
Qed.

(** C8.  The solver is a total function.  It performs at most
    [iterations] Newton steps and returns the estimate held when the loop is
    left, which is the [steps]-th Newton iterate of the initial guess,
    whatever the reason for leaving (tolerance met, derivative below the
    floor, non-finite step, iteration cap); when [maturityYears <= 0] it
    returns 0 without any step. *)
Theorem solveYTMFromPrice_bounded (b : MajikBond) (priceRatio maturityYears : Q)
        (iterations : nat) (tolerance : Q) :
  let run := solveRun pow b priceRatio maturityYears iterations tolerance in
  let next := newtonNext pow b priceRatio (maturityYears * freqQ (frequency b)) in
  solveYTMFromPrice pow b priceRatio maturityYears iterations tolerance
  = estimate run /\
  (steps run <= iterations)%nat /\
  (maturityYears <= 0 ->
   estimate run = 0 /\ steps run = 0%nat /\ exitReason run = ShortCircuit) /\
  (0 < maturityYears ->
   estimate run = Nat.iter (steps run) next (initialGuess b) /\
   match exitReason run with
   | ShortCircuit => False
   | IterationCap => steps run = iterations
   | NonFiniteStep =>
       newtonTerms pow b priceRatio (maturityYears * freqQ (frequency b))
                   (estimate run) = None
   | DerivativeFloor =>
       exists f df,
         newtonTerms pow b priceRatio (maturityYears * freqQ (frequency b))
                     (estimate run) = Some (f, df) /\
         Qabs df < derivativeFloor
   | ToleranceMet =>
       (0 < steps run)%nat /\
       Qabs (estimate run - Nat.iter (steps run - 1) next (initialGuess b))
       < tolerance
   end).
Proof.
  cbv zeta. unfold solveYTMFromPrice, solveRun.
  destruct (Qle_bool maturityYears 0) eqn:E.
  - apply Qle_bool_iff in E. cbn [steps estimate exitReason].
    split; [reflexivity|]. split; [lia|]. split.
    + intros _. repeat split.
    + intros Hpos. exfalso.
      apply (Qlt_irrefl 0). now apply Qlt_le_trans with (y := maturityYears).
  - apply Qle_bool_false in E.
    pose proof (newtonLoop_run b priceRatio (maturityYears * freqQ (frequency b))
                  tolerance iterations (initialGuess b) 0%nat) as H.
    cbv zeta in H. destruct H as ((_ & Hhi) & Hest & Hexit).
    set (r := newtonLoop pow iterations b priceRatio
                         (maturityYears * freqQ (frequency b)) tolerance
                         (initialGuess b) 0) in *.
    rewrite Nat.sub_0_r in Hest. split; [reflexivity|]. split; [lia|]. split.
    + intros Hle. exfalso. apply (Qlt_irrefl 0).
      now apply Qlt_le_trans with (y := maturityYears).
    + intros _. split; [exact Hest|].
      destruct (exitReason r); try assumption.
      destruct Hexit as (Hlt & Habs). split; [assumption|].
      now rewrite Nat.sub_0_r in Habs.
Qed.

End SolverFacts.

Lemma solveYTMFromPrice_bounded_witness :
  let b := Examples.regularBond in
  let run := BondPricing.solveRun BondPricing.intPow b 1 2 100
               BondPricing.defaultTolerance in
  (BondPricing.steps run <= 100)%nat /\
  BondPricing.estimate run
  = Nat.iter (BondPricing.steps run)
             (BondPricing.newtonNext BondPricing.intPow b 1
                (2 * freqQ (frequency b))%Q)
             (BondPricing.initialGuess b) /\
  BondPricing.solveYTMFromPrice BondPricing.intPow b 1 0 100
    BondPricing.defaultTolerance = 0%Q.
Proof.
  pose proof (solveYTMFromPrice_bounded BondPricing.intPow Examples.regularBond
                1 2 100 BondPricing.defaultTolerance) as H2.
  pose proof (solveYTMFromPrice_bounded BondPricing.intPow Examples.regularBond
                1 0 100 BondPricing.defaultTolerance) as H0.
  cbv zeta in H2, H0.
  destruct H2 as (_ & Hsteps & _ & Hpos).
  destruct H0 as (Heq & _ & Hzero & _).
  assert (Hgt : (0 < 2)%Q) by reflexivity.
  assert (Hle : (0 <= 0)%Q) by apply Qle_refl.
  destruct (Hpos Hgt) as (Hest & _). destruct (Hzero Hle) as (Hest0 & _).
  cbv zeta. split; [exact Hsteps|]. split; [exact Hest|].
  rewrite Heq. exact Hest0.
Defined.

(** ** Price / yield round trip *)

Section RoundTripFacts.
Import BondPricing DayCountCalculator.
Local Open Scope Q_scope.

Lemma intPow_law : PowLaw intPow.
Proof.
  intros x t n Ht. unfold intPow.
  rewrite (Qfloor_comp t (inject_Z n) Ht), Qfloor_Z. reflexivity.
Qed.


Lemma inject_Z_of_nat_le (a b : nat) :
  inject_Z (Z.of_nat a) <= inject_Z (Z.of_nat b) <-> (a <= b)%nat.
Proof. rewrite <- Zle_Qle. lia. Qed.

Variable pow : Q -> Q -> Q.
Hypothesis pow_law : PowLaw pow.


(** The coupon accumulation of [computePrice] over a schedule whose dates
    lie whole periods ahead gives the same sum. *)
Lemma discountedCoupons_annuity (b : MajikBond) (base : Q) (asOf : Date) :
  forall (l : list Date) (acc : Q) (k0 : nat),
    (forall k d, nth_error l k = Some d ->
                 yearFraction asOf d (dayCount b) * freqQ (frequency b)
                 == inject_Z (Z.of_nat (S (k0 + k)))) ->
    fold_left
      (fun priceMaj couponDate =>
         let t := yearFraction asOf couponDate (dayCount b) * freqQ (frequency b) in
         if Qle_bool t 0 then priceMaj
         else priceMaj + couponMaj b / pow base t)
      l acc
    == acc + (annuity (couponMaj b) base (k0 + List.length l)
              - annuity (couponMaj b) base k0).
Proof.
  induction l as [|d l IH]; intros acc k0 H; cbn [fold_left List.length].
  - rewrite Nat.add_0_r. ring.
  - pose proof (H 0%nat d eq_refl) as Hd. rewrite Nat.add_0_r in Hd.
    cbv zeta.
    destruct (Qle_bool (yearFraction asOf d (dayCount b) * freqQ (frequency b)) 0)
      eqn:E.
    + apply Qle_bool_iff in E. rewrite Hd in E. exfalso.
      change 0 with (inject_Z (Z.of_nat 0)) in E.
      apply inject_Z_of_nat_le in E. lia.
    + rewrite (IH _ (S k0)).
      * rewrite (pow_law base _ (Z.of_nat (S k0)) Hd).
        replace (k0 + S (List.length l))%nat with (S k0 + List.length l)%nat by lia.
        cbn [annuity]. ring.
      * intros k d' Hk. rewrite (H (S k) d' Hk).
        replace (k0 + S k)%nat with (S k0 + k)%nat by lia. reflexivity.
Qed.

Lemma last_nth_error {A : Type} (l : list A) (x : A) :
  last (map Some (x :: l)) None = nth_error (x :: l) (List.length l).
Proof.
  revert x. induction l as [|y l IH]; intros x; [reflexivity|].
  cbn [List.length nth_error]. rewrite <- IH. reflexivity.
Qed.

Lemma freqQ_pos (f : CouponFrequency) : 0 < freqQ f.
Proof. destruct f; reflexivity. Qed.

Lemma discountBase_pos (r : Q) (f : CouponFrequency) : 0 <= r -> 0 < 1 + r / freqQ f.
Proof.
  intros Hr. pose proof (Qdiv_nonneg r (freqQ f) Hr (freqQ_pos f)). lra.
Qed.

(** The clean price of [computePrice] when all coupons lie whole periods
    ahead: the annuity of the [n] coupons plus the discounted face value,
    over the face value. *)
Lemma computePrice_clean_whole (b : MajikBond) (r : Q) (asOf : Date) :
  wholePeriods b asOf ->
  generateCouponSchedule b <> [] ->
  let n := List.length (generateCouponSchedule b) in
  let base := 1 + r / freqQ (frequency b) in
  let faceMaj := Money.toMajorDecimal (faceValue b) in
  computePrice pow b r asOf Clean
  == (annuity (couponMaj b) base n + faceMaj / Qpower base (Z.of_nat n)) / faceMaj.
Proof.
  intros Hw Hne. cbv zeta. unfold computePrice, discountedCoupons, wholePeriods in *.
  destruct (generateCouponSchedule b) as [|x l] eqn:Es; [congruence|].
  rewrite (discountedCoupons_annuity b _ asOf (x :: l) 0 0%nat Hw).
  rewrite last_nth_error.
  destruct (nth_error (x :: l) (List.length l)) as [d|] eqn:Ed.
  - rewrite (pow_law _ _ _ (Hw _ _ Ed)).
    cbn [List.length Nat.add]. change (annuity (couponMaj b) _ 0) with 0.
    set (A := annuity _ _ _). set (X := _ / Qpower _ _).
    apply Qdiv_comp; [ring | reflexivity].
  - apply nth_error_None in Ed. cbn [List.length] in Ed. lia.
Qed.


End RoundTripFacts.

Lemma regularBond_wholePeriods :
  BondPricing.wholePeriods Examples.regularBond (ymd 2025 1 15).
Proof.
  assert (Es : generateCouponSchedule Examples.regularBond
               = [ymd 2025 7 15; ymd 2026 1 15; ymd 2026 7 15; ymd 2027 1 15])
    by reflexivity.
  intros k d Hk. rewrite Es in Hk.
  destruct k as [|[|[|[|k]]]]; cbn in Hk; try injection Hk as <-;
    try reflexivity.
  destruct k; discriminate Hk.
Qed.


(** Valued after its maturity, the regular bond has clean price 1 whatever
    the rate; solving back from that price gives the coupon rate 6%. *)
Example regularBond_after_maturity :
  Qred (BondPricing.computePrice BondPricing.intPow Examples.regularBond (1 # 10)
          (ymd 2028 1 1) Clean) = 1%Q /\
  Qred (BondPricing.solveYTMFromPrice BondPricing.intPow Examples.regularBond
          (BondPricing.computePrice BondPricing.intPow Examples.regularBond (1 # 10)
             (ymd 2028 1 1) Clean)
          (years (maturity Examples.regularBond))
          BondPricing.defaultIterations BondPricing.defaultTolerance)
  = (3 # 50)%Q.
Proof. split; vm_compute; reflexivity. Qed.


(* ================================================================== *)
(** * Part III.  Further properties of the code *)
(* ================================================================== *)

(** ** Calendar and schedule *)

Section ScheduleMore.
Import Schedule.

(** A valid instant is determined by its time value. *)
Lemma getTime_inj (a b : Date) :
  validDate a = true -> validDate b = true -> getTime a = getTime b -> a = b.
Proof.
  intros Ha Hb Heq.
  assert (Hidx : monthIndex a = monthIndex b).
  { destruct (Z.lt_trichotomy (monthIndex a) (monthIndex b)) as [H|[H|H]];
      [pose proof (getTime_month_lt a b Ha Hb H); lia | assumption
       | pose proof (getTime_month_lt b a Hb Ha H); lia]. }
  pose proof Ha as Ha'. pose proof Hb as Hb'.
  apply validDate_spec in Ha', Hb'. unfold monthIndex in Hidx.
  assert (Hy : year a = year b) by lia.
  assert (Hm : month a = month b) by lia.
  pose proof (dayNumber_same_month a b Hy Hm) as Hd.
  assert (Hdn : dayNumber a = dayNumber b).
  { unfold getTime, msPerDay in *. lia. }
  assert (Hday : day a = day b) by lia.
  assert (Hms : msOfDay a = msOfDay b) by (unfold getTime in Heq; lia).
  destruct a, b; cbn in *; congruence.
Qed.

Lemma scheduleLoop_valid (mpp : Z) (e : Date) :
  validDate e = true ->
  forall fuel current,
    validDate current = true ->
    Forall (fun d => validDate d = true) (scheduleLoop fuel mpp current e).
Proof.
  intros He. induction fuel as [|k IH]; intros current Hc; cbn [scheduleLoop];
    [constructor|].
  destruct (getTime current <? getTime e); [|constructor].
  constructor.
  - destruct (getTime e <? getTime (advance mpp current));
      [assumption | now apply validDate_advance].
  - apply IH. now apply validDate_advance.
Qed.

Lemma schedule_valid (b : MajikBond) :
  validDate (start (maturity b)) = true ->
  validDate (end_ (maturity b)) = true ->
  Forall (fun d => validDate d = true) (generateCouponSchedule b).
Proof. intros Hs He. now apply scheduleLoop_valid. Qed.

Lemma schedule_empty_iff (b : MajikBond) :
  generateCouponSchedule b = []
  <-> getTime (end_ (maturity b)) <= getTime (start (maturity b)).
Proof.
  unfold generateCouponSchedule, couponDates, scheduleFuel.
  rewrite Nat.add_1_r. cbn [scheduleLoop].
  destruct (getTime (start (maturity b)) <? getTime (end_ (maturity b))) eqn:E.
  - apply Z.ltb_lt in E. split; [discriminate | lia].
  - apply Z.ltb_ge in E. split; [intros _; assumption | reflexivity].
Qed.

(** X1.  The schedule is empty exactly when the maturity end is not after
    the start; then the cashflow table is empty, [totalPeriods] is 0 and no
    interest accrues on any date. *)
Theorem degenerate_maturity (b : MajikBond) :
  (generateCouponSchedule b = []
   <-> getTime (end_ (maturity b)) <= getTime (start (maturity b))) /\
  (getTime (end_ (maturity b)) <= getTime (start (maturity b)) ->
   BondCashflow.generate b = [] /\
   totalPeriods b = 0 /\
   forall asOfDate,
     BondAccrual.accruedInterest b asOfDate
     = Money.fromMinor 0 (currency (faceValue b))).
Proof.
  split; [apply schedule_empty_iff|]. intros Hle.
  pose proof (proj2 (schedule_empty_iff b) Hle) as Hs.
  repeat apply conj.
  - unfold BondCashflow.generate. unfold generateCouponSchedule in Hs.
    now rewrite Hs.
  - unfold totalPeriods, DayCountCalculator.yearFraction.
    apply Z.leb_le in Hle. rewrite Hle. destruct (frequency b); reflexivity.
  - intros asOfDate. unfold BondAccrual.accruedInterest. now rewrite Hs.
Qed.

Lemma degenerate_maturity_witness :
  let b := Examples.bondOf 5000 (5 # 100) (ymd 2025 1 1) (ymd 2025 1 1)
                           SemiAnnual ACTUAL_365 Examples.defaultTax in
  BondCashflow.generate b = [] /\
  totalPeriods b = 0 /\
  forall asOfDate,
    BondAccrual.accruedInterest b asOfDate
    = Money.fromMinor 0 (currency (faceValue b)).
Proof.
  refine (proj2 (degenerate_maturity
                   (Examples.bondOf 5000 (5 # 100) (ymd 2025 1 1) (ymd 2025 1 1)
                                    SemiAnnual ACTUAL_365 Examples.defaultTax)) _).
  vm_compute. discriminate.
Defined.

(** The date held by [current] after [k] passes. *)
Lemma currentAfter_spec (f : CouponFrequency) (s : Date) :
  validDate s = true ->
  forall k,
    let d := currentAfter f k s in
    validDate d = true /\
    monthIndex d = monthIndex s + Z.of_nat k * monthsPerPeriod f /\
    msOfDay d = msOfDay s /\
    day (currentAfter f (S k) s) <= day d <= day s /\
    (day s <= 28 -> day d = day s).
Proof.
  intros Hs. unfold currentAfter.
  assert (Hstep : forall c, validDate c = true ->
             msOfDay (advance (monthsPerPeriod f) c) = msOfDay c /\
             day (advance (monthsPerPeriod f) c) <= day c /\
             (day c <= 28 -> day (advance (monthsPerPeriod f) c) = day c)).
  { intros c Hc. rewrite (advance_spec _ c Hc). cbn [msOfDay day].
    set (mi := getMonth c + monthsPerPeriod f).
    pose proof (Z.mod_pos_bound mi 12 ltac:(lia)).
    pose proof (daysInMonth_bounds (year c + mi / 12) (mi mod 12 + 1) ltac:(lia)).
    lia. }
  induction k as [|k IH]; cbv zeta.
  - change (Nat.iter 1 (advance (monthsPerPeriod f)) s)
      with (advance (monthsPerPeriod f) s).
    change (Nat.iter 0 (advance (monthsPerPeriod f)) s) with s.
    destruct (Hstep s Hs) as (_ & Hd & _).
    repeat split; try assumption; lia.
  - cbv zeta in IH. destruct IH as (Hv & Hidx & Hms & (_ & Hday) & H28).
    rewrite !Nat.iter_succ.
    set (c := Nat.iter k (advance (monthsPerPeriod f)) s) in *.
    destruct (Hstep c Hv) as (Hms' & Hd' & H28').
    assert (Hv' : validDate (advance (monthsPerPeriod f) c) = true)
      by now apply validDate_advance.
    destruct (Hstep _ Hv') as (_ & Hd'' & _).
    pose proof (monthIndex_advance (monthsPerPeriod f) c Hv) as Hidx'.
    repeat split; try assumption; lia.
Qed.

(** X2.  Every coupon date but the last lies a whole number of coupon
    periods after the issue date ((k+1) * 12/frequency calendar months),
    keeps the time of day of the issue date, and falls on the issue date's
    day of the month or, once a shorter month has clamped it, on an earlier
    day; an issue day up to the 28th is always kept. *)
Theorem schedule_month_arithmetic (b : MajikBond) (k : nat) (d : Date) :
  validDate (start (maturity b)) = true ->
  validDate (end_ (maturity b)) = true ->
  (S k < List.length (generateCouponSchedule b))%nat ->
  nth_error (generateCouponSchedule b) k = Some d ->
  let s := start (maturity b) in
  validDate d = true /\
  monthIndex d = monthIndex s + (Z.of_nat k + 1) * (12 / freqZ (frequency b)) /\
  msOfDay d = msOfDay s /\
  day d <= day s /\
  (day s <= 28 -> day d = day s).
Proof.
  intros Hs He Hk Hnth. cbv zeta.
  pose proof (scheduleLoop_props (monthsPerPeriod (frequency b)) (end_ (maturity b))
                (monthsPerPeriod_pos _) He
                (scheduleFuel (start (maturity b)) (end_ (maturity b)))
                (start (maturity b)) Hs (Nat.le_refl _)) as H.
  cbv zeta in H. destruct H as (_ & _ & _ & _ & _ & Hel).
  unfold generateCouponSchedule, couponDates in Hk, Hnth.
  rewrite (Hel k Hk) in Hnth. injection Hnth as <-.
  pose proof (currentAfter_spec (frequency b) (start (maturity b)) Hs (S k)) as H.
  cbv zeta in H. unfold currentAfter in H.
  destruct H as (Hv & Hidx & Hms & (_ & Hday) & H28).
  repeat split; try assumption.
  change (monthIndex (Nat.iter (S k) (advance (monthsPerPeriod (frequency b)))
                               (start (maturity b)))
          = monthIndex (start (maturity b))
            + (Z.of_nat k + 1) * (12 / freqZ (frequency b))).
  rewrite Hidx. unfold monthsPerPeriod. lia.
Qed.

Lemma schedule_month_arithmetic_witness :
  let b := Examples.defaultBond in
  let d := ymd 2026 1 1 in
  validDate d = true /\
  monthIndex d = monthIndex (ymd 2025 1 1) + (Z.of_nat 1 + 1) * (12 / 2) /\
  msOfDay d = 0 /\ day d <= 1 /\ (1 <= 28 -> day d = 1).
Proof.
  apply (schedule_month_arithmetic Examples.defaultBond 1 (ymd 2026 1 1));
    try reflexivity.
  vm_compute. lia.
Defined.

End ScheduleMore.

(** ** Day-count conventions *)

Section DayCountMore.
Import DayCountCalculator.
Local Open Scope Q_scope.

Lemma msPerDay_pos : 0 < inject_Z msPerDay.
Proof. reflexivity. Qed.

Lemma actual_elapsed (s e : Date) :
  (getTime s <= getTime e)%Z -> actual s e == elapsedDays s e.
Proof.
  intros H. unfold actual, diffDays, elapsedDays. apply Qabs_pos.
  apply Qdiv_nonneg; [apply inject_Z_nonneg; lia | exact msPerDay_pos].
Qed.

Lemma elapsedDays_pos (s e : Date) :
  (getTime s < getTime e)%Z -> 0 < elapsedDays s e.
Proof.
  intros H. unfold elapsedDays. apply Qlt_shift_div_l; [exact msPerDay_pos|].
  rewrite Qmult_0_l. apply inject_Z_pos. lia.
Qed.

Lemma elapsedDays_add (s m e : Date) :
  elapsedDays s e == elapsedDays s m + elapsedDays m e.
Proof.
  unfold elapsedDays.
  replace (getTime e - getTime s)%Z
    with ((getTime m - getTime s) + (getTime e - getTime m))%Z by lia.
  rewrite inject_Z_plus. field. discriminate.
Qed.

Lemma yearFraction_actual_fixed (s e : Date) :
  (getTime s <= getTime e)%Z ->
  yearFraction s e ACTUAL_360 == elapsedDays s e / 360 /\
  yearFraction s e ACTUAL_365 == elapsedDays s e / 365.
Proof.
  intros H. unfold yearFraction.
  destruct (getTime e <=? getTime s)%Z eqn:E.
  - apply Z.leb_le in E. unfold elapsedDays.
    replace (getTime e - getTime s)%Z with 0%Z by lia. split; reflexivity.
  - rewrite (actual_elapsed s e H). split; reflexivity.
Qed.

(** X3.  Under ACTUAL/360 and ACTUAL/365 the year fraction is additive
    over adjacent intervals: for instants s <= m <= e,
    yearFraction(s, e) = yearFraction(s, m) + yearFraction(m, e). *)
Theorem yearFraction_actual_additive (s m e : Date) (c : DayCountConvention) :
  c = ACTUAL_360 \/ c = ACTUAL_365 ->
  (getTime s <= getTime m)%Z -> (getTime m <= getTime e)%Z ->
  yearFraction s e c == yearFraction s m c + yearFraction m e c.
Proof.
  intros Hc Hsm Hme.
  destruct (yearFraction_actual_fixed s e ltac:(lia)) as (H1 & H2).
  destruct (yearFraction_actual_fixed s m Hsm) as (H3 & H4).
  destruct (yearFraction_actual_fixed m e Hme) as (H5 & H6).
  pose proof (elapsedDays_add s m e) as Hadd.
  destruct Hc as [-> | ->].
  - rewrite H1, H3, H5, Hadd. field.
  - rewrite H2, H4, H6, Hadd. field.
Qed.

Lemma yearFraction_actual_additive_witness :
  yearFraction (ymd 2025 1 1) (ymd 2026 1 1) ACTUAL_365
  == yearFraction (ymd 2025 1 1) (ymd 2025 7 1) ACTUAL_365
     + yearFraction (ymd 2025 7 1) (ymd 2026 1 1) ACTUAL_365.
Proof.
  apply (yearFraction_actual_additive (ymd 2025 1 1) (ymd 2025 7 1) (ymd 2026 1 1)
           ACTUAL_365); [now right | vm_compute; discriminate | vm_compute; discriminate].
Defined.

Lemma actualActualLoop_ge (fuel : nat) :
  forall current e sum, sum <= actualActualLoop fuel current e sum.
Proof.
  induction fuel as [|k IH]; intros current e sum; cbn [actualActualLoop];
    [apply Qle_refl|].
  destruct (getTime current <? getTime e)%Z; [|apply Qle_refl].
  eapply Qle_trans; [|apply IH].
  rewrite <- (Qplus_0_r sum) at 1. apply Qplus_le_compat; [apply Qle_refl|].
  apply Qdiv_nonneg; [apply Qabs_nonneg|].
  apply inject_Z_pos. pose proof (daysInYear_bounds (year current)). lia.
Qed.

Lemma validDate_plusOneDay_endOfYear (d : Date) :
  plusOneDay (endOfYear d) = mkDate (year d + 1) 1 1 (msPerDay - 1).
Proof. reflexivity. Qed.

Lemma getTime_before_next_year (c : Date) :
  validDate c = true ->
  (getTime c < getTime (mkDate (year c + 1) 1 1 (msPerDay - 1)))%Z.
Proof.
  intros Hc. apply getTime_month_lt; [assumption | reflexivity|].
  apply validDate_spec in Hc. unfold monthIndex. cbn [year month]. lia.
Qed.

Lemma daysInYear_pos (y : Z) : 0 < inject_Z (daysInYear y).
Proof. apply inject_Z_pos. pose proof (daysInYear_bounds y). lia. Qed.

(** The year-by-year sum of ACTUAL/ACTUAL over an interval that ends
    after it starts is positive: its first term is. *)
Lemma actualActual_pos (s e : Date) :
  validDate s = true -> (getTime s < getTime e)%Z -> 0 < actualActual s e.
Proof.
  intros Hs Hlt. unfold actualActual, actualActualFuel.
  replace (Z.to_nat (year e - year s) + 2)%nat
    with (S (S (Z.to_nat (year e - year s)))) by lia.
  generalize (S (Z.to_nat (year e - year s))). intros k.
  cbn [actualActualLoop].
  replace (getTime s <? getTime e)%Z with true by (symmetry; now apply Z.ltb_lt).
  eapply Qlt_le_trans; [|apply actualActualLoop_ge].
  rewrite Qplus_0_l.
  apply Qlt_shift_div_l; [apply daysInYear_pos | rewrite Qmult_0_l].
  assert (Hne : (getTime s <
                 getTime (if (getTime (endOfYear s) <? getTime e)%Z
                          then plusOneDay (endOfYear s) else e))%Z).
  { destruct (getTime (endOfYear s) <? getTime e)%Z; [|assumption].
    rewrite validDate_plusOneDay_endOfYear. now apply getTime_before_next_year. }
  set (nb := if (getTime (endOfYear s) <? getTime e)%Z
             then plusOneDay (endOfYear s) else e) in *.
  change (0 < actual s nb). rewrite (actual_elapsed s nb ltac:(lia)).
  now apply elapsedDays_pos.
Qed.

Lemma actual_pos (s e : Date) : (getTime s < getTime e)%Z -> 0 < actual s e.
Proof.
  intros Hlt. rewrite (actual_elapsed s e ltac:(lia)). now apply elapsedDays_pos.
Qed.

Lemma yearFraction_actual_pos (s e : Date) (c : DayCountConvention) :
  c = ACTUAL_360 \/ c = ACTUAL_365 \/ c = ACTUAL_ACTUAL ->
  validDate s = true ->
  (getTime s < getTime e)%Z ->
  0 < yearFraction s e c.
Proof.
  intros Hc Hs Hlt. pose proof (actual_pos s e Hlt) as Hpos. unfold yearFraction.
  replace (getTime e <=? getTime s)%Z with false by (symmetry; apply Z.leb_gt; lia).
  destruct Hc as [-> | [-> | ->]].
  - apply Qlt_shift_div_l; [reflexivity | now rewrite Qmult_0_l].
  - apply Qlt_shift_div_l; [reflexivity | now rewrite Qmult_0_l].
  - now apply actualActual_pos.
Qed.

(** X4.  Under the three ACTUAL conventions the year fraction of an
    interval that ends after it starts is strictly positive (the 30/360
    conventions can give zero, as from the 30th to the 31st), and under
    ACTUAL/360 it is the largest of the two fixed-basis fractions. *)
Theorem yearFraction_actual_positive (s e : Date) (c : DayCountConvention) :
  c = ACTUAL_360 \/ c = ACTUAL_365 \/ c = ACTUAL_ACTUAL ->
  validDate s = true ->
  (getTime s < getTime e)%Z ->
  0 < yearFraction s e c /\
  yearFraction s e ACTUAL_365 < yearFraction s e ACTUAL_360.
Proof.
  intros Hc Hs Hlt. pose proof (actual_pos s e Hlt) as Hpos.
  assert (Hguard : (getTime e <=? getTime s)%Z = false) by (apply Z.leb_gt; lia).
  unfold yearFraction. rewrite Hguard. split.
  - destruct Hc as [-> | [-> | ->]].
    + apply Qlt_shift_div_l; [reflexivity | now rewrite Qmult_0_l].
    + apply Qlt_shift_div_l; [reflexivity | now rewrite Qmult_0_l].
    + now apply actualActual_pos.
  - unfold Qdiv. set (a := actual s e) in *.
    assert (H1 : a * / 365 == a * (1 # 365)) by reflexivity.
    assert (H2 : a * / 360 == a * (1 # 360)) by reflexivity.
    rewrite H1, H2. lra.
Qed.

Lemma yearFraction_actual_positive_witness :
  0 < yearFraction (ymd 2024 12 31) (ymd 2025 1 1) ACTUAL_ACTUAL.
Proof.
  refine (proj1 (yearFraction_actual_positive (ymd 2024 12 31) (ymd 2025 1 1)
                   ACTUAL_ACTUAL (or_intror (or_intror eq_refl)) eq_refl eq_refl)).
Defined.

End DayCountMore.

Section DayCountCalendar.
Import DayCountCalculator.
Local Open Scope Q_scope.

Lemma same_year_before_endOfYear (s e : Date) :
  validDate e = true -> year e = year s ->
  (getTime e <= getTime (endOfYear s))%Z.
Proof.
  intros He Hy.
  destruct (Z_le_gt_dec (getTime e) (getTime (endOfYear s))) as [|Hgt];
    [assumption|].
  pose proof (endOfYear_lt_year s e He ltac:(lia)). lia.
Qed.

Lemma later_year_after_endOfYear (s e : Date) :
  validDate e = true -> (year s < year e)%Z ->
  (getTime (endOfYear s) < getTime e)%Z.
Proof.
  intros He Hy. apply getTime_month_lt; [reflexivity | assumption|].
  apply validDate_spec in He. unfold monthIndex. cbn [endOfYear year month]. lia.
Qed.

(** X5.  ACTUAL/ACTUAL.  Within one calendar year the fraction is the
    elapsed days over the length of that year (365 or 366).  Across one
    year boundary the interval is cut at 23:59:59.999 on 1 January of the
    later year, not at midnight: the part up to that instant (or the whole
    of it, should the end fall earlier on 1 January) is counted in days of
    the earlier year and over the earlier year's length, the rest over the
    later year's. *)
Theorem actualActual_by_year (s e : Date) :
  validDate s = true -> validDate e = true ->
  (getTime s < getTime e)%Z ->
  (year e = year s ->
   yearFraction s e ACTUAL_ACTUAL
   == elapsedDays s e / inject_Z (daysInYear (year s))) /\
  (year e = (year s + 1)%Z ->
   yearFraction s e ACTUAL_ACTUAL
   == elapsedDays s (yearBreak s) / inject_Z (daysInYear (year s))
      + (if (getTime (yearBreak s) <? getTime e)%Z
         then elapsedDays (yearBreak s) e / inject_Z (daysInYear (year s + 1))
         else 0)).
Proof.
  intros Hs He Hlt. unfold yearFraction.
  replace (getTime e <=? getTime s)%Z with false by (symmetry; apply Z.leb_gt; lia).
  unfold actualActual, actualActualFuel. split; intros Hy.
  - replace (Z.to_nat (year e - year s) + 2)%nat with 2%nat by lia.
    cbn [actualActualLoop].
    replace (getTime s <? getTime e)%Z with true by (symmetry; now apply Z.ltb_lt).
    pose proof (same_year_before_endOfYear s e He Hy) as Hend.
    replace (getTime (endOfYear s) <? getTime e)%Z with false
      by (symmetry; apply Z.ltb_ge; lia).
    rewrite Z.ltb_irrefl. rewrite Qplus_0_l.
    change (Qabs (diffDays e s)) with (actual s e).
    now rewrite (actual_elapsed s e ltac:(lia)).
  - replace (Z.to_nat (year e - year s) + 2)%nat with 3%nat by lia.
    pose proof (later_year_after_endOfYear s e He ltac:(lia)) as Hend.
    pose proof (getTime_before_next_year s Hs) as Hbreak.
    fold (yearBreak s) in Hbreak.
    cbn [actualActualLoop].
    replace (getTime s <? getTime e)%Z with true by (symmetry; now apply Z.ltb_lt).
    replace (getTime (endOfYear s) <? getTime e)%Z with true
      by (symmetry; now apply Z.ltb_lt).
    rewrite validDate_plusOneDay_endOfYear. fold (yearBreak s).
    change (Qabs (diffDays (yearBreak s) s)) with (actual s (yearBreak s)).
    destruct (getTime (yearBreak s) <? getTime e)%Z eqn:E2.
    + apply Z.ltb_lt in E2.
      assert (Hend2 : (getTime e <= getTime (endOfYear (yearBreak s)))%Z).
      { apply same_year_before_endOfYear; [assumption|]. cbn [yearBreak year]. lia. }
      replace (getTime (endOfYear (yearBreak s)) <? getTime e)%Z with false
        by (symmetry; apply Z.ltb_ge; lia).
      rewrite Z.ltb_irrefl.
      change (Qabs (diffDays e (yearBreak s))) with (actual (yearBreak s) e).
      rewrite (actual_elapsed (yearBreak s) e ltac:(lia)).
      rewrite (actual_elapsed s (yearBreak s) ltac:(lia)). rewrite Qplus_0_l.
      reflexivity.
    + rewrite (actual_elapsed s (yearBreak s) ltac:(lia)). ring.
Qed.

Lemma actualActual_by_year_witness :
  yearFraction (ymd 2025 3 1) (ymd 2025 9 1) ACTUAL_ACTUAL
  == elapsedDays (ymd 2025 3 1) (ymd 2025 9 1) / inject_Z (daysInYear 2025)
  /\ yearFraction (ymd 2024 12 31) (ymd 2025 1 1) ACTUAL_ACTUAL
     == elapsedDays (ymd 2024 12 31) (yearBreak (ymd 2024 12 31))
        / inject_Z (daysInYear 2024) + 0.
Proof.
  split.
  - refine (proj1 (actualActual_by_year (ymd 2025 3 1) (ymd 2025 9 1)
                     eq_refl eq_refl eq_refl) eq_refl).
  - refine (proj2 (actualActual_by_year (ymd 2024 12 31) (ymd 2025 1 1)
                     eq_refl eq_refl eq_refl) eq_refl).
Defined.

(** Two dates on the same day of the month are a whole number of 30-day
    months apart, under either 30/360 rule. *)
Lemma days360_months (s e : Date) (d2 d1 : Z) :
  d2 = d1 ->
  inject_Z ((year e - year s) * 360 + (month e - month s) * 30 + (d2 - d1)) / 360
  == inject_Z (monthIndex e - monthIndex s) / 12.
Proof.
  intros ->. unfold monthIndex.
  replace ((year e - year s) * 360 + (month e - month s) * 30 + (d1 - d1))%Z
    with (30 * (12 * year e + (month e - 1) - (12 * year s + (month s - 1))))%Z
    by lia.
  rewrite inject_Z_mult. field.
Qed.

Lemma thirtyUS360_same_day (s e : Date) :
  day e = day s ->
  thirtyUS360 s e == inject_Z (monthIndex e - monthIndex s) / 12.
Proof.
  intros Hd. unfold thirtyUS360. apply days360_months.
  rewrite Hd. destruct (day s =? 31)%Z eqn:E; cbn [andb]; reflexivity.
Qed.

Lemma thirtyE360_same_day (s e : Date) :
  day e = day s ->
  thirtyE360 s e == inject_Z (monthIndex e - monthIndex s) / 12.
Proof.
  intros Hd. unfold thirtyE360. apply days360_months. now rewrite Hd.
Qed.

Lemma thirty360_same_day (s e : Date) (c : DayCountConvention) :
  c = THIRTY_360 \/ c = THIRTY_U_360 \/ c = THIRTY_E_360 ->
  (getTime s < getTime e)%Z -> day e = day s ->
  yearFraction s e c == inject_Z (monthIndex e - monthIndex s) / 12.
Proof.
  intros Hc Hlt Hd. unfold yearFraction.
  replace (getTime e <=? getTime s)%Z with false by (symmetry; apply Z.leb_gt; lia).
  destruct Hc as [-> | [-> | ->]];
    auto using thirtyUS360_same_day, thirtyE360_same_day.
Qed.

(** X6.  Under the three 30/360 conventions, two dates that share their
    day of the month are a whole number of months apart: the fraction is
    exactly the number of calendar months between them over 12, so the
    three conventions agree on such dates. *)
Theorem thirty360_whole_months (s e : Date) (c : DayCountConvention) :
  c = THIRTY_360 \/ c = THIRTY_U_360 \/ c = THIRTY_E_360 ->
  (getTime s < getTime e)%Z -> day e = day s ->
  yearFraction s e c == inject_Z (monthIndex e - monthIndex s) / 12 /\
  yearFraction s e c == yearFraction s e THIRTY_360 /\
  yearFraction s e c == yearFraction s e THIRTY_E_360.
Proof.
  intros Hc Hlt Hd.
  assert (Hguard : (getTime e <=? getTime s)%Z = false) by (apply Z.leb_gt; lia).
  pose proof (thirtyUS360_same_day s e Hd) as Hus.
  pose proof (thirtyE360_same_day s e Hd) as Heu.
  unfold yearFraction. rewrite Hguard.
  destruct Hc as [-> | [-> | ->]].
  - split; [exact Hus|]. split; [reflexivity|]. now rewrite Hus, Heu.
  - split; [exact Hus|]. split; [reflexivity|]. now rewrite Hus, Heu.
  - split; [exact Heu|]. split; [|reflexivity]. now rewrite Hus, Heu.
Qed.

Lemma thirty360_whole_months_witness :
  yearFraction (ymd 2025 1 31) (ymd 2025 7 31) THIRTY_360
  == inject_Z (monthIndex (ymd 2025 7 31) - monthIndex (ymd 2025 1 31)) / 12.
Proof.
  refine (proj1 (thirty360_whole_months (ymd 2025 1 31) (ymd 2025 7 31) THIRTY_360
                   (or_introl eq_refl) eq_refl eq_refl)).
Defined.

End DayCountCalendar.

(** ** More on the cashflow table *)

Section CashflowMore.
Import BondCashflow Schedule DayCountCalculator MajikBondQueries.
Local Open Scope Q_scope.

Lemma roundHalfEven_comp (x y : Q) : x == y -> roundHalfEven x = roundHalfEven y.
Proof.
  intros H. unfold roundHalfEven. rewrite (Qfloor_comp x y H).
  assert (Hr : x - inject_Z (Qfloor y) == y - inject_Z (Qfloor y))
    by (rewrite H; reflexivity).
  assert (H1 : Qltb (x - inject_Z (Qfloor y)) (1 # 2)
               = Qltb (y - inject_Z (Qfloor y)) (1 # 2)).
  { destruct (Qltb (y - inject_Z (Qfloor y)) (1 # 2)) eqn:E.
    - apply Qltb_true in E. apply Qltb_true. now rewrite Hr.
    - apply Qltb_false in E. apply Qltb_false. now rewrite Hr. }
  assert (H2 : Qltb (1 # 2) (x - inject_Z (Qfloor y))
               = Qltb (1 # 2) (y - inject_Z (Qfloor y))).
  { destruct (Qltb (1 # 2) (y - inject_Z (Qfloor y))) eqn:E.
    - apply Qltb_true in E. apply Qltb_true. now rewrite Hr.
    - apply Qltb_false in E. apply Qltb_false. now rewrite Hr. }
  now rewrite H1, H2.
Qed.

Lemma roundHalfEven_integer (x : Q) (z : Z) :
  x == inject_Z z -> roundHalfEven x = z.
Proof.
  intros H. rewrite (roundHalfEven_comp _ _ H). unfold roundHalfEven.
  rewrite Qfloor_Z.
  replace (Qltb (inject_Z z - inject_Z z) (1 # 2)) with true; [reflexivity|].
  symmetry. apply Qltb_true. lra.
Qed.

Lemma generate_length (b : MajikBond) :
  List.length (generate b) = List.length (generateCouponSchedule b).
Proof.
  unfold generate, generateCouponSchedule.
  rewrite length_map, length_combine, length_seq. apply Nat.min_id.
Qed.

(** X7.  The cashflow table has one row per scheduled coupon date, numbered
    from 1 and labelled with that date.  On every row but the last the
    principal is zero and the total is the stored interest; on the last row
    the principal is the face value rounded to whole major units, which is
    the face value itself when that is a whole number of major units. *)
Theorem generate_rows (b : MajikBond) :
  let schedule := generateCouponSchedule b in
  let n := List.length schedule in
  List.length (generate b) = n /\
  forall (idx : nat) (r : CashflowSummary),
    nth_error (generate b) idx = Some r ->
    period r = (Z.of_nat idx + 1)%Z /\
    nth_error schedule idx = Some (dateLabel r) /\
    ((S idx < n)%nat ->
     Money.eq (principal r) (Money.fromMinor 0 (currency (faceValue b))) /\
     total r = interest r) /\
    (S idx = n ->
     Money.toMajorDecimal (principal r)
     == inject_Z (roundHalfEven (Money.toMajorDecimal (faceValue b))) /\
     forall z : Z,
       Money.toMajorDecimal (faceValue b) == inject_Z z ->
       Money.eq (principal r) (faceValue b)).
Proof.
  cbv zeta. split; [apply generate_length|].
  intros idx r Hnth. rewrite generate_nth in Hnth.
  destruct (nth_error (generateCouponSchedule b) idx) as [d|] eqn:Ed; [|discriminate].
  cbn [option_map] in Hnth. injection Hnth as <-. unfold row.
  cbn [period dateLabel principal total interest].
  split; [reflexivity|]. split; [reflexivity|]. split.
  - intros Hlt. unfold principalMaj.
    replace (idx =? List.length (generateCouponSchedule b) - 1)%nat with false
      by (symmetry; apply Nat.eqb_neq; lia).
    split.
    + split; [reflexivity|]. unfold rounded, Money.fromMajor, Money.fromMinor.
      cbn [minorUnits]. change (roundHalfEven 0) with 0%Z. ring.
    + unfold rounded. f_equal. f_equal. apply roundHalfEven_comp. ring.
  - intros Hlast. unfold principalMaj.
    replace (idx =? List.length (generateCouponSchedule b) - 1)%nat with true
      by (symmetry; apply Nat.eqb_eq; lia).
    unfold rounded. rewrite toMajor_fromMajor. split; [reflexivity|].
    intros z Hz. split; [reflexivity|].
    rewrite (roundHalfEven_integer _ z Hz).
    unfold Money.fromMajor. cbn [minorUnits]. rewrite <- Hz.
    unfold Money.toMajorDecimal. field.
    pose proof (scale_pos (currency (faceValue b))) as Hs.
    intros E. rewrite E in Hs. now apply (Qlt_irrefl 0).
Qed.

Lemma generate_rows_witness :
  exists r,
    nth_error (generate Examples.defaultBond) 9 = Some r /\
    Money.eq (principal r) (faceValue Examples.defaultBond).
Proof.
  destruct (nth_error (generate Examples.defaultBond) 9) as [r|] eqn:Er;
    [|vm_compute in Er; discriminate Er].
  exists r. split; [reflexivity|].
  destruct (generate_rows Examples.defaultBond) as (_ & H).
  destruct (H 9%nat r Er) as (_ & _ & _ & Hlast).
  refine (proj2 (Hlast eq_refl) 5000%Z _). reflexivity.
Defined.


Lemma monthsPerPeriod_fraction (f : CouponFrequency) :
  inject_Z (monthsPerPeriod f) / 12 == 1 / freqQ f.
Proof. destruct f; reflexivity. Qed.



End CashflowMore.

(** ** More on accrued interest *)

Section AccrualMore.
Import BondAccrual DayCountCalculator.
Local Open Scope Q_scope.

Lemma validBond_spec (b : MajikBond) :
  validBond b = true ->
  validDate (start (maturity b)) = true /\
  validDate (end_ (maturity b)) = true /\
  (getTime (start (maturity b)) < getTime (end_ (maturity b)))%Z /\
  0 < minorUnits (faceValue b) /\
  0 <= couponRate b /\ 0 <= marketRate b /\ 0 < buy (price b) /\
  (forall s, sell (price b) = Some s -> 0 < s) /\
  (0 <= interestFWT (tax b) <= 1) /\
  (0 <= capitalGains (tax b) <= 1) /\
  (0 <= estateOrDonor (tax b) <= 1).
Proof.
  unfold validBond, unitRate.
  rewrite !andb_true_iff, Z.ltb_lt, !Qltb_true, !Qle_bool_iff.
  intros H. decompose [and] H. repeat split; try assumption.
  intros s Hs. rewrite Hs in *. now apply Qltb_true.
Qed.

Lemma last_default {A : Type} (l : list A) (x d1 d2 : A) :
  last (x :: l) d1 = last (x :: l) d2.
Proof.
  revert x. induction l as [|y l IH]; intros x; [reflexivity|].
  change (last (y :: l) d1 = last (y :: l) d2). apply IH.
Qed.

Lemma findLastCoupon_all_passed (v : Date) (l : list Date) :
  forall init,
    Forall (fun d => (getTime d <= getTime v)%Z) l ->
    findLastCoupon v l init = last l init.
Proof.
  induction l as [|a l IH]; intros init H; [reflexivity|].
  inversion H as [|? ? Ha Hl]; subst. cbn [findLastCoupon].
  replace (getTime v <? getTime a)%Z with false by (symmetry; apply Z.ltb_ge; lia).
  rewrite (IH a Hl). destruct l as [|d l]; [reflexivity|].
  change (last (a :: d :: l) init) with (last (d :: l) init). apply last_default.
Qed.

Lemma schedule_last_is_end (b : MajikBond) :
  validDate (start (maturity b)) = true ->
  validDate (end_ (maturity b)) = true ->
  (getTime (start (maturity b)) < getTime (end_ (maturity b)))%Z ->
  exists init,
    generateCouponSchedule b = init ++ [end_ (maturity b)].
Proof.
  intros Hs He Hlt.
  pose proof (scheduleLoop_props (Schedule.monthsPerPeriod (frequency b))
                (end_ (maturity b)) (monthsPerPeriod_pos _) He
                (Schedule.scheduleFuel (start (maturity b)) (end_ (maturity b)))
                (start (maturity b)) Hs (Nat.le_refl _)) as H.
  cbv zeta in H. destruct H as (_ & _ & Hlast & _).
  destruct (Hlast Hlt) as (init & x & Heq & Hx).
  pose proof (schedule_valid b Hs He) as Hvalid.
  unfold generateCouponSchedule, Schedule.couponDates in *.
  rewrite Heq in Hvalid. apply Forall_app in Hvalid. destruct Hvalid as (_ & Hvx).
  inversion Hvx as [|? ? Hxv _]; subst.
  exists init. rewrite Heq. do 2 f_equal. now apply getTime_inj.
Qed.

(** X9.  After maturity interest keeps accruing: for a valuation date
    later than the maturity end the last coupon found is the maturity date
    itself, and the accrued interest is the rounded amount
    faceValue * couponRate * yearFraction(maturityEnd, asOfDate) (net of
    withholding when tax is enabled), which under the ACTUAL conventions is
    never cut to zero by the fraction guard. *)
Theorem accruedInterest_after_maturity (b : MajikBond) (asOfDate : Date) :
  validDate (start (maturity b)) = true ->
  validDate (end_ (maturity b)) = true ->
  (getTime (start (maturity b)) < getTime (end_ (maturity b)))%Z ->
  (getTime (end_ (maturity b)) < getTime asOfDate)%Z ->
  let fraction := yearFraction (end_ (maturity b)) asOfDate (dayCount b) in
  let amount :=
    Money.fromMajor (inject_Z (roundHalfEven (accruedMajor b fraction)))
                    (currency (faceValue b)) in
  accruedInterest b asOfDate
  = (if Qle_bool fraction 0
     then Money.fromMinor 0 (currency (faceValue b)) else amount) /\
  (dayCount b = ACTUAL_360 \/ dayCount b = ACTUAL_365 \/ dayCount b = ACTUAL_ACTUAL ->
   0 < fraction /\ accruedInterest b asOfDate = amount).
Proof.
  intros Hs He Hlt Hafter. cbv zeta.
  destruct (schedule_last_is_end b Hs He Hlt) as (init & Heq).
  pose proof (scheduleLoop_props (Schedule.monthsPerPeriod (frequency b))
                (end_ (maturity b)) (monthsPerPeriod_pos _) He
                (Schedule.scheduleFuel (start (maturity b)) (end_ (maturity b)))
                (start (maturity b)) Hs (Nat.le_refl _)) as H.
  cbv zeta in H. destruct H as (Hall & _).
  fold (Schedule.couponDates (start (maturity b)) (end_ (maturity b)) (frequency b)) in Hall.
  fold (generateCouponSchedule b) in Hall.
  assert (Hpassed : Forall (fun d => (getTime d <= getTime asOfDate)%Z)
                           (generateCouponSchedule b)).
  { eapply Forall_impl; [|exact Hall]. cbv beta. intros d Hd. lia. }
  assert (Hformula :
    accruedInterest b asOfDate
    = (if Qle_bool (yearFraction (end_ (maturity b)) asOfDate (dayCount b)) 0
       then Money.fromMinor 0 (currency (faceValue b))
       else Money.fromMajor
              (inject_Z (roundHalfEven
                 (accruedMajor b (yearFraction (end_ (maturity b)) asOfDate (dayCount b)))))
              (currency (faceValue b)))).
  { unfold accruedInterest.
    rewrite (findLastCoupon_all_passed asOfDate _ (start (maturity b)) Hpassed).
    destruct (generateCouponSchedule b) as [|first rest] eqn:Es.
    { destruct init; discriminate Heq. }
    inversion Hpassed as [|? ? Hfirst _]; subst.
    assert (Hf : (getTime first <= getTime (end_ (maturity b)))%Z).
    { inversion Hall as [|? ? Hf' _]; subst. lia. }
    replace (getTime asOfDate <=? getTime first)%Z with false
      by (symmetry; apply Z.leb_gt; lia).
    rewrite Heq, last_last. reflexivity. }
  split; [exact Hformula|].
  intros Hc.
  pose proof (yearFraction_actual_pos (end_ (maturity b)) asOfDate (dayCount b)
                Hc He Hafter) as Hpos.
  split; [exact Hpos|]. rewrite Hformula.
  replace (Qle_bool (yearFraction (end_ (maturity b)) asOfDate (dayCount b)) 0)
    with false; [reflexivity|].
  symmetry. now apply Qle_bool_false.
Qed.

Lemma accruedInterest_after_maturity_witness :
  let b := Examples.defaultBond in
  let fraction := yearFraction (ymd 2030 1 1) (ymd 2030 7 1) ACTUAL_365 in
  0 < fraction /\
  accruedInterest b (ymd 2030 7 1)
  = Money.fromMajor (inject_Z (roundHalfEven (accruedMajor b fraction))) Money.PHP.
Proof.
  refine (proj2 (accruedInterest_after_maturity Examples.defaultBond (ymd 2030 7 1)
                   eq_refl eq_refl eq_refl eq_refl) _).
  right. left. reflexivity.
Defined.

(** X10.  For a bond that satisfies the data-model invariants the accrued
    interest is never negative, on any date and with or without tax. *)
Theorem accruedInterest_nonneg (b : MajikBond) (asOfDate : Date) :
  validBond b = true ->
  0 <= minorUnits (accruedInterest b asOfDate).
Proof.
  intros Hb. apply validBond_spec in Hb.
  destruct Hb as (_ & _ & _ & Hface & Hrate & _ & _ & _ & (Hf0 & Hf1) & _).
  pose proof (toMajorDecimal_pos _ Hface) as HF.
  unfold accruedInterest.
  destruct (generateCouponSchedule b) as [|first rest]; [apply Qle_refl|].
  destruct (getTime asOfDate <=? getTime first)%Z; [apply Qle_refl|].
  set (fraction := yearFraction _ asOfDate (dayCount b)).
  destruct (Qle_bool fraction 0) eqn:Ef; [apply Qle_refl|].
  apply Qle_bool_false in Ef.
  apply fromMajor_Z_sign.
  pose proof (roundHalfEven_floor (accruedMajor b fraction)) as [Hfl _].
  assert (0 <= Qfloor (accruedMajor b fraction))%Z; [|lia].
  change 0%Z with (Qfloor 0). apply Qfloor_resp_le.
  unfold accruedMajor.
  assert (Hg : 0 <= Money.toMajorDecimal (faceValue b) * couponRate b * fraction).
  { apply Qmult_le_0_compat; [apply Qmult_le_0_compat|];
      try assumption; now apply Qlt_le_weak. }
  destruct (enabled (tax b) && truthy (interestFWT (tax b))); [|exact Hg].
  set (g := Money.toMajorDecimal (faceValue b) * couponRate b * fraction) in *.
  assert (Hprod : 0 <= g * (1 - interestFWT (tax b)))
    by (apply Qmult_le_0_compat; [assumption | lra]).
  lra.
Qed.

Lemma accruedInterest_nonneg_witness :
  0 <= minorUnits (accruedInterest Examples.taxedBond (ymd 2026 3 1)).
Proof.
  apply (accruedInterest_nonneg Examples.taxedBond (ymd 2026 3 1)). reflexivity.
Defined.

End AccrualMore.

(** ** More on pricing and the solver *)

Section PricingMore.
Import BondPricing BondAnalytics DayCountCalculator.
Local Open Scope Q_scope.

Variable pow : Q -> Q -> Q.
Hypothesis pow_law : PowLaw pow.

Lemma faceMaj_nonzero (b : MajikBond) :
  0 < minorUnits (faceValue b) -> ~ Money.toMajorDecimal (faceValue b) == 0.
Proof.
  intros H E. pose proof (toMajorDecimal_pos _ H) as Hp.
  rewrite E in Hp. now apply (Qlt_irrefl 0).
Qed.

Lemma discountedCoupons_passed (b : MajikBond) (base : Q) (asOf : Date) :
  forall (l : list Date) (acc : Q),
    Forall (fun d => (getTime d <= getTime asOf)%Z) l ->
    fold_left
      (fun priceMaj couponDate =>
         let t := yearFraction asOf couponDate (dayCount b) * freqQ (frequency b) in
         if Qle_bool t 0 then priceMaj
         else priceMaj + couponMaj b / pow base t)
      l acc = acc.
Proof.
  induction l as [|d l IH]; intros acc H; [reflexivity|].
  inversion H as [|? ? Hd Hl]; subst. cbn [fold_left]. cbv zeta.
  assert (Hyf : yearFraction asOf d (dayCount b) = 0)
    by (unfold yearFraction; apply Z.leb_le in Hd; now rewrite Hd).
  rewrite Hyf.
  replace (Qle_bool (0 * freqQ (frequency b)) 0) with true
    by (symmetry; apply Qle_bool_iff; rewrite Qmult_0_l; apply Qle_refl).
  now apply IH.
Qed.

(** X11.  Valued on or after its maturity date a bond has clean price 1,
    whatever the discount rate: no coupon is left and the face value is
    discounted over zero periods.  Its dirty price is 1 plus the accrued
    interest per unit of face value. *)
Theorem computePrice_after_maturity (b : MajikBond) (rate : Q) (asOfDate : Date) :
  validDate (start (maturity b)) = true ->
  validDate (end_ (maturity b)) = true ->
  (getTime (start (maturity b)) < getTime (end_ (maturity b)))%Z ->
  (getTime (end_ (maturity b)) <= getTime asOfDate)%Z ->
  0 < minorUnits (faceValue b) ->
  computePrice pow b rate asOfDate Clean == 1 /\
  computePrice pow b rate asOfDate Dirty
  == 1 + Money.toMajorDecimal (BondAccrual.accruedInterest b asOfDate)
         / Money.toMajorDecimal (faceValue b).
Proof.
  intros Hs He Hlt Hafter Hface.
  pose proof (faceMaj_nonzero b Hface) as HF.
  destruct (schedule_last_is_end b Hs He Hlt) as (init & Heq).
  pose proof (scheduleLoop_props (Schedule.monthsPerPeriod (frequency b))
                (end_ (maturity b)) (monthsPerPeriod_pos _) He
                (Schedule.scheduleFuel (start (maturity b)) (end_ (maturity b)))
                (start (maturity b)) Hs (Nat.le_refl _)) as H.
  cbv zeta in H. destruct H as (Hall & _).
  fold (Schedule.couponDates (start (maturity b)) (end_ (maturity b)) (frequency b)) in Hall.
  fold (generateCouponSchedule b) in Hall.
  assert (Hpassed : Forall (fun d => (getTime d <= getTime asOfDate)%Z)
                           (generateCouponSchedule b)).
  { eapply Forall_impl; [|exact Hall]. cbv beta. intros d Hd. lia. }
  assert (Hlastt : match last (map Some (generateCouponSchedule b)) None with
                   | Some d => yearFraction asOfDate d (dayCount b)
                   | None => 0
                   end * freqQ (frequency b) == inject_Z 0).
  { rewrite Heq, map_app. cbn [map]. rewrite last_last.
    unfold yearFraction. apply Z.leb_le in Hafter. rewrite Hafter.
    now rewrite Qmult_0_l. }
  unfold computePrice, discountedCoupons.
  rewrite (discountedCoupons_passed b _ asOfDate _ 0 Hpassed).
  rewrite (pow_law _ _ 0%Z Hlastt). change (Qpower _ 0) with 1.
  split; field; assumption.
Qed.

(** A level annuity at the coupon rate plus the discounted face value is
    the face value. *)
Lemma annuity_par (c base face : Q) :
  ~ base == 0 -> c == face * (base - 1) ->
  forall n, annuity c base n + face / Qpower base (Z.of_nat n) == face.
Proof.
  intros Hb Hc. induction n as [|n IH].
  - cbn [annuity]. change (Qpower base (Z.of_nat 0)) with 1. field.
  - cbn [annuity].
    assert (Hp : Qpower base (Z.of_nat (S n)) == Qpower base (Z.of_nat n) * base).
    { rewrite Nat2Z.inj_succ. unfold Z.succ. rewrite Qpower_plus by assumption.
      change (Qpower base 1) with base. reflexivity. }
    pose proof (Qpower_not_0 base (Z.of_nat n) Hb) as Hn.
    assert (Ha : annuity c base n == face - face / Qpower base (Z.of_nat n))
      by (rewrite <- IH at 1; ring).
    rewrite Ha, Hp, Hc. field. split; assumption.
Qed.

Lemma couponMaj_par (b : MajikBond) :
  couponMaj b
  == Money.toMajorDecimal (faceValue b)
     * (1 + couponRate b / freqQ (frequency b) - 1).
Proof.
  unfold couponMaj. pose proof (freqQ_pos (frequency b)) as Hf. field.
  intros E. rewrite E in Hf. now apply (Qlt_irrefl 0).
Qed.

Lemma base_nonzero (r : Q) (f : CouponFrequency) : 0 <= r -> ~ 1 + r / freqQ f == 0.
Proof.
  intros Hr E. pose proof (discountBase_pos r f Hr) as H. rewrite E in H.
  now apply (Qlt_irrefl 0).
Qed.

(** X12.  Priced at its own coupon rate on a date from which every coupon
    lies a whole number of periods ahead, a bond is at par: its clean price
    is exactly 1. *)
Theorem computePrice_par (b : MajikBond) (asOfDate : Date) :
  0 < minorUnits (faceValue b) -> 0 <= couponRate b ->
  wholePeriods b asOfDate ->
  generateCouponSchedule b <> [] ->
  computePrice pow b (couponRate b) asOfDate Clean == 1.
Proof.
  intros Hface Hrate Hw Hne.
  rewrite (computePrice_clean_whole pow pow_law b (couponRate b) asOfDate Hw Hne).
  rewrite (annuity_par _ _ _ (base_nonzero _ (frequency b) Hrate) (couponMaj_par b)).
  field. now apply faceMaj_nonzero.
Qed.

End PricingMore.

Lemma computePrice_after_maturity_witness :
  (BondPricing.computePrice BondPricing.intPow Examples.defaultBond (1 # 10) (ymd 2031 1 1) Clean == 1)%Q.
Proof.
  refine (proj1 (computePrice_after_maturity BondPricing.intPow intPow_law Examples.defaultBond
                   (1 # 10) (ymd 2031 1 1) eq_refl eq_refl eq_refl _ eq_refl)).
  vm_compute. discriminate.
Defined.

Lemma computePrice_par_witness :
  (BondPricing.computePrice BondPricing.intPow Examples.regularBond (couponRate Examples.regularBond)
               (ymd 2025 1 15) Clean == 1)%Q.
Proof.
  apply (computePrice_par BondPricing.intPow intPow_law Examples.regularBond (ymd 2025 1 15));
    [reflexivity | apply Qle_bool_iff; reflexivity
     | exact regularBond_wholePeriods | discriminate].
Defined.

Section SolverMore.
Import BondPricing BondAnalytics.
Local Open Scope Q_scope.

Variable pow : Q -> Q -> Q.
Hypothesis pow_law : PowLaw pow.




End SolverMore.


Section SaleMore.
Import BondSale.
Local Open Scope Q_scope.

Variable pow : Q -> Q -> Q.



End SaleMore.


Section DurationMore.
Import BondPricing BondAnalytics.
Local Open Scope Q_scope.

Variable pow : Q -> Q -> Q.
Hypothesis pow_law : PowLaw pow.

(** Every present value added by the loop of [getDuration] is weighted by
    a period number between [t] and [N]. *)
Lemma durationLoop_bounds (coupon baseRate : Q) (N : Z) :
  0 <= coupon -> 0 < baseRate ->
  forall (n : nat) (t : Z) (w p : Q),
    (1 <= t)%Z -> (t + Z.of_nat n - 1 <= N)%Z ->
    0 <= p -> p <= w -> w <= inject_Z N * p ->
    0 <= snd (durationLoop pow n coupon baseRate t w p) /\
    snd (durationLoop pow n coupon baseRate t w p)
    <= fst (durationLoop pow n coupon baseRate t w p) /\
    fst (durationLoop pow n coupon baseRate t w p)
    <= inject_Z N * snd (durationLoop pow n coupon baseRate t w p).
Proof.
  intros Hc Hb. induction n as [|k IH]; intros t w p Ht HN Hp Hpw HwN.
  - cbn [durationLoop fst snd]. auto.
  - cbn [durationLoop]. cbv zeta.
    assert (Hpv : 0 <= coupon / pow baseRate (inject_Z t)).
    { rewrite (pow_law baseRate (inject_Z t) t) by reflexivity.
      apply Qdiv_nonneg; [assumption | now apply Qpower_0_lt]. }
    set (pv := coupon / pow baseRate (inject_Z t)) in *.
    assert (H1 : 1 <= inject_Z t)
      by (change (inject_Z 1 <= inject_Z t); rewrite <- Zle_Qle; exact Ht).
    assert (H2 : inject_Z t <= inject_Z N) by (rewrite <- Zle_Qle; lia).
    apply IH; [lia | lia | lra | nra | nra].
Qed.

(** With a zero coupon the loop adds nothing. *)
Lemma durationLoop_zero (coupon baseRate : Q) :
  coupon == 0 ->
  forall (n : nat) (t : Z) (w p : Q),
    fst (durationLoop pow n coupon baseRate t w p) == w /\
    snd (durationLoop pow n coupon baseRate t w p) == p.
Proof.
  intros Hc. induction n as [|k IH]; intros t w p.
  - cbn [durationLoop fst snd]. split; reflexivity.
  - cbn [durationLoop]. cbv zeta.
    destruct (IH (t + 1)%Z
                 (w + coupon / pow baseRate (inject_Z t) * inject_Z t)
                 (p + coupon / pow baseRate (inject_Z t))) as [Hw Hp].
    rewrite Hw, Hp. unfold Qdiv. rewrite Hc. split; ring.
Qed.

(** X15.  For a bond with positive face value, non-negative coupon and
    market rates and at least one coupon period, the Macaulay duration of
    [getDuration] lies between one coupon period and the whole life of the
    bond, [totalPeriods / frequency] years; it is the whole life when the
    coupon rate is zero.  The modified duration is non-negative and never
    exceeds the Macaulay duration. *)
Theorem getDuration_bounds (b : MajikBond) :
  0 < minorUnits (faceValue b) -> 0 <= couponRate b -> 0 <= marketRate b ->
  (1 <= totalPeriods b)%Z ->
  (1 / freqQ (frequency b) <= getDuration pow b /\
   getDuration pow b <= inject_Z (totalPeriods b) / freqQ (frequency b)) /\
  (couponRate b == 0 ->
   getDuration pow b == inject_Z (totalPeriods b) / freqQ (frequency b)) /\
  (0 <= getModifiedDuration pow b /\
   getModifiedDuration pow b <= getDuration pow b).
Proof.
  intros Hface Hcoupon Hmarket HN.
  pose proof (freqQ_pos (frequency b)) as Hfreq.
  pose proof (toMajorDecimal_pos _ Hface) as HfaceMaj.
  pose proof (discountBase_pos _ (frequency b) Hmarket) as Hbase.
  assert (Hc : 0 <= Money.toMajorDecimal (faceValue b) * couponRate b
                    / freqQ (frequency b)).
  { apply Qdiv_nonneg; [|assumption]. apply Qmult_le_0_compat; [|assumption].
    now apply Qlt_le_weak. }
  assert (HNq : 1 <= inject_Z (totalPeriods b))
    by (change (inject_Z 1 <= inject_Z (totalPeriods b));
        rewrite <- Zle_Qle; exact HN).
  assert (HpvFace : 0 < Money.toMajorDecimal (faceValue b)
                        / pow (1 + marketRate b / freqQ (frequency b))
                              (inject_Z (totalPeriods b))).
  { rewrite (pow_law _ (inject_Z (totalPeriods b)) (totalPeriods b)) by reflexivity.
    apply Qlt_shift_div_l; [now apply Qpower_0_lt | now rewrite Qmult_0_l]. }
  pose proof (durationLoop_bounds _ _ (totalPeriods b) Hc Hbase
                (Z.to_nat (totalPeriods b)) 1 0 0
                ltac:(lia) ltac:(lia) ltac:(lra) ltac:(lra) ltac:(lra))
    as (Hp0 & Hpw & HwN).
  pose proof (durationLoop_zero
                (Money.toMajorDecimal (faceValue b) * couponRate b
                 / freqQ (frequency b))
                (1 + marketRate b / freqQ (frequency b))) as Hzero.
  assert (Hdur :
            exists W P, 0 < P /\ P <= W /\ W <= inject_Z (totalPeriods b) * P /\
                        getDuration pow b = W / P / freqQ (frequency b) /\
                        (couponRate b == 0 ->
                         W == inject_Z (totalPeriods b) * P)).
  { unfold getDuration. cbv zeta.
    destruct (durationLoop pow (Z.to_nat (totalPeriods b)) _ _ 1 0 0)
      as [w p] eqn:E.
    cbn [fst snd] in Hp0, Hpw, HwN.
    set (pvFace := Money.toMajorDecimal (faceValue b) / pow _ _) in *.
    exists (w + pvFace * inject_Z (totalPeriods b)), (p + pvFace).
    assert (HP : 0 < p + pvFace) by lra.
    destruct (Qeq_bool (p + pvFace) 0) eqn:E0.
    { apply Qeq_bool_iff in E0. lra. }
    repeat split; [lra | nra | nra |].
    intros Hrate.
    destruct (Hzero ltac:(rewrite Hrate; unfold Qdiv; ring)
                    (Z.to_nat (totalPeriods b)) 1%Z 0 0) as [Hw Hp].
    rewrite E in Hw, Hp. cbn [fst snd] in Hw, Hp. rewrite Hw, Hp. ring. }
  destruct Hdur as (W & P & HP & HPW & HWN & Hd & Hz).
  assert (H1 : 1 <= W / P) by (apply Qle_shift_div_l; lra).
  assert (H2 : W / P <= inject_Z (totalPeriods b))
    by (apply Qle_shift_div_r; lra).
  assert (Hinv : 0 < / freqQ (frequency b)) by now apply Qinv_lt_0_compat.
  assert (Hlow : 1 / freqQ (frequency b) <= getDuration pow b).
  { rewrite Hd. unfold Qdiv at 1 2.
    apply Qmult_le_compat_r; [exact H1 | now apply Qlt_le_weak]. }
  assert (Hhigh : getDuration pow b
                  <= inject_Z (totalPeriods b) / freqQ (frequency b)).
  { rewrite Hd. unfold Qdiv at 1 3.
    apply Qmult_le_compat_r; [exact H2 | now apply Qlt_le_weak]. }
  split; [split; assumption|]. split.
  - intros Hrate. rewrite Hd, (Hz Hrate). field. split; lra.
  - assert (Hd0 : 0 <= getDuration pow b).
    { apply Qle_trans with (y := 1 / freqQ (frequency b)); [|exact Hlow].
      apply Qdiv_nonneg; [lra | assumption]. }
    assert (Hb1 : 1 <= 1 + marketRate b / freqQ (frequency b)).
    { pose proof (Qdiv_nonneg _ _ Hmarket Hfreq). lra. }
    unfold getModifiedDuration. split.
    + apply Qdiv_nonneg; assumption.
    + apply Qle_shift_div_r; [assumption|]. nra.
Qed.

End DurationMore.

Lemma getDuration_bounds_witness :
  (1 / freqQ (frequency Examples.regularBond)
   <= BondAnalytics.getDuration BondPricing.intPow Examples.regularBond)%Q.
Proof.
  refine (proj1 (proj1 (getDuration_bounds BondPricing.intPow intPow_law
                          Examples.regularBond _ _ _ _))).
  - reflexivity.
  - apply Qle_bool_iff. reflexivity.
  - apply Qle_bool_iff. reflexivity.
  - vm_compute. discriminate.
Defined.

Section PlanningMore.
Import BondPricing BondAnalytics.
Local Open Scope Q_scope.

(** X16.  The investment required for a target monthly income does not
    depend on the face value or its currency: for a non-zero face value and
    coupon rate it is twelve times the target, times the buy price, over
    the coupon rate.  With a zero coupon rate it is 0. *)
Theorem requiredInvestment_formula (b : MajikBond) (targetMonthly : Q) :
  ~ minorUnits (faceValue b) == 0 ->
  (~ couponRate b == 0 ->
   getRequiredInvestmentForMonthlyIncome b targetMonthly
   == 12 * targetMonthly * buy (price b) / couponRate b) /\
  (couponRate b == 0 ->
   getRequiredInvestmentForMonthlyIncome b targetMonthly == 0).
Proof.
  intros Hface.
  pose proof (scale_pos (currency (faceValue b))) as Hs.
  assert (Hs0 : ~ Money.scale (currency (faceValue b)) == 0) by lra.
  unfold getRequiredInvestmentForMonthlyIncome. cbv zeta.
  destruct (Qeq_bool (Money.toMajorDecimal (faceValue b) * couponRate b / 12) 0)
    eqn:E; split; intros Hrate.
  - exfalso. apply Qeq_bool_iff in E. apply Hrate.
    unfold Money.toMajorDecimal in E.
    assert (Hprod : minorUnits (faceValue b) * couponRate b == 0).
    { transitivity
        (minorUnits (faceValue b) / Money.scale (currency (faceValue b))
         * couponRate b / 12 * (12 * Money.scale (currency (faceValue b))));
        [field; assumption | rewrite E; ring]. }
    apply Qmult_integral in Hprod. destruct Hprod; [contradiction|assumption].
  - reflexivity.
  - unfold Money.toMajorDecimal. field. repeat split; assumption.
  - exfalso. apply Qeq_bool_neq in E. apply E. rewrite Hrate.
    unfold Qdiv. ring.
Qed.

End PlanningMore.

Lemma requiredInvestment_formula_witness :
  (BondAnalytics.getRequiredInvestmentForMonthlyIncome Examples.regularBond 1000
   == 12 * 1000 * buy (price Examples.regularBond)
      / couponRate Examples.regularBond)%Q.
Proof.
  refine (proj1 (requiredInvestment_formula Examples.regularBond 1000 _) _);
    vm_compute; discriminate.
Defined.

Section CurveMore.
Import BondPricing BondAnalytics.
Local Open Scope Q_scope.

Variable pow : Q -> Q -> Q.

(** Only the guard on the maturity reports [ShortCircuit]. *)
Lemma newtonLoop_exit (b : MajikBond) (priceRatio periods tolerance : Q) :
  forall (iterations : nat) (ytm : Q) (done : nat),
    exitReason (newtonLoop pow iterations b priceRatio periods tolerance ytm done)
    <> ShortCircuit.
Proof.
  induction iterations as [|i IH]; intros ytm done; cbn [newtonLoop].
  - discriminate.
  - destruct (newtonTerms pow b priceRatio periods ytm) as [[f df]|];
      [|discriminate].
    destruct (Qltb (Qabs df) derivativeFloor); [discriminate|].
    destruct (Qltb _ tolerance); [discriminate | apply IH].
Qed.

Lemma nth_error_map_seq {A : Type} (f : nat -> A) (start len i : nat) :
  (i < len)%nat -> nth_error (map f (seq start len)) i = Some (f (start + i)%nat).
Proof.
  intros H. rewrite nth_error_map, nth_error_seq.
  apply Nat.ltb_lt in H. now rewrite H.
Qed.

(** X17.  The yield curve has as many points as asked for (10 by default).
    Its [i]-th maturity is [i] equal parts of the bond's maturity, raised
    to one coupon period when shorter, so it is at least one coupon period;
    the yield plotted there is the solver's estimate for the bond's buy
    price from a solve that did not take the zero-maturity shortcut. *)
Theorem computeYTMCurve_shape (b : MajikBond) (points : option nat)
        (smoothing : option Q) (name : option string) :
  let curve := computeYTMCurve pow b points smoothing name in
  let n := match points with Some p => p | None => 10%nat end in
  List.length (curveX curve) = n /\ List.length (curveY curve) = n /\
  forall i, (i < n)%nat ->
    exists x,
      nth_error (curveX curve) i = Some x /\
      x == Qmax (1 / freqQ (frequency b))
                (years (maturity b) / inject_Z (Z.of_nat n)
                 * inject_Z (Z.of_nat (i + 1))) /\
      1 / freqQ (frequency b) <= x /\
      nth_error (curveY curve) i
      = Some (estimate (solveRun pow b (buy (price b)) x
                                 defaultIterations defaultTolerance)) /\
      exitReason (solveRun pow b (buy (price b)) x
                           defaultIterations defaultTolerance)
      <> ShortCircuit.
Proof.
  cbv zeta. unfold computeYTMCurve.
  set (n := match points with Some p => p | None => 10%nat end).
  cbn [curveX curveY].
  rewrite !length_map, length_seq. split; [reflexivity|]. split; [reflexivity|].
  intros i Hi. exists (curveMaturity b n (1 + i)).
  assert (Hmin : 1 / freqQ (frequency b) <= curveMaturity b n (1 + i))
    by (unfold curveMaturity; apply Q.le_max_l).
  split; [now apply nth_error_map_seq|].
  split; [unfold curveMaturity; now rewrite (Nat.add_comm i 1)|].
  split; [exact Hmin|]. split.
  - rewrite nth_error_map, (nth_error_map_seq _ _ _ _ Hi). reflexivity.
  - unfold solveRun.
    assert (Hpos : 0 < curveMaturity b n (1 + i)).
    { apply Qlt_le_trans with (y := 1 / freqQ (frequency b)); [|exact Hmin].
      apply Qlt_shift_div_l; [apply freqQ_pos | reflexivity]. }
    replace (Qle_bool (curveMaturity b n (1 + i)) 0) with false
      by (symmetry; now apply Qle_bool_false).
    apply newtonLoop_exit.
Qed.

End CurveMore.

Section TaxMore.
Import BondCashflow BondTaxEngine MajikBondQueries MajikBondMutators.
Local Open Scope Q_scope.

(** The withholding rate in force: none while tax is disabled. *)
Lemma computeInterestFWT_rate (settings : BondTaxSettings) (amount : MajikMoney) :
  currency (computeInterestFWT settings amount) = currency amount /\
  minorUnits (computeInterestFWT settings amount)
  == (if enabled settings then interestFWT settings else 0) * minorUnits amount.
Proof.
  unfold computeInterestFWT.
  destruct (enabled settings); cbn [negb orb].
  - destruct (truthy (interestFWT settings)) eqn:E; cbn [negb].
    + split; [reflexivity|]. cbn [Money.multiply minorUnits]. ring.
    + apply truthy_false in E. split; [reflexivity|].
      cbn [Money.fromMinor minorUnits]. rewrite E. ring.
  - split; [reflexivity|]. cbn [Money.fromMinor minorUnits]. ring.
Qed.

(** Summing the tax of each row is taxing the sum of the rows. *)
Lemma fold_interest_tax (settings : BondTaxSettings) :
  forall (rows : list CashflowSummary) (taxSum interestSum : MajikMoney),
    minorUnits taxSum
    == (if enabled settings then interestFWT settings else 0)
       * minorUnits interestSum ->
    currency
      (fold_left (fun sum cf => Money.add sum (computeInterestFWT settings (interest cf)))
                 rows taxSum) = currency taxSum /\
    minorUnits
      (fold_left (fun sum cf => Money.add sum (computeInterestFWT settings (interest cf)))
                 rows taxSum)
    == (if enabled settings then interestFWT settings else 0)
       * minorUnits
           (fold_left (fun sum cf => Money.add sum (interest cf)) rows interestSum).
Proof.
  induction rows as [|cf rows IH]; intros taxSum interestSum H; cbn [fold_left].
  - split; [reflexivity | exact H].
  - destruct (IH (Money.add taxSum (computeInterestFWT settings (interest cf)))
                 (Money.add interestSum (interest cf))) as [Hc Hm].
    + cbn [Money.add minorUnits].
      rewrite (proj2 (computeInterestFWT_rate settings (interest cf))), H. ring.
    + split; [exact Hc | exact Hm].
Qed.


Lemma computeCapitalGains_disabled (settings : BondTaxSettings)
      (sellPrice costBasis : MajikMoney) :
  enabled settings = false ->
  BondTax.computeCapitalGains settings sellPrice costBasis
  = Money.fromMinor 0 (currency sellPrice).
Proof. intros H. unfold BondTax.computeCapitalGains. now rewrite H. Qed.

(** X19.  While tax is disabled nothing is taxed: the lifetime interest
    tax and the total tax (with or without estate tax, whatever the sell
    price) are zero, the net gain after tax of a sale is the sale price
    less the investment, and every row of the cashflow table carries a zero
    tax amount. *)
Theorem tax_disabled (b : MajikBond) :
  enabled (tax b) = false ->
  minorUnits (totalInterestTax b) == 0 /\
  (forall includeEstate, minorUnits (totalTax b includeEstate) == 0) /\
  (forall sellPrice,
      Money.eq (netGainAfterTax b sellPrice)
               (Money.subtract sellPrice
                               (Money.multiply (faceValue b) (buy (price b))))) /\
  (forall cf, In cf (generate b) -> minorUnits (rowTax cf) == 0).
Proof.
  intros Hoff.
  assert (Hinterest : minorUnits (totalInterestTax b) == 0).
  { unfold totalInterestTax.
    destruct (fold_interest_tax (tax b) (generate b)
                (Money.fromMinor 0 (currency (faceValue b)))
                (Money.fromMinor 0 (currency (faceValue b)))) as [_ Hm].
    - cbn [Money.fromMinor minorUnits]. ring.
    - rewrite Hm, Hoff. ring. }
  split; [exact Hinterest|]. split; [|split].
  - intros includeEstate. unfold totalTax. cbv zeta.
    cbn [Money.add minorUnits]. rewrite Hinterest.
    assert (Hcgt : minorUnits
                     match sell (price b) with
                     | Some s =>
                         if truthy (capitalGains (tax b)) && truthy s
                         then BondTax.computeCapitalGains (tax b)
                                (Money.multiply (faceValue b) s)
                                (Money.multiply (faceValue b) (buy (price b)))
                         else Money.fromMinor 0 (currency (faceValue b))
                     | None => Money.fromMinor 0 (currency (faceValue b))
                     end == 0).
    { destruct (sell (price b)) as [s|]; [|reflexivity].
      destruct (truthy (capitalGains (tax b)) && truthy s); [|reflexivity].
      rewrite computeCapitalGains_disabled by assumption. reflexivity. }
    rewrite Hcgt.
    assert (Hestate : minorUnits
                        (if includeEstate && truthy (estateOrDonor (tax b))
                         then computeEstateOrDonor b
                         else Money.fromMinor 0 (currency (faceValue b))) == 0).
    { destruct (includeEstate && truthy (estateOrDonor (tax b))); [|reflexivity].
      unfold computeEstateOrDonor. rewrite Hoff. reflexivity. }
    rewrite Hestate. ring.
  - intros sellPrice. unfold netGainAfterTax. cbv zeta. split; [reflexivity|].
    cbn [Money.subtract minorUnits]. rewrite Hinterest.
    rewrite computeCapitalGains_disabled by assumption.
    cbn [Money.fromMinor minorUnits]. ring.
  - intros cf Hin. unfold generate in Hin. apply in_map_iff in Hin.
    destruct Hin as ([idx d] & <- & _). unfold row. cbn [rowTax].
    unfold taxMaj. rewrite Hoff. cbn [andb].
    unfold rounded, Money.fromMajor. cbn [minorUnits].
    rewrite (roundHalfEven_integer 0 0) by reflexivity. ring.
Qed.

End TaxMore.


Lemma tax_disabled_witness :
  (minorUnits (BondTaxEngine.totalInterestTax Examples.defaultBond) == 0)%Q.
Proof.
  refine (proj1 (tax_disabled Examples.defaultBond _)). reflexivity.
Defined.

Section SettersMore.
Import MajikBondMethods MajikBondMutators.
Local Open Scope Q_scope.

Lemma recompute_fresh (b : MajikBond) :
  cacheFresh (withCashflowSummary (BondCashflow.generate b) b).
Proof. reflexivity. Qed.

(** X20.  Every chainable setter but [setCurrencyCode] leaves the cached
    cashflow table in step with the bond: when it returns, the table is the one
    [BondCashflow.generate] yields for the updated bond; when it throws,
    the table is the one the bond had before the call. *)
Theorem setters_refresh_cache (s : AnySetter) (b : MajikBond) :
  match callAny s b with
  | (Returned, b') => cacheFresh b'
  | (Thrown _, b') => cashflowSummary b' = cashflowSummary b
  end.
Proof.
  destruct s as [s | c | f | m | flag | now arg]; cbn [callAny].
  - destruct s; cbn [call];
      unfold setFaceValue, setCouponRate, setBuyPrice, setSellPrice,
        setMarketRate, setInterestFWT, setCapitalGains, setEstateOrDonor,
        setIssueDate, setMaturityDate, recomputeMaturityYears,
        recomputeDerivedData, andThen, assign, throw;
      cbn [withMaturity maturity start end_];
      match goal with
      | |- context [if ?g then _ else _] => destruct g
      end;
      first [exact (recompute_fresh _) | reflexivity].
  - unfold setDayCount, andThen, assign, recomputeDerivedData.
    exact (recompute_fresh _).
  - unfold setFrequency, andThen, assign, recomputeDerivedData.
    exact (recompute_fresh _).
  - unfold setPriceMode, andThen, assign, recomputeDerivedData.
    exact (recompute_fresh _).
  - unfold toggleTax, andThen, assign, recomputeDerivedData.
    exact (recompute_fresh _).
  - unfold setMaturity, andThen, assign, recomputeDerivedData.
    exact (recompute_fresh _).
Qed.

(** X21.  [setMaturity] accepts a date range that ends on or before its
    start, which [setMaturityDate] rejects: the call returns, the bond
    holds the range with a maturity in years that is zero or negative, and
    its cashflow table is empty. *)
Theorem setMaturity_unchecked (now s e : Date) (b : MajikBond) :
  (getTime e <= getTime s)%Z ->
  exists b',
    setMaturity now (Range s e) b = (Returned, b') /\
    start (maturity b') = s /\ end_ (maturity b') = e /\
    years (maturity b') <= 0 /\
    cashflowSummary b' = [] /\
    exists message, fst (setMaturityDate e b') = Thrown message.
Proof.
  intros Hle. eexists. split; [reflexivity|].
  cbn [withCashflowSummary withMaturity maturity start end_ years cashflowSummary].
  split; [reflexivity|]. split; [reflexivity|]. split; [|split].
  - unfold Qdiv. rewrite <- (Qmult_0_l (/ msPerYear)).
    apply Qmult_le_compat_r; [|discriminate].
    change 0 with (inject_Z 0). rewrite <- Zle_Qle. lia.
  - unfold BondCashflow.generate.
    cbn [withMaturity maturity start end_ frequency].
    assert (Hempty : Schedule.couponDates s e (frequency b) = []).
    { unfold Schedule.couponDates, Schedule.scheduleFuel.
      rewrite Nat.add_1_r. cbn [Schedule.scheduleLoop].
      apply Z.ltb_ge in Hle. now rewrite Hle. }
    rewrite Hempty. reflexivity.
  - eexists. unfold setMaturityDate, recomputeMaturityYears, andThen, assign, throw.
    cbn [withCashflowSummary withMaturity maturity start end_ fst].
    apply Z.leb_le in Hle. rewrite Hle. reflexivity.
Qed.

(** X22.  The validated setters keep a well-formed bond well-formed:
    whenever one of them returns, called with a calendar date if it takes a
    date, the bond it leaves satisfies every constraint it satisfied
    before. *)
Theorem setters_preserve_validity (s : Setter) (b b' : MajikBond) :
  validBond b = true -> validArgument s = true ->
  call s b = (Returned, b') ->
  validBond b' = true.
Proof.
  intros Hvalid Harg. unfold validBond in Hvalid.
  rewrite !andb_true_iff in Hvalid.
  destruct Hvalid as ((((((((((Hs & He) & Hlt) & Hface) & Hcr) & Hmr) & Hbuy)
                          & Hsell) & Hfwt) & Hcg) & Hed).
  unfold validBond.
  destruct s; cbn [call validArgument] in *;
    unfold setFaceValue, setCouponRate, setBuyPrice, setSellPrice,
      setMarketRate, setInterestFWT, setCapitalGains, setEstateOrDonor,
      setIssueDate, setMaturityDate, recomputeMaturityYears,
      recomputeDerivedData, andThen, assign, throw, outsideUnit;
    cbn [withMaturity maturity start end_];
    match goal with
    | |- context [if ?g then _ else _] => destruct g eqn:Eg
    end;
    intros Hcall; try discriminate; injection Hcall as <-;
    cbn [withCashflowSummary withFaceValue withCouponRate withPrice
         withMarketRate withTax withMaturity faceValue couponRate maturity
         price frequency marketRate dayCount tax start end_ buy sell
         interestFWT capitalGains estateOrDonor Money.fromMajor minorUnits];
    rewrite ?Hs, ?He, ?Hlt, ?Hface, ?Hcr, ?Hmr, ?Hbuy, ?Hsell, ?Hfwt, ?Hcg,
      ?Hed, ?Harg; cbn [andb]; rewrite ?andb_true_r.
  - (* setFaceValue *)
    apply Qle_bool_false in Eg. apply Qltb_true.
    apply Qmult_lt_0_compat; [assumption | apply scale_pos].
  - (* setCouponRate *)
    apply Qltb_false in Eg. now apply Qle_bool_iff.
  - (* setBuyPrice *)
    apply Qle_bool_false in Eg. now apply Qltb_true.
  - (* setSellPrice *)
    apply Qle_bool_false in Eg. now apply Qltb_true.
  - (* setMarketRate *)
    apply Qltb_false in Eg. now apply Qle_bool_iff.
  - (* setInterestFWT *)
    apply orb_false_iff in Eg. destruct Eg as [E0 E1].
    apply Qltb_false in E0, E1. unfold unitRate.
    apply andb_true_iff. split; now apply Qle_bool_iff.
  - (* setCapitalGains *)
    apply orb_false_iff in Eg. destruct Eg as [E0 E1].
    apply Qltb_false in E0, E1. unfold unitRate.
    apply andb_true_iff. split; now apply Qle_bool_iff.
  - (* setEstateOrDonor *)
    apply orb_false_iff in Eg. destruct Eg as [E0 E1].
    apply Qltb_false in E0, E1. unfold unitRate.
    apply andb_true_iff. split; now apply Qle_bool_iff.
  - (* setIssueDate *)
    apply Z.leb_gt in Eg. apply Z.ltb_lt. exact Eg.
  - (* setMaturityDate *)
    apply Z.leb_gt in Eg. apply Z.ltb_lt. exact Eg.
Qed.

End SettersMore.

Lemma setMaturity_unchecked_witness :
  exists b',
    MajikBondMutators.setMaturity (ymd 2025 1 1)
      (MajikBondMutators.Range (ymd 2027 1 15) (ymd 2025 1 15)) Examples.regularBond
    = (MajikBondMethods.Returned, b') /\
    cashflowSummary b' = [].
Proof.
  destruct (setMaturity_unchecked (ymd 2025 1 1) (ymd 2027 1 15) (ymd 2025 1 15)
              Examples.regularBond ltac:(vm_compute; discriminate))
    as (b' & Hcall & _ & _ & _ & Htable & _).
  exists b'. split; assumption.
Defined.

Lemma setters_preserve_validity_witness :
  validBond (snd (MajikBondMethods.call (MajikBondMethods.SetCouponRate (7 # 100))
                    Examples.regularBond)) = true.
Proof.
  apply (setters_preserve_validity (MajikBondMethods.SetCouponRate (7 # 100))
           Examples.regularBond);
    reflexivity.
Defined.

Section TotalsMore.
Import BondCashflow MajikBondQueries MajikBondMutators.
Local Open Scope Q_scope.

Lemma Qfloor_add_Z (x : Q) (n : Z) : Qfloor (x + inject_Z n) = (Qfloor x + n)%Z.
Proof.
  pose proof (Qfloor_le x) as Hlo. pose proof (Qlt_floor x) as Hhi.
  pose proof (Qfloor_le (x + inject_Z n)) as Hlo'.
  pose proof (Qlt_floor (x + inject_Z n)) as Hhi'.
  rewrite inject_Z_plus in Hhi, Hhi'. change (inject_Z 1) with 1 in Hhi, Hhi'.
  assert (H1 : inject_Z (Qfloor (x + inject_Z n)) < inject_Z (Qfloor x + n + 1)).
  { rewrite !inject_Z_plus. change (inject_Z 1) with 1. lra. }
  assert (H2 : inject_Z (Qfloor x + n) < inject_Z (Qfloor (x + inject_Z n) + 1)).
  { rewrite !inject_Z_plus. change (inject_Z 1) with 1. lra. }
  rewrite <- Zlt_Qlt in H1, H2. lia.
Qed.

(** Rounding half to even commutes with adding an even integer (an odd one
    would turn a tie the other way). *)
Lemma roundHalfEven_add_even (x : Q) (k : Z) :
  roundHalfEven (x + inject_Z (2 * k)) = (roundHalfEven x + 2 * k)%Z.
Proof.
  unfold roundHalfEven. cbv zeta. rewrite Qfloor_add_Z.
  assert (Hr : x + inject_Z (2 * k) - inject_Z (Qfloor x + 2 * k)
               == x - inject_Z (Qfloor x)) by (rewrite inject_Z_plus; ring).
  assert (H1 : Qltb (x + inject_Z (2 * k) - inject_Z (Qfloor x + 2 * k)) (1 # 2)
               = Qltb (x - inject_Z (Qfloor x)) (1 # 2)).
  { destruct (Qltb (x - inject_Z (Qfloor x)) (1 # 2)) eqn:E.
    - apply Qltb_true in E. apply Qltb_true. now rewrite Hr.
    - apply Qltb_false in E. apply Qltb_false. now rewrite Hr. }
  assert (H2 : Qltb (1 # 2) (x + inject_Z (2 * k) - inject_Z (Qfloor x + 2 * k))
               = Qltb (1 # 2) (x - inject_Z (Qfloor x))).
  { destruct (Qltb (1 # 2) (x - inject_Z (Qfloor x))) eqn:E.
    - apply Qltb_true in E. apply Qltb_true. now rewrite Hr.
    - apply Qltb_false in E. apply Qltb_false. now rewrite Hr. }
  rewrite H1, H2.
  replace (Z.even (Qfloor x + 2 * k)) with (Z.even (Qfloor x))
    by (rewrite Z.even_add_mul_2; reflexivity).
  destruct (Qltb (x - inject_Z (Qfloor x)) (1 # 2)); [lia|].
  destruct (Qltb (1 # 2) (x - inject_Z (Qfloor x))); [lia|].
  destruct (Z.even (Qfloor x)); lia.
Qed.

Lemma combine_app_same {A B : Type} (l1 l2 : list A) (r1 r2 : list B) :
  List.length l1 = List.length r1 ->
  combine (l1 ++ l2) (r1 ++ r2) = combine l1 r1 ++ combine l2 r2.
Proof.
  revert r1. induction l1 as [|a l1 IH]; intros [|c r1] H; try discriminate.
  - reflexivity.
  - cbn [app combine]. f_equal. apply IH. now injection H.
Qed.

Lemma map_combine_seq_last {A B : Type} (g : nat -> A -> B)
      (front : list A) (d : A) :
  map (fun '(i, x) => g i x)
      (combine (seq 0 (List.length (front ++ [d]))) (front ++ [d]))
  = map (fun '(i, x) => g i x) (combine (seq 0 (List.length front)) front)
    ++ [g (List.length front) d].
Proof.
  rewrite length_app. cbn [List.length].
  rewrite seq_app, combine_app_same by (now rewrite length_seq).
  rewrite map_app. reflexivity.
Qed.

(** Totals of a table whose rows pay interest only, except for the last,
    which pays [extra] on top. *)
Lemma fold_totals (extra : Q) :
  forall (rows : list CashflowSummary) (lastRow : CashflowSummary)
         (cashSum interestSum : MajikMoney),
    Forall (fun r => total r = interest r) rows ->
    minorUnits (total lastRow) == minorUnits (interest lastRow) + extra ->
    minorUnits cashSum == minorUnits interestSum ->
    minorUnits (fold_left (fun sum cf => Money.add sum (total cf))
                          (rows ++ [lastRow]) cashSum)
    == minorUnits (fold_left (fun sum cf => Money.add sum (interest cf))
                             (rows ++ [lastRow]) interestSum)
       + extra.
Proof.
  induction rows as [|r rows IH]; intros lastRow cashSum interestSum Hrows Hlast Hsum.
  - cbn [app fold_left Money.add minorUnits]. rewrite Hlast, Hsum. ring.
  - inversion Hrows as [|? ? Hr Hrest]; subst.
    cbn [app fold_left]. apply IH; [assumption | assumption |].
    cbn [Money.add minorUnits]. rewrite Hr, Hsum. reflexivity.
Qed.

(** X23.  On a bond whose cached table is up to date, whose maturity lies
    after its issue and whose face value is an even whole number of major
    units, the total cash received is the total interest earned plus the
    face value, so the net gain is the interest earned plus the face value
    less the amount invested. *)
Theorem cash_received_decomposes (b : MajikBond) (k : Z) :
  cacheFresh b ->
  (getTime (start (maturity b)) < getTime (end_ (maturity b)))%Z ->
  Money.toMajorDecimal (faceValue b) == inject_Z (2 * k) ->
  Money.eq (getTotalCashReceived b)
           (Money.add (getTotalInterestEarned b) (faceValue b)) /\
  Money.eq (netGain b)
           (Money.subtract
              (Money.add (getTotalInterestEarned b) (faceValue b))
              (Money.multiply (faceValue b) (buy (price b)))).
Proof.
  intros Hfresh Hlt Hface.
  pose proof (scale_pos (currency (faceValue b))) as Hs.
  assert (Hcur : forall (f : CashflowSummary -> MajikMoney) rows init,
             currency (fold_left (fun sum cf => Money.add sum (f cf)) rows init)
             = currency init).
  { intros f rows. induction rows as [|r rows IH]; intros init; [reflexivity|].
    cbn [fold_left]. now rewrite IH. }
  assert (Hcash : minorUnits (getTotalCashReceived b)
                  == minorUnits (getTotalInterestEarned b)
                     + minorUnits (faceValue b)).
  { unfold getTotalCashReceived, getTotalInterestEarned. rewrite Hfresh.
    unfold generate.
    set (schedule := Schedule.couponDates _ _ _).
    assert (Hne : schedule <> []).
    { intros E. apply (proj1 (schedule_empty_iff b)) in E. lia. }
    destruct (exists_last Hne) as (front & d & Hsplit).
    assert (Hlen : List.length (front ++ [d]) = S (List.length front))
      by (rewrite length_app; cbn [List.length]; lia).
    clearbody schedule. subst schedule.
    rewrite (map_combine_seq_last (row b (front ++ [d]))).
    apply fold_totals.
    - apply Forall_forall. intros r Hin. apply in_map_iff in Hin.
      destruct Hin as ([idx c] & <- & Hin).
      apply in_combine_l in Hin. apply in_seq in Hin.
      unfold row. cbn [total interest]. unfold principalMaj.
      replace (idx =? List.length (front ++ [d]) - 1)%nat with false
        by (symmetry; apply Nat.eqb_neq; lia).
      unfold rounded. now rewrite (roundHalfEven_comp _ _ (Qplus_0_r _)).
    - unfold row. cbn [total interest]. unfold principalMaj.
      replace (List.length front =? List.length (front ++ [d]) - 1)%nat with true
        by (symmetry; apply Nat.eqb_eq; lia).
      unfold rounded, Money.fromMajor. cbn [minorUnits].
      match goal with
      | |- context [roundHalfEven (?i + Money.toMajorDecimal (faceValue b))] =>
          rewrite (roundHalfEven_comp (i + Money.toMajorDecimal (faceValue b))
                                      (i + inject_Z (2 * k)))
            by (now rewrite Hface)
      end.
      rewrite roundHalfEven_add_even, inject_Z_plus, <- Hface.
      unfold Money.toMajorDecimal. field. lra.
    - reflexivity. }
  split; split.
  - unfold getTotalCashReceived, getTotalInterestEarned.
    cbn [Money.add currency]. now rewrite !Hcur.
  - exact Hcash.
  - unfold netGain, getTotalCashReceived, getTotalInterestEarned.
    cbn [Money.add Money.subtract currency]. now rewrite !Hcur.
  - unfold netGain. cbn [Money.subtract Money.add minorUnits]. rewrite Hcash.
    reflexivity.
Qed.

End TotalsMore.

Lemma cash_received_decomposes_witness :
  Money.eq (MajikBondQueries.getTotalCashReceived Examples.liveBond)
           (Money.add (MajikBondQueries.getTotalInterestEarned Examples.liveBond)
                      (faceValue Examples.liveBond)).
Proof.
  refine (proj1 (cash_received_decomposes Examples.liveBond 2500 _ _ _)).
  - reflexivity.
  - reflexivity.
  - reflexivity.
Defined.

Section PeriodsMore.
Import Schedule DayCountCalculator.
Local Open Scope Q_scope.

Lemma Math_round_integer (x : Q) (n : Z) : x == inject_Z n -> Math_round x = n.
Proof.
  intros H. unfold Math_round.
  rewrite (Qfloor_comp (x + (1 # 2)) ((1 # 2) + inject_Z n))
    by (rewrite H; ring).
  rewrite Qfloor_add_Z. reflexivity.
Qed.

(** X24.  [totalPeriods], which drives the loop of [getDuration], counts
    the rows of the cashflow table for a regular bond: on a 30/360
    convention, issued on the 28th or earlier, and maturing a whole number
    of coupon periods after issue, it equals the number of scheduled coupon
    dates. *)
Theorem totalPeriods_regular (b : MajikBond) :
  validDate (start (maturity b)) = true ->
  validDate (end_ (maturity b)) = true ->
  (getTime (start (maturity b)) < getTime (end_ (maturity b)))%Z ->
  dayCount b = THIRTY_360 \/ dayCount b = THIRTY_U_360 \/ dayCount b = THIRTY_E_360 ->
  (day (start (maturity b)) <= 28)%Z ->
  getTime (end_ (maturity b))
  = getTime (currentAfter (frequency b)
                          (List.length (generateCouponSchedule b))
                          (start (maturity b))) ->
  totalPeriods b = Z.of_nat (List.length (generateCouponSchedule b)) /\
  totalPeriods b = Z.of_nat (List.length (BondCashflow.generate b)).
Proof.
  intros Hs He Hlt Hdc H28 Haligned.
  set (n := List.length (generateCouponSchedule b)) in *.
  pose proof (currentAfter_spec (frequency b) (start (maturity b)) Hs n) as Hc.
  cbv zeta in Hc. destruct Hc as (Hv & Hmi & _ & _ & Hd).
  assert (Hend : end_ (maturity b)
                 = currentAfter (frequency b) n (start (maturity b)))
    by (apply getTime_inj; assumption).
  assert (Hperiods : totalPeriods b = Z.of_nat n).
  { unfold totalPeriods. apply Math_round_integer.
    rewrite (thirty360_same_day _ _ (dayCount b) Hdc Hlt
               ltac:(rewrite Hend; now apply Hd)).
    rewrite Hend, Hmi.
    replace (monthIndex (start (maturity b))
             + Z.of_nat n * monthsPerPeriod (frequency b)
             - monthIndex (start (maturity b)))%Z
      with (Z.of_nat n * monthsPerPeriod (frequency b))%Z by lia.
    rewrite inject_Z_mult.
    pose proof (monthsPerPeriod_fraction (frequency b)) as Hfr.
    pose proof (freqQ_pos (frequency b)) as Hf.
    transitivity (inject_Z (Z.of_nat n)
                  * (inject_Z (monthsPerPeriod (frequency b)) / 12)
                  * freqQ (frequency b)); [field|].
    rewrite Hfr. field. lra. }
  split; [exact Hperiods|]. now rewrite generate_length.
Qed.

End PeriodsMore.

Lemma totalPeriods_regular_witness :
  totalPeriods Examples.regularBond
  = Z.of_nat (List.length (generateCouponSchedule Examples.regularBond)).
Proof.
  refine (proj1 (totalPeriods_regular Examples.regularBond eq_refl eq_refl eq_refl
                   (or_introl eq_refl) _ eq_refl)).
  vm_compute. discriminate.
Defined.

Section PremiumDiscount.
Import BondPricing.
Local Open Scope Q_scope.

Variable pow : Q -> Q -> Q.
Hypothesis pow_law : PowLaw pow.

Lemma annuity_unit_nonneg (base : Q) (n : nat) : 0 < base -> 0 <= annuity 1 base n.
Proof.
  intros Hb. induction n as [|k IH]; cbn [annuity]; [apply Qle_refl|].
  pose proof (Qdiv_nonneg 1 _ ltac:(lra) (Qpower_0_lt base (Z.of_nat (S k)) Hb)).
  lra.
Qed.

Lemma annuity_unit_pos (base : Q) (n : nat) :
  0 < base -> (1 <= n)%nat -> 0 < annuity 1 base n.
Proof.
  intros Hb Hn. destruct n as [|k]; [lia|]. cbn [annuity].
  pose proof (annuity_unit_nonneg base k Hb) as H0.
  assert (0 < 1 / Qpower base (Z.of_nat (S k))).
  { apply Qlt_shift_div_l; [now apply Qpower_0_lt | reflexivity]. }
  lra.
Qed.

(** What a bond is worth above its face value: the excess of the coupon
    over the interest on the face value, as an annuity. *)
Lemma annuity_excess (c base face : Q) :
  ~ base == 0 ->
  forall n,
    annuity c base n + face / Qpower base (Z.of_nat n) - face
    == (c - face * (base - 1)) * annuity 1 base n.
Proof.
  intros Hb. induction n as [|n IH].
  - cbn [annuity]. change (Qpower base (Z.of_nat 0)) with 1. field.
  - cbn [annuity].
    assert (Hp : Qpower base (Z.of_nat (S n)) == Qpower base (Z.of_nat n) * base).
    { rewrite Nat2Z.inj_succ. unfold Z.succ. rewrite Qpower_plus by assumption.
      change (Qpower base 1) with base. reflexivity. }
    pose proof (Qpower_not_0 base (Z.of_nat n) Hb) as Hn.
    assert (Ha : annuity c base n
                 == (c - face * (base - 1)) * annuity 1 base n
                    - face / Qpower base (Z.of_nat n) + face)
      by (rewrite <- IH; ring).
    rewrite Ha, Hp. field. split; assumption.
Qed.

(** X25.  Discount and premium.  On a date from which every coupon lies a
    whole number of periods ahead, a bond with a positive face value is
    priced below par, clean, at any rate above its coupon rate, and above
    par at any non-negative rate below it. *)
Theorem computePrice_discount_premium (b : MajikBond) (rate : Q) (asOfDate : Date) :
  0 < minorUnits (faceValue b) -> 0 <= rate ->
  wholePeriods b asOfDate ->
  generateCouponSchedule b <> [] ->
  (couponRate b < rate -> computePrice pow b rate asOfDate Clean < 1) /\
  (rate < couponRate b -> 1 < computePrice pow b rate asOfDate Clean).
Proof.
  intros Hface Hrate Hw Hne.
  pose proof (toMajorDecimal_pos _ Hface) as HF.
  pose proof (freqQ_pos (frequency b)) as Hfreq.
  pose proof (discountBase_pos rate (frequency b) Hrate) as Hbase.
  assert (Hlen : (1 <= List.length (generateCouponSchedule b))%nat)
    by (destruct (generateCouponSchedule b); [congruence | cbn [List.length]; lia]).
  pose proof (annuity_unit_pos _ _ Hbase Hlen) as HS.
  pose proof (annuity_excess (couponMaj b) (1 + rate / freqQ (frequency b))
                (Money.toMajorDecimal (faceValue b))
                ltac:(lra) (List.length (generateCouponSchedule b))) as Hex.
  assert (HK : couponMaj b
               - Money.toMajorDecimal (faceValue b)
                 * (1 + rate / freqQ (frequency b) - 1)
               == Money.toMajorDecimal (faceValue b)
                  * ((couponRate b - rate) * / freqQ (frequency b)))
    by (unfold couponMaj; field; lra).
  rewrite HK in Hex.
  assert (Hinv : 0 < / freqQ (frequency b)) by now apply Qinv_lt_0_compat.
  rewrite (computePrice_clean_whole pow pow_law b rate asOfDate Hw Hne).
  cbv zeta in *.
  set (A := annuity (couponMaj b) _ _) in *.
  set (X := Money.toMajorDecimal (faceValue b) / Qpower _ _) in *.
  set (S1 := annuity 1 _ _) in *.
  set (F := Money.toMajorDecimal (faceValue b)) in *.
  set (r := / freqQ (frequency b)) in *.
  split; intros Hcmp.
  - apply Qlt_shift_div_r; [assumption|].
    assert (Hneg : (couponRate b - rate) * r * (F * S1) < 0).
    { assert (0 < F * S1) by nra. assert (couponRate b - rate < 0) by lra.
      assert ((couponRate b - rate) * r < 0) by nra. nra. }
    assert (Hsum : A + X == F + (couponRate b - rate) * r * (F * S1))
      by (transitivity (A + X - F + F); [ring | rewrite Hex; ring]).
    rewrite Hsum. lra.
  - apply Qlt_shift_div_l; [assumption|].
    assert (Hpos : 0 < (couponRate b - rate) * r * (F * S1)).
    { assert (0 < F * S1) by nra. assert (0 < couponRate b - rate) by lra.
      assert (0 < (couponRate b - rate) * r) by nra. nra. }
    assert (Hsum : A + X == F + (couponRate b - rate) * r * (F * S1))
      by (transitivity (A + X - F + F); [ring | rewrite Hex; ring]).
    rewrite Hsum. lra.
Qed.

End PremiumDiscount.

Lemma computePrice_discount_premium_witness :
  (BondPricing.computePrice BondPricing.intPow Examples.regularBond (8 # 100)
                            (ymd 2025 1 15) Clean < 1)%Q.
Proof.
  refine (proj1 (computePrice_discount_premium BondPricing.intPow intPow_law
                   Examples.regularBond (8 # 100) (ymd 2025 1 15)
                   eq_refl _ regularBond_wholePeriods _) eq_refl).
  - apply Qle_bool_iff. reflexivity.
  - discriminate.
Defined.

Section EnginesMore.
Import BondSale BondTaxEngine.
Local Open Scope Q_scope.

Variable pow : Q -> Q -> Q.


End EnginesMore.


Section MaturityMore.
Import MajikBondMethods MajikBondMutators.
Local Open Scope Z_scope.

Lemma toInteger_sum (y z : Z) : toInteger (inject_Z y + inject_Z z)%Q = y + z.
Proof.
  unfold toInteger. cbn [Qplus inject_Z Qnum Qden Pos.mul].
  rewrite Z.quot_1_r. lia.
Qed.

Lemma setFullYear_spec (d : Date) (y : Z) :
  validDate d = true ->
  validDate (setFullYear d y) = true /\
  year (setFullYear d y) = y /\
  msOfDay (setFullYear d y) = msOfDay d /\
  (day d <= daysInMonth y (month d) ->
   month (setFullYear d y) = month d /\ day (setFullYear d y) = day d) /\
  (daysInMonth y (month d) < day d ->
   month d = 2 /\ day d = 29 /\
   month (setFullYear d y) = 3 /\ day (setFullYear d y) = 1).
Proof.
  intros Hd. apply validDate_spec in Hd. destruct Hd as (Hm & Hday & Hms).
  unfold setFullYear.
  destruct (day d <=? daysInMonth y (month d)) eqn:E.
  - apply Z.leb_le in E. cbn [year month day msOfDay].
    split; [apply validDate_spec; cbn [year month day msOfDay]; lia|].
    repeat split; try reflexivity; lia.
  - apply Z.leb_gt in E.
    assert (Hfeb : month d = 2 /\ day d = 29 /\ daysInMonth y (month d) = 28).
    { destruct (month_cases (month d) Hm)
        as [H|[H|[H|[H|[H|[H|[H|[H|[H|[H|[H|H]]]]]]]]]]];
        rewrite H in *; unfold daysInMonth in *;
        cbn -[Z.add Z.sub Z.lt Z.le] in *;
        try lia;
        destruct (isLeapYear y); destruct (isLeapYear (year d)); lia. }
    destruct Hfeb as (Hmonth & Hd29 & Hdim). rewrite Hmonth in *.
    unfold nextMonth. cbn -[Z.add Z.sub daysInMonth].
    rewrite Hdim, Hd29. cbn [year month day msOfDay].
    split; [apply validDate_spec; cbn [year month day msOfDay daysInMonth];
            unfold daysInMonth; cbn; lia|].
    repeat split; try reflexivity; try lia.
Qed.

(** X27.  [setMaturity] with a whole number [n >= 1] of years starts the
    bond now and ends it the same day and time of day [n] years later (on
    1 March when now is 29 February and that year has none), stores [n]
    itself as the maturity in years and no issue date, and leaves a
    non-empty cashflow table. *)
Theorem setMaturity_years (now : Date) (n : Z) (b : MajikBond) :
  validDate now = true -> 1 <= n ->
  exists b',
    setMaturity now (YearsFromNow (inject_Z n)) b = (Returned, b') /\
    start (maturity b') = now /\
    (years (maturity b') == inject_Z n)%Q /\
    issueDate (maturity b') = None /\
    validDate (end_ (maturity b')) = true /\
    year (end_ (maturity b')) = year now + n /\
    msOfDay (end_ (maturity b')) = msOfDay now /\
    (day now <= daysInMonth (year now + n) (month now) ->
     month (end_ (maturity b')) = month now /\
     day (end_ (maturity b')) = day now) /\
    (daysInMonth (year now + n) (month now) < day now ->
     month (end_ (maturity b')) = 3 /\ day (end_ (maturity b')) = 1) /\
    getTime now < getTime (end_ (maturity b')) /\
    cashflowSummary b' <> [].
Proof.
  intros Hnow Hn. eexists. split; [reflexivity|].
  cbn [withCashflowSummary withMaturity maturity start end_ years issueDate
       cashflowSummary].
  rewrite toInteger_sum.
  destruct (setFullYear_spec now (year now + n) Hnow)
    as (Hv & Hy & Hms & Hsame & Hfeb).
  assert (Hlater : getTime now < getTime (setFullYear now (year now + n))).
  { apply getTime_month_lt; [assumption | assumption|].
    unfold monthIndex. rewrite Hy.
    apply validDate_spec in Hnow. apply validDate_spec in Hv. lia. }
  split; [reflexivity|]. split; [reflexivity|]. split; [reflexivity|].
  split; [exact Hv|]. split; [exact Hy|]. split; [exact Hms|].
  split; [exact Hsame|].
  split; [intros H; destruct (Hfeb H) as (_ & _ & H3 & H1); now split|].
  split; [exact Hlater|].
  intros Hempty.
  assert (Hlen : List.length (BondCashflow.generate
                                (withMaturity
                                   (mkMaturity now (setFullYear now (year now + n))
                                               (inject_Z n) None) b)) = 0%nat)
    by (rewrite Hempty; reflexivity).
  rewrite generate_length in Hlen. apply length_zero_iff_nil in Hlen.
  apply (proj1 (schedule_empty_iff _)) in Hlen.
  cbn [withMaturity maturity start end_] in Hlen. lia.
Qed.

End MaturityMore.

Lemma setMaturity_years_witness :
  exists b',
    MajikBondMutators.setMaturity (ymd 2024 2 29)
      (MajikBondMutators.YearsFromNow (inject_Z 1)) Examples.regularBond
    = (MajikBondMethods.Returned, b') /\
    end_ (maturity b') = ymd 2025 3 1.
Proof.
  destruct (setMaturity_years (ymd 2024 2 29) 1 Examples.regularBond eq_refl
              ltac:(lia))
    as (b' & Hcall & _).
  exists b'. split; [exact Hcall|].
  injection Hcall as <-. reflexivity.
Defined.

Lemma computeYTMCurve_shape_witness :
  List.length
    (BondAnalytics.curveX
       (BondAnalytics.computeYTMCurve BondPricing.intPow Examples.regularBond
                                      None None None)) = 10%nat.
Proof.
  exact (proj1 (computeYTMCurve_shape BondPricing.intPow Examples.regularBond
                  None None None)).
Defined.
